(** * Emergency assistant: triage, hospital ranking and the response protocol

    A shallow embedding of [ai_emergency_assistance.py], and of the one
    computed line of the prompt of [mainagent.py].

    - Python [int] is [Z]; Python [float] is IEEE-754 binary64, taken from the
      Standard Library's executable specification [spec_float] with
      [prec = 53] and [emax = 1024] (the operations [SF64mul], [SF64add],
      [SF64div] and the comparison [SFltb]).
    - Python [str] is [string]; a character is a code point below 256
      (Latin-1), on which [str.lower] maps a code point to a code point.
    - The simulated sources ([random], the canned voice command) are inputs of
      a run: what they answered is given, per hospital visited, as a [Probe].
    - Every [logger] call appends a [LogRecord] to the log of the [World];
      the two attributes the protocol assigns live there too.
    - An exception is a [Raise] in the [result] type. *)

From Stdlib Require Import ZArith List String Ascii Bool Lia Floats QArith Qabs.
From Stdlib Require Import Permutation Sorted.
Import ListNotations.
Local Open Scope string_scope.
Local Open Scope Z_scope.

(** ** Exceptions *)

Inductive exn : Type :=
| ZeroDivisionError
| OverflowError
| IndexError.

Inductive result (A : Type) : Type :=
| Ok (a : A)
| Raise (e : exn).

Arguments Ok {A} a.
Arguments Raise {A} e.

(** ** Python numbers *)

Module Py.

Definition float : Type := spec_float.

(** The literals [0.7] and [0.3], rounded to the nearest binary64 value. *)
Definition f0_7 : float := S754_finite false 6305039478318694 (-53).
Definition f0_3 : float := S754_finite false 5404319552844595 (-54).
Definition f1_0 : float := S754_finite false 4503599627370496 (-52).
Definition f0_0 : float := S754_zero false.

(** An integer as an exact (unrounded) mantissa with exponent 0. *)
Definition exact_of_int (n : Z) : spec_float :=
  match n with
  | Z0 => S754_zero false
  | Zpos p => S754_finite false p 0
  | Zneg p => S754_finite true p 0
  end.

(** [a / b] on two [int]s: true division. CPython rounds the exact quotient
    once, to nearest-even; a zero divisor raises [ZeroDivisionError], a
    quotient too large for a float raises [OverflowError], a quotient too
    small becomes a signed zero. *)
Definition int_true_div (a b : Z) : result float :=
  if b =? 0 then Raise ZeroDivisionError
  else match SF64div (exact_of_int a) (exact_of_int b) with
       | S754_infinity _ => Raise OverflowError
       | q => Ok q
       end.

Definition mul : float -> float -> float := SF64mul.
Definition add : float -> float -> float := SF64add.

(** [x < y] on floats; [false] as soon as one side is a NaN. *)
Definition lt : float -> float -> bool := SFltb.
Definition le : float -> float -> bool := SFleb.

(** A float that is a number of finite size: a zero or a finite value. *)
Definition is_finite (x : float) : bool :=
  match x with S754_zero _ | S754_finite _ _ _ => true | _ => false end.

(** The rational a finite float stands for ([0] for the others). *)
Definition to_Q (x : float) : Q :=
  match x with
  | S754_finite s m e =>
      let v := match e with
               | Z0 => inject_Z (Zpos m)
               | Zpos k => inject_Z (Zpos m * 2 ^ Zpos k)
               | Zneg k => Qmake (Zpos m) (2 ^ k)%positive
               end in
      if s then Qopp v else v
  | _ => 0%Q
  end.

(** ** Python strings *)

(** [str.lower] on one code point below 256: [A-Z], [U+00C0-U+00D6] and
    [U+00D8-U+00DE] move up by 32, every other code point is unchanged. *)
Definition lower_char (c : ascii) : ascii :=
  let n := N_of_ascii c in
  if (((65 <=? n) && (n <=? 90)) || ((192 <=? n) && (n <=? 214))
      || ((216 <=? n) && (n <=? 222)))%N
  then ascii_of_N (n + 32) else c.

Fixpoint lower (s : string) : string :=
  match s with
  | EmptyString => EmptyString
  | String c s' => String (lower_char c) (lower s')
  end.

(** [needle in haystack]: the substring test. *)
Fixpoint contains (needle haystack : string) : bool :=
  String.prefix needle haystack ||
  match haystack with
  | EmptyString => false
  | String _ rest => contains needle rest
  end.

End Py.

(** ** Data models *)

Record Coordinates : Type := { lat : Py.float; lon : Py.float }.

Record Hospital : Type := {
  id : string;
  name : string;
  address : string;
  contact_number : string;
  coordinates : Coordinates
}.

(** The field [name] of the source is [contact_name] here: [name] is taken
    by [Hospital]. *)
Record EmergencyContact : Type := { contact_name : string; phone : string }.

Record MedicalHistory : Type := {
  allergies : list string;
  conditions : list string;
  medications : list string
}.

Record HospitalAvailability : Type := { available : bool; wait_time : Z }.

Record TrafficAnalysis : Type := { travel_time : Z; distance_km : Py.float }.

(** The values [symptom_severity] takes: ["unknown"] from the constructor,
    ["critical"] and ["moderate"] from the triage. *)
Inductive Severity : Type := unknown | critical | moderate.

Definition Severity_eqb (a b : Severity) : bool :=
  match a, b with
  | unknown, unknown | critical, critical | moderate, moderate => true
  | _, _ => false
  end.

(** One entry of [ranked_hospitals]: the dict with the keys ["hospital"],
    ["travel_time"] and ["score"]. *)
Record Ranked : Type := {
  ranked_hospital : Hospital;
  ranked_travel_time : Z;
  score : Py.float
}.

(** What one iteration of the selection loop sees: the hospital visited and
    the answers of [_check_hospital_availability] and [_analyze_traffic] for
    it. Both draw from [random] in the source. *)
Record Probe : Type := {
  hospital : Hospital;
  availability : HospitalAvailability;
  traffic : TrafficAnalysis
}.

(** ** Configuration *)

Module Config.

Definition hosp_a : Hospital := {|
  id := "hosp_a";
  name := "City General Hospital";
  address := "123 Main St, Anytown";
  contact_number := "+11234567890";
  coordinates := {| lat := S754_finite false 4792421100973300 (-47);
                    lon := S754_finite true 8320660675920449 (-46) |}
|}.

Definition hosp_b : Hospital := {|
  id := "hosp_b";
  name := "Community Care Center";
  address := "456 Oak Ave, Anytown";
  contact_number := "+11234567891";
  coordinates := {| lat := S754_finite false 4793518853382472 (-47);
                    lon := S754_finite true 8321103999008768 (-46) |}
|}.

Definition PRESELECTED_HOSPITALS : list Hospital := [hosp_a; hosp_b].

Definition EMERGENCY_CONTACTS : list EmergencyContact :=
  [ {| contact_name := "Family Member"; phone := "+19876543210" |};
    {| contact_name := "Close Friend"; phone := "+19998887777" |} ].

End Config.

(** ** The world a run acts on *)

Inductive LogRecord : Type :=
| Initiating                                  (* "Initiating emergency protocol..." *)
| Listening                                   (* "Listening for voice command..." *)
| CheckingTriggers                            (* "Checking emergency triggers..." *)
| NoEmergencyDetected                         (* warning: "No emergency detected" *)
| Analyzing (description : string)            (* "Analyzing symptoms: ..." *)
| CriticalCondition                           (* warning: "CRITICAL CONDITION - ..." *)
| Evaluating                                  (* "Evaluating hospital options..." *)
| CheckingAvailability (h : Hospital)         (* "Checking availability for ..." *)
| AnalyzingTraffic (h : Hospital)             (* "Analyzing traffic to ..." *)
| NoAvailableHospital                         (* error: "No available hospitals found" *)
| SendingAlert (h : Hospital)                 (* "Sending alert to ..." *)
| Notifying (c : EmergencyContact)            (* "Notifying ... at ..." *)
| Completed (h : Hospital).                   (* "Emergency protocol completed with ..." *)

Record World : Type := {
  current_symptoms : string;
  symptom_severity : Severity;
  log : list LogRecord
}.

(** A method: it reads and updates the world and returns or raises. *)
Definition M (A : Type) : Type := World -> result A * World.

Definition ret {A} (a : A) : M A := fun w => (Ok a, w).

Definition raise {A} (e : exn) : M A := fun w => (Raise e, w).

Definition bind {A B} (m : M A) (k : A -> M B) : M B :=
  fun w => match m w with
           | (Ok a, w') => k a w'
           | (Raise e, w') => (Raise e, w')
           end.

Definition lift {A} (r : result A) : M A := fun w => (r, w).

Declare Scope m_scope.
Delimit Scope m_scope with m.
Notation "x <- m ;; k" := (bind m (fun x => k))
  (at level 61, m at next level, right associativity) : m_scope.
Notation "m ;; k" := (bind m (fun _ => k))
  (at level 61, right associativity) : m_scope.
Local Open Scope m_scope.

Definition logger (r : LogRecord) : M unit :=
  fun w => (Ok tt, {| current_symptoms := current_symptoms w;
                      symptom_severity := symptom_severity w;
                      log := (log w ++ [r])%list |}).

Definition set_symptoms (summary : string) (sev : Severity) : M unit :=
  fun w => (Ok tt, {| current_symptoms := summary;
                      symptom_severity := sev;
                      log := log w |}).

Definition get_severity : M Severity := fun w => (Ok (symptom_severity w), w).

(** The state the constructor leaves; the log is read from there on. *)
Definition init : World :=
  {| current_symptoms := ""; symptom_severity := unknown; log := [] |}.

(** ** The simulated sources *)

(** The answers the sources give in one run. In the source the voice command
    is the canned sentence below, the trigger is [True] with weight 0.1, a
    hospital is available with weight 0.8, its wait time is
    [random.randint(5, 60)] and its travel time is
    [int(distance * random.uniform(2, 5))]; here they are any values of their
    types. *)
Record Simulated : Type := {
  voice_command : string;
  emergency_trigger : bool;
  probes : list Probe
}.

(** The sentence [_listen_for_voice_command] returns in the source. *)
Definition canned_voice_command : string :=
  "I feel a sharp pain in my chest and my arm is numb.".

Definition listen_for_voice_command (sim : Simulated) : M string :=
  logger Listening ;; ret (voice_command sim).

Definition detect_emergency_trigger (sim : Simulated) : M bool :=
  logger CheckingTriggers ;; ret (emergency_trigger sim).

Definition check_hospital_availability (p : Probe) : M HospitalAvailability :=
  logger (CheckingAvailability (hospital p)) ;; ret (availability p).

Definition analyze_traffic (p : Probe) : M TrafficAnalysis :=
  logger (AnalyzingTraffic (hospital p)) ;; ret (traffic p).

(** ** Symptom analysis *)

(** The value [_analyze_symptoms] returns: the three rules, in order. *)
Definition classify (description : string) : string * Severity :=
  let description := Py.lower description in
  if Py.contains "chest pain" description
     && (Py.contains "arm" description || Py.contains "left" description)
  then ("Severe chest pain, arm numbness", critical)
  else if Py.contains "difficulty breathing" description
  then ("Difficulty breathing", critical)
  else (description, moderate).

Definition analyze_symptoms (description : string) : M (string * Severity) :=
  logger (Analyzing description) ;;
  ret (classify description).

(** ** Hospital coordination *)

(** [0.7 * (1 / travel_time) + 0.3 * (1 / wait_time)] *)
Definition composite_score (travel_time wait_time : Z) : result Py.float :=
  match Py.int_true_div 1 travel_time with
  | Raise e => Raise e
  | Ok it =>
      match Py.int_true_div 1 wait_time with
      | Raise e => Raise e
      | Ok iw => Ok (Py.add (Py.mul Py.f0_7 it) (Py.mul Py.f0_3 iw))
      end
  end.

(** The two guards against a zero denominator. *)
Definition avoid_zero (t : Z) : Z := if t =? 0 then 1 else t.

(** The body of the loop on one hospital: the new [ranked_hospitals]. *)
Definition visit (p : Probe) (ranked_hospitals : list Ranked) : M (list Ranked) :=
  availability <- check_hospital_availability p ;;
  traffic <- analyze_traffic p ;;
  if available availability then
    let travel_time := avoid_zero (travel_time traffic) in
    let wait_time := avoid_zero (wait_time availability) in
    s <- lift (composite_score travel_time wait_time) ;;
    ret (ranked_hospitals ++ [ {| ranked_hospital := hospital p;
                                  ranked_travel_time := travel_time;
                                  score := s |} ])%list
  else ret ranked_hospitals.

Fixpoint visit_all (ps : list Probe) (ranked_hospitals : list Ranked)
  : M (list Ranked) :=
  match ps with
  | [] => ret ranked_hospitals
  | p :: ps' => r <- visit p ranked_hospitals ;; visit_all ps' r
  end.

(** [sorted(..., key=lambda x: x['score'], reverse=True)]: the stable sort by
    decreasing score, which compares keys with [<] only. An entry goes in
    front of the first entry that is not greater than it, so entries of equal
    score keep the order they had. *)
Fixpoint insert_by_score (x : Ranked) (l : list Ranked) : list Ranked :=
  match l with
  | [] => [x]
  | y :: l' => if Py.lt (score x) (score y) then y :: insert_by_score x l'
               else x :: l
  end.

Definition sorted_by_score_reverse (l : list Ranked) : list Ranked :=
  fold_right insert_by_score [] l.

Definition select_optimal_hospital (ps : list Probe) : M (option Hospital) :=
  logger Evaluating ;;
  ranked_hospitals <- visit_all ps [] ;;
  match ranked_hospitals with
  | [] => ret None
  | _ =>
      match sorted_by_score_reverse ranked_hospitals with
      | [] => raise IndexError
      | best :: _ => ret (Some (ranked_hospital best))
      end
  end.

(** ** Notification system *)

(** The message the source formats from the patient's data is bound to a
    local name and dropped: the log record is all the call leaves. *)
Definition send_emergency_alert (h : Hospital) : M unit :=
  logger (SendingAlert h).

Fixpoint notify_contacts (contacts : list EmergencyContact) : M unit :=
  match contacts with
  | [] => ret tt
  | c :: cs => logger (Notifying c) ;; notify_contacts cs
  end.

(** ** Main protocol *)

(** [not voice_input]: a string is false exactly when it is empty. *)
Definition str_is_empty (s : string) : bool :=
  match s with EmptyString => true | _ => false end.

Definition execute_emergency_protocol
  (contacts : list EmergencyContact) (sim : Simulated) : M unit :=
  logger Initiating ;;
  voice_input <- listen_for_voice_command sim ;;
  auto_detected <- detect_emergency_trigger sim ;;
  if str_is_empty voice_input && negb auto_detected then
    logger NoEmergencyDetected
  else
    sa <- analyze_symptoms voice_input ;;
    set_symptoms (fst sa) (snd sa) ;;
    sev <- get_severity ;;
    if Severity_eqb sev critical then
      logger CriticalCondition ;;
      notify_contacts contacts
    else
      best_hospital <- select_optimal_hospital (probes sim) ;;
      match best_hospital with
      | None =>
          logger NoAvailableHospital ;;
          notify_contacts contacts
      | Some h =>
          send_emergency_alert h ;;
          notify_contacts contacts ;;
          logger (Completed h)
      end.

(** ** Reading a log *)

(** The contacts notified, in the order of the calls. *)
Fixpoint notified (l : list LogRecord) : list EmergencyContact :=
  match l with
  | [] => []
  | Notifying c :: l' => c :: notified l'
  | _ :: l' => notified l'
  end.

(** The hospitals alerted, in the order of the calls. *)
Fixpoint alerted (l : list LogRecord) : list Hospital :=
  match l with
  | [] => []
  | SendingAlert h :: l' => h :: alerted l'
  | _ :: l' => alerted l'
  end.

(** The records only the hospital selection writes. *)
Definition is_selection_record (r : LogRecord) : bool :=
  match r with
  | Evaluating | CheckingAvailability _ | AnalyzingTraffic _ => true
  | _ => false
  end.

Definition selection_records (l : list LogRecord) : list LogRecord :=
  filter is_selection_record l.

(** ** The candidates of a run, read off the probes *)

(** The probes that pass the availability check, in list order. *)
Definition candidates (ps : list Probe) : list Probe :=
  filter (fun p => available (availability p)) ps.

(** The score of a probe, when its computation returns. *)
Definition probe_score (p : Probe) : result Py.float :=
  composite_score (avoid_zero (travel_time (traffic p)))
                  (avoid_zero (wait_time (availability p))).


(** The computed part of an entry of [ranked_hospitals]. *)
Definition reciprocal (n : Z) : Py.float :=
  SF64div (Py.exact_of_int 1) (Py.exact_of_int n).

Definition travel_term (n : Z) : Py.float := Py.mul Py.f0_7 (reciprocal n).

Definition wait_term (n : Z) : Py.float := Py.mul Py.f0_3 (reciprocal n).

(** The float [composite_score] returns on two denominators that are not 0. *)
Definition score_value (travel_time wait_time : Z) : Py.float :=
  Py.add (travel_term travel_time) (wait_term wait_time).

Definition score_of_probe (p : Probe) : Py.float :=
  score_value (avoid_zero (travel_time (traffic p)))
              (avoid_zero (wait_time (availability p))).

(** The entry the loop appends for an available hospital. *)
Definition entry_of (p : Probe) : Ranked :=
  {| ranked_hospital := hospital p;
     ranked_travel_time := avoid_zero (travel_time (traffic p));
     score := score_of_probe p |}.

Definition ranking (ps : list Probe) : list Ranked := map entry_of (candidates ps).

(** The records the loop writes: two per hospital visited. *)
Definition probe_log (ps : list Probe) : list LogRecord :=
  flat_map (fun p => [CheckingAvailability (hospital p); AnalyzingTraffic (hospital p)]) ps.

Definition log_more (w : World) (rs : list LogRecord) : World :=
  {| current_symptoms := current_symptoms w;
     symptom_severity := symptom_severity w;
     log := (log w ++ rs)%list |}.

(** The head of the sorted list, computed without sorting: going from the
    right, an entry replaces the best so far unless it is smaller. *)
Fixpoint first_best (l : list Ranked) : option Ranked :=
  match l with
  | [] => None
  | x :: l' =>
      match first_best l' with
      | None => Some x
      | Some h => if Py.lt (score x) (score h) then Some h else Some x
      end
  end.

(** A keyword (given in lower case) occurs in a description in some letter
    case: a piece of the description lower-cases to the keyword. *)
Definition occurs_ignoring_case (keyword description : string) : Prop :=
  exists pre mid post : string,
    description = (pre ++ mid ++ post)%string /\ Py.lower mid = keyword.

(** The two tests of the triage rules on the lower-cased description. *)
Definition rule1 (description : string) : bool :=
  Py.contains "chest pain" (Py.lower description)
  && (Py.contains "arm" (Py.lower description)
      || Py.contains "left" (Py.lower description)).

Definition rule2 (description : string) : bool :=
  Py.contains "difficulty breathing" (Py.lower description).

(** ** Sizes of binary64 values *)

(** A zero of sign [s], or a finite float of sign [s] in canonical form. *)
Definition canon_finite (s : bool) (x : spec_float) : Prop :=
  match x with
  | S754_zero s' => s' = s
  | S754_finite s' m e => s' = s /\ e = fexp prec emax (Zdigits2 (Zpos m) + e)
  | _ => False
  end.

(** A zero or a finite float of absolute value at most [2^K]. *)
Definition le_pow2 (K : Z) (x : spec_float) : Prop :=
  match x with
  | S754_zero _ => True
  | S754_finite _ m e => e <= K /\ Zpos m <= 2 ^ (K - e)
  | _ => False
  end.

(** A finite float of absolute value at least [2^(J-1)]. *)
Definition ge_mag (J : Z) (x : spec_float) : Prop :=
  match x with
  | S754_finite _ m e => J <= Zdigits2 (Zpos m) + e
  | _ => False
  end.

(** ** Concrete runs used as examples *)

Definition probe_of (h : Hospital) (a : bool) (travel wait : Z) : Probe :=
  {| hospital := h;
     availability := {| available := a; wait_time := wait |};
     traffic := {| travel_time := travel; distance_km := Py.f0_0 |} |}.

Definition sim_of (voice : string) (trigger : bool) (ps : list Probe) : Simulated :=
  {| voice_command := voice; emergency_trigger := trigger; probes := ps |}.

(** ** The order on binary64 values *)

(** The place of a float that is not a NaN in the order: a class (the sign
    and whether it is infinite), then the exponent, then the mantissa. *)
Definition order_key (x : spec_float) : Z * Z * Z :=
  match x with
  | S754_zero _ => (0, 0, 0)
  | S754_infinity false => (2, 0, 0)
  | S754_infinity true => (-2, 0, 0)
  | S754_nan => (0, 0, 0)
  | S754_finite false m e => (1, e, Zpos m)
  | S754_finite true m e => (-1, - e, - Zpos m)
  end.

Definition key_lt (a b : Z * Z * Z) : Prop :=
  let '(a1, a2, a3) := a in
  let '(b1, b2, b3) := b in
  a1 < b1 \/ (a1 = b1 /\ (a2 < b2 \/ (a2 = b2 /\ a3 < b3))).

(** ** Sorted lists of entries *)

(** No score is a NaN. *)
Definition no_nan (l : list Ranked) : Prop := Forall (fun r => score r <> S754_nan) l.

(** No entry is followed by an entry of greater score. *)
Definition descending (l : list Ranked) : Prop :=
  StronglySorted (fun a b => Py.lt (score a) (score b) = false) l.

(** ** Rounding, seen from the exact value *)

(** What a shift record keeps of the value it stands for: four times the
    mantissa, plus 2 for the round bit and 1 for the sticky bit. *)
Definition code (r : shr_record) : Z :=
  4 * shr_m r + (if shr_r r then 2 else 0) + (if shr_s r then 1 else 0).

(** The code of a quotient [A / B] that is twice the value in units of the
    last place: twice its integer part, plus 1 when the division is not
    exact. *)
Definition tcode (A B : Z) : Z := 2 * (A / B) + (if A mod B =? 0 then 0 else 1).

(** The code after one more shift to the right. *)
Definition halve (t : Z) : Z := 2 * (t / 4) + (if t mod 4 =? 0 then 0 else 1).

(** Rounding to nearest, ties to even, on a code. *)
Definition rne (t : Z) : Z :=
  t / 4 + (if (t mod 4 =? 3) || ((t mod 4 =? 2) && Z.odd (t / 4)) then 1 else 0).

(** The float of a rounded mantissa [M] in [0, 2^53] at the exponent [ec]:
    a mantissa of [2^53] moves to the next exponent. *)
Definition carry (M ec : Z) : spec_float :=
  match M with
  | Zpos p =>
      if M =? 2 ^ 53 then S754_finite false (Z.to_pos (2 ^ 52)) (ec + 1)
      else S754_finite false p ec
  | _ => S754_zero false
  end.

(** The value of a non-negative float, in units of [2^(-b)]. *)
Definition scaled (b : Z) (x : spec_float) : Z :=
  match x with
  | S754_finite false m e => Zpos m * 2 ^ (e + b)
  | _ => 0
  end.

(** [r] is the rounding of the exact value [V * 2^(-b)]. *)
Definition rounds (b V : Z) (r : spec_float) : Prop :=
  exists m e,
    0 <= m /\ e <= fexp prec emax (Zdigits2 m + e) /\ Zdigits2 m + e <= 1023 /\
    0 <= e - 1 + b /\ m * 2 ^ (e + b) = V /\
    r = binary_round_aux prec emax false m e loc_Exact.

(** ** The travel time of [_analyze_traffic] *)

(** What [int(x)] does on a float: it returns the integer part, towards
    zero, raises [OverflowError] on an infinity and [ValueError] on a NaN. *)
Inductive conversion : Type :=
| Converted (n : Z)
| RaisesOverflowError
| RaisesValueError.

Definition int_of_float (x : Py.float) : conversion :=
  match x with
  | S754_zero _ => Converted 0
  | S754_finite s m e =>
      let a := match e with
               | Z0 => Zpos m
               | Zpos _ => Zpos m * 2 ^ e
               | Zneg k => Zpos m / 2 ^ Zpos k
               end in
      Converted (if s then - a else a)
  | S754_infinity _ => RaisesOverflowError
  | S754_nan => RaisesValueError
  end.

(** The bounds [2] and [5] of [random.uniform(2, 5)], as floats. *)
Definition f2_0 : Py.float := S754_finite false 4503599627370496 (-51).
Definition f5_0 : Py.float := S754_finite false 5629499534213120 (-50).

(** [int(distance * random.uniform(2, 5))]: the travel time, from the
    distance the method has computed (with [**], which is the platform's
    [pow]: an input here) and the factor that was drawn. *)
Definition travel_time_of (distance factor : Py.float) : conversion :=
  int_of_float (Py.mul distance factor).

(** ** The prompt of [mainagent.py] *)

(** [", ".join(USER_INFO.get("conditions", [])) or "None"]: the line of known
    conditions in the prompt. [USER_INFO] comes from a module that is not in
    the repository's sources; its entry ["conditions"] is [None] here when the
    key is missing. *)
Definition conditions_line (conditions : option (list string)) : string :=
  let joined :=
    String.concat ", " (match conditions with Some l => l | None => [] end) in
  if str_is_empty joined then "None" else joined.

(** ** Proof steps for the methods *)

(** Running the plumbing of a method: binds, returns and log writes. *)
Ltac run_monad :=
  cbv [bind ret lift raise logger set_symptoms get_severity];
  cbn [log current_symptoms symptom_severity fst snd].

(** Putting a log back in the shape [log w ++ records]. *)
Ltac tidy_log :=
  unfold log_more; cbn [log current_symptoms symptom_severity fst snd];
  rewrite <- ?app_assoc; cbn [app]; rewrite <- ?app_assoc; cbn [app].

(** * Binary64 arithmetic: what rounding keeps *)

Lemma fexp64_eq x : fexp prec emax x = Z.max (x - 53) (-1074).
Proof. reflexivity. Qed.

Lemma digits2_pos_size p : digits2_pos p = Pos.size p.
Proof. induction p; simpl; congruence. Qed.

Lemma Zdigits2_log2 m : 0 < m -> Zdigits2 m = Z.log2 m + 1.
Proof.
  destruct m as [|p|p]; try lia. intros _. simpl.
  rewrite digits2_pos_size. destruct p; simpl; lia.
Qed.

Lemma Zdigits2_0 : Zdigits2 0 = 0.
Proof. reflexivity. Qed.

Lemma Zdigits2_bounds m :
  0 < m -> 1 <= Zdigits2 m /\ 2 ^ (Zdigits2 m - 1) <= m < 2 ^ Zdigits2 m.
Proof.
  intros H. rewrite (Zdigits2_log2 m H).
  pose proof (Z.log2_nonneg m). pose proof (Z.log2_spec m H).
  replace (Z.log2 m + 1 - 1) with (Z.log2 m) by lia.
  replace (Z.log2 m + 1) with (Z.succ (Z.log2 m)) by lia. lia.
Qed.

Lemma Zdigits2_nonneg m : 0 <= m -> 0 <= Zdigits2 m.
Proof.
  intros H. destruct (Z.eq_dec m 0) as [->|]; [simpl; lia|].
  pose proof (Zdigits2_bounds m). lia.
Qed.

Lemma Zdigits2_unique m d :
  2 ^ (d - 1) <= m < 2 ^ d -> 0 < d -> Zdigits2 m = d.
Proof.
  intros H Hd.
  assert (0 < m) by (pose proof (Z.pow_pos_nonneg 2 (d - 1)); lia).
  rewrite Zdigits2_log2 by assumption.
  rewrite (Z.log2_unique m (d - 1)); try lia.
  replace (Z.succ (d - 1)) with d by lia. lia.
Qed.

(** [m < 2^k] bounds the number of digits by [k]. *)
Lemma Zdigits2_le m k : 0 <= m -> 0 <= k -> m < 2 ^ k -> Zdigits2 m <= k.
Proof.
  intros Hm Hk H. destruct (Z.eq_dec m 0) as [->|]; [simpl; lia|].
  destruct (Zdigits2_bounds m) as (H1 & H2 & H3); [lia|].
  destruct (Z_le_gt_dec (Zdigits2 m) k); [assumption|].
  assert (2 ^ k <= 2 ^ (Zdigits2 m - 1)) by (apply Z.pow_le_mono_r; lia). lia.
Qed.

Lemma Zdigits2_ge m k : 0 <= k -> 2 ^ k <= m -> k + 1 <= Zdigits2 m.
Proof.
  intros Hk H.
  assert (0 < m) by (pose proof (Z.pow_pos_nonneg 2 k); lia).
  destruct (Zdigits2_bounds m) as (H1 & H2 & H3); [lia|].
  destruct (Z_le_gt_dec (k + 1) (Zdigits2 m)); [assumption|].
  assert (2 ^ Zdigits2 m <= 2 ^ k) by (apply Z.pow_le_mono_r; lia). lia.
Qed.

Lemma Zdigits2_mono a b : 0 <= a <= b -> Zdigits2 a <= Zdigits2 b.
Proof.
  intros H. destruct (Z.eq_dec a 0) as [->|].
  - apply Zdigits2_nonneg; lia.
  - destruct (Zdigits2_bounds a) as (H1 & H2 & H3); [lia|].
    pose proof (Zdigits2_ge b (Zdigits2 a - 1)). lia.
Qed.

(** Dropping [k] low bits drops [k] digits. *)
Lemma Zdigits2_div_pow2 m k :
  0 <= k -> 2 ^ k <= m -> Zdigits2 (m / 2 ^ k) = Zdigits2 m - k.
Proof.
  intros Hk H.
  assert (Hp : 0 < 2 ^ k) by (apply Z.pow_pos_nonneg; lia).
  assert (Hm : 0 < m) by lia.
  destruct (Zdigits2_bounds m Hm) as (H1 & H2 & H3).
  pose proof (Zdigits2_ge m k Hk H) as Hd.
  apply Zdigits2_unique; [|lia].
  split.
  - apply Z.div_le_lower_bound; [lia|].
    rewrite <- Z.pow_add_r by lia. replace (k + (Zdigits2 m - k - 1)) with (Zdigits2 m - 1) by lia. lia.
  - apply Z.div_lt_upper_bound; [lia|].
    rewrite <- Z.pow_add_r by lia. replace (k + (Zdigits2 m - k)) with (Zdigits2 m) by lia. lia.
Qed.

Lemma div_pow2_zero m k : 0 <= m -> 0 <= k -> m / 2 ^ k = 0 -> m < 2 ^ k.
Proof.
  intros Hm Hk H.
  assert (Hp : 0 < 2 ^ k) by (apply Z.pow_pos_nonneg; lia).
  destruct (Z_lt_ge_dec m (2 ^ k)); [assumption|].
  assert (1 <= m / 2 ^ k) by (apply Z.div_le_lower_bound; lia). lia.
Qed.

(** ** Shifting right *)

Lemma shr_1_m mrs : 0 <= shr_m mrs -> shr_m (shr_1 mrs) = shr_m mrs / 2.
Proof.
  destruct mrs as [m r s]. simpl. intros H.
  destruct m as [|[p|p|]|p]; simpl; try lia; try reflexivity.
  - apply Z.div_unique with (r := 1); lia.
  - apply Z.div_unique with (r := 0); lia.
Qed.

Lemma shr_1_nonneg mrs : 0 <= shr_m mrs -> 0 <= shr_m (shr_1 mrs).
Proof.
  intros H. rewrite shr_1_m by assumption. apply Z.div_pos; lia.
Qed.

Lemma pow2_xO p : 2 ^ Zpos p~0 = 2 ^ Zpos p * 2 ^ Zpos p.
Proof. rewrite <- Z.pow_add_r by lia. f_equal. lia. Qed.

Lemma pow2_xI p : 2 ^ Zpos p~1 = 2 * (2 ^ Zpos p * 2 ^ Zpos p).
Proof.
  rewrite <- Z.pow_add_r by lia. rewrite <- Z.pow_succ_r by lia. f_equal. lia.
Qed.

Lemma iter_pos_shr_1 p : forall mrs,
  0 <= shr_m mrs ->
  shr_m (SpecFloat.iter_pos shr_1 p mrs) = shr_m mrs / 2 ^ Zpos p.
Proof.
  induction p as [p IH|p IH|]; intros mrs H; simpl SpecFloat.iter_pos.
  - assert (Hp : 0 < 2 ^ Zpos p) by (apply Z.pow_pos_nonneg; lia).
    assert (H1 := shr_1_nonneg _ H).
    assert (H2 : 0 <= shr_m (SpecFloat.iter_pos shr_1 p (shr_1 mrs))).
    { rewrite IH by assumption. apply Z.div_pos; lia. }
    rewrite IH by assumption. rewrite IH by assumption. rewrite shr_1_m by assumption.
    rewrite pow2_xI. rewrite !Z.div_div by lia. reflexivity.
  - assert (Hp : 0 < 2 ^ Zpos p) by (apply Z.pow_pos_nonneg; lia).
    assert (H2 : 0 <= shr_m (SpecFloat.iter_pos shr_1 p mrs)).
    { rewrite IH by assumption. apply Z.div_pos; lia. }
    rewrite IH by assumption. rewrite IH by assumption.
    rewrite pow2_xO. rewrite !Z.div_div by lia. reflexivity.
  - rewrite shr_1_m by assumption. reflexivity.
Qed.

Lemma shr_spec mrs e n :
  0 <= shr_m mrs -> 0 <= n ->
  shr_m (fst (shr mrs e n)) = shr_m mrs / 2 ^ n /\ snd (shr mrs e n) = e + n.
Proof.
  intros H Hn. destruct n as [|p|p]; simpl; try lia.
  - rewrite Z.div_1_r. lia.
  - rewrite iter_pos_shr_1 by assumption. split; reflexivity.
Qed.

Lemma shr_m_of_loc m l : shr_m (shr_record_of_loc m l) = m.
Proof. destruct l as [|[]]; reflexivity. Qed.

Lemma round_nearest_even_bounds m l :
  m <= round_nearest_even m l <= m + 1.
Proof.
  destruct l as [|[]]; simpl; try lia. destruct (Z.even m); lia.
Qed.

Lemma Zdigits2_succ_le m : 0 <= m -> Zdigits2 (m + 1) <= Zdigits2 m + 1.
Proof.
  intros H. destruct (Z.eq_dec m 0) as [->|]; [simpl; lia|].
  destruct (Zdigits2_bounds m) as (H1 & H2 & H3); [lia|].
  apply Zdigits2_le; try lia.
  rewrite Z.pow_add_r by lia. lia.
Qed.

Lemma Zdigits2_carry m m' :
  0 < m -> m <= m' <= m + 1 -> Zdigits2 m' = Zdigits2 m + 1 ->
  m' = 2 ^ Zdigits2 m.
Proof.
  intros Hm Hb Hd.
  destruct (Zdigits2_bounds m Hm) as (H1 & H2 & H3).
  destruct (Zdigits2_bounds m') as (H1' & H2' & H3'); [lia|].
  rewrite Hd in H2'. replace (Zdigits2 m + 1 - 1) with (Zdigits2 m) in H2' by lia. lia.
Qed.

Lemma pow2_div_pow2 a b : 0 <= b <= a -> 2 ^ a / 2 ^ b = 2 ^ (a - b).
Proof.
  intros H. replace a with ((a - b) + b) at 1 by lia.
  rewrite Z.pow_add_r by lia. apply Z.div_mul.
  assert (0 < 2 ^ b) by (apply Z.pow_pos_nonneg; lia). lia.
Qed.

Lemma binary_round_aux_spec s m e l :
  0 <= m -> e <= fexp prec emax (Zdigits2 m + e) ->
  match binary_round_aux prec emax s m e l with
  | S754_zero s' => s' = s /\ Zdigits2 m + e <= -1074
  | S754_finite s' m' e' =>
      s' = s /\ e' = fexp prec emax (Zdigits2 (Zpos m') + e') /\
      Zdigits2 m + e <= Zdigits2 (Zpos m') + e' /\
      Zdigits2 (Zpos m') + e' <= Z.max (Zdigits2 m + e) (-1074) + 1 /\
      (Zdigits2 (Zpos m') + e' = Z.max (Zdigits2 m + e) (-1074) + 1 ->
       Zpos m' = 2 ^ (Zdigits2 (Zpos m') - 1)) /\
      e' <= 971
  | S754_infinity s' => s' = s /\ 1024 <= Zdigits2 m + e
  | S754_nan => False
  end.
Proof.
  intros Hm Hk.
  unfold binary_round_aux, shr_fexp.
  set (D := Zdigits2 m + e) in *.
  assert (Hdm := Zdigits2_nonneg m Hm).
  (* first shift *)
  destruct (shr_spec (shr_record_of_loc m l) e (fexp prec emax D - e)) as [E1 E2];
    [rewrite shr_m_of_loc; lia | lia |].
  destruct (shr (shr_record_of_loc m l) e (fexp prec emax D - e)) as [mrs1 e1].
  simpl in E1, E2. rewrite shr_m_of_loc in E1.
  set (k1 := fexp prec emax D - e) in *.
  assert (Hk1 : 0 <= k1) by (unfold k1; lia).
  assert (Hp1 : 0 < 2 ^ k1) by (apply Z.pow_pos_nonneg; lia).
  set (m1 := shr_m mrs1) in *.
  assert (Hm1 : 0 <= m1) by (rewrite E1; apply Z.div_pos; lia).
  assert (He1 : e1 = fexp prec emax D) by (unfold k1 in E2; lia).
  pose proof (round_nearest_even_bounds m1 (loc_of_shr_record mrs1)) as Hr.
  set (m1r := round_nearest_even m1 (loc_of_shr_record mrs1)) in *.
  assert (Hdr := Zdigits2_nonneg m1r ltac:(lia)).
  (* what the first shift leaves *)
  assert (Hcase : (m1 = 0 /\ D <= -1074 /\ e1 = -1074) \/
                  (0 < m1 /\ Zdigits2 m1 + e1 = D /\ -1074 < D)).
  { destruct (Z.eq_dec m1 0) as [Z0|NZ].
    - left. split; [assumption|].
      assert (m < 2 ^ k1) by (apply div_pow2_zero; lia).
      assert (Zdigits2 m <= k1) by (apply Zdigits2_le; lia).
      rewrite fexp64_eq in *. unfold k1, D in *. rewrite fexp64_eq in *. lia.
    - right. split; [lia|].
      assert (2 ^ k1 <= m).
      { destruct (Z_lt_ge_dec m (2 ^ k1)); [|lia].
        rewrite Z.div_small in E1 by lia. lia. }
      assert (Zdigits2 m1 = Zdigits2 m - k1) by (rewrite E1; apply Zdigits2_div_pow2; lia).
      assert (k1 + 1 <= Zdigits2 m) by (apply Zdigits2_ge; lia).
      rewrite fexp64_eq in *. unfold k1, D in *. rewrite fexp64_eq in *. lia. }
  assert (Hmono : Zdigits2 m1 <= Zdigits2 m1r) by (apply Zdigits2_mono; lia).
  assert (Hsucc : Zdigits2 m1r <= Zdigits2 m1 + 1).
  { etransitivity; [apply Zdigits2_mono with (b := m1 + 1); lia|].
    apply Zdigits2_succ_le; lia. }
  set (D1r := Zdigits2 m1r + e1) in *.
  assert (Hk2 : 0 <= fexp prec emax D1r - e1).
  { rewrite fexp64_eq in *. unfold D1r. destruct Hcase as [(?&?&?)|(?&?&?)]; lia. }
  (* second shift *)
  destruct (shr_spec (shr_record_of_loc m1r loc_Exact) e1 (fexp prec emax D1r - e1))
    as [F1 F2]; [simpl; lia | lia |].
  destruct (shr (shr_record_of_loc m1r loc_Exact) e1 (fexp prec emax D1r - e1))
    as [mrs2 e2].
  simpl in F1, F2.
  set (k2 := fexp prec emax D1r - e1) in *.
  assert (Hp2 : 0 < 2 ^ k2) by (apply Z.pow_pos_nonneg; lia).
  assert (He2 : e2 = fexp prec emax D1r) by (unfold k2 in F2; lia).
  assert (Hm2 : 0 <= shr_m mrs2) by (rewrite F1; apply Z.div_pos; lia).
  destruct (shr_m mrs2) as [|p|p] eqn:Em2; [| |lia].
  - (* the result is a zero *)
    split; [reflexivity|].
    assert (m1r < 2 ^ k2) by (apply div_pow2_zero; lia).
    assert (Zdigits2 m1r <= k2) by (apply Zdigits2_le; lia).
    rewrite fexp64_eq in *. unfold k2, D1r in *. rewrite fexp64_eq in *.
    destruct Hcase as [(?&?&?)|(?&?&?)]; lia.
  - assert (Hge : 2 ^ k2 <= m1r).
    { destruct (Z_lt_ge_dec m1r (2 ^ k2)); [|lia].
      rewrite Z.div_small in F1 by lia. lia. }
    assert (Hd2 : Zdigits2 (Zpos p) = Zdigits2 m1r - k2)
      by (rewrite F1; apply Zdigits2_div_pow2; lia).
    assert (HD2 : Zdigits2 (Zpos p) + e2 = D1r) by (unfold k2, D1r in *; lia).
    assert (Hup : D1r <= Z.max D (-1074) + 1).
    { unfold D1r. destruct Hcase as [(?&?&?)|(?&?&?)]; [|lia].
      assert (Zdigits2 m1r <= 1) by (apply Zdigits2_le; lia). lia. }
    change (emax - prec) with 971.
    destruct (e2 <=? 971) eqn:Ele.
    + apply Z.leb_le in Ele.
      split; [reflexivity|]. split; [rewrite HD2; assumption|].
      split.
      { rewrite HD2. unfold D1r. destruct Hcase as [(?&?&?)|(?&?&?)]; [|lia].
        assert (1 <= Zdigits2 m1r) by (apply (Zdigits2_ge m1r 0); lia). lia. }
      split; [rewrite HD2; assumption|].
      split; [|assumption].
      rewrite HD2. intros Heq.
      destruct Hcase as [(Hz&Hd&He)|(Hpos&Hd&Hgt)].
      * assert (m1r = 1).
        { assert (1 <= m1r); [|lia].
          destruct (Z.eq_dec m1r 0) as [Z0|]; [|lia].
          rewrite Z0 in Hge. lia. }
        assert (k2 = 0).
        { unfold k2, D1r. rewrite fexp64_eq. replace m1r with 1 by lia. simpl Zdigits2. lia. }
        rewrite Hd2. replace m1r with 1 by lia. replace k2 with 0 by lia.
        rewrite F1. replace m1r with 1 by lia. replace k2 with 0 by lia. reflexivity.
      * assert (Zdigits2 m1r = Zdigits2 m1 + 1) by (unfold D1r in *; lia).
        assert (Hc : m1r = 2 ^ Zdigits2 m1) by (apply Zdigits2_carry; lia).
        assert (k2 <= Zdigits2 m1).
        { destruct (Z_le_gt_dec k2 (Zdigits2 m1)); [assumption|].
          assert (2 ^ Zdigits2 m1 < 2 ^ k2) by (apply Z.pow_lt_mono_r; lia). lia. }
        assert (Hq : Zpos p = 2 ^ (Zdigits2 m1 - k2)).
        { rewrite F1, Hc. apply pow2_div_pow2. lia. }
        rewrite Hd2. rewrite Hq. f_equal. lia.
    + apply Z.leb_gt in Ele. split; [reflexivity|].
      rewrite fexp64_eq in *. lia.
Qed.

Lemma round_canon s m e l :
  0 <= m -> e <= fexp prec emax (Zdigits2 m + e) -> Zdigits2 m + e <= 1023 ->
  canon_finite s (binary_round_aux prec emax s m e l).
Proof.
  intros Hm Hp Hd. pose proof (binary_round_aux_spec s m e l Hm Hp) as H.
  destruct (binary_round_aux prec emax s m e l); simpl; try tauto; lia.
Qed.

Lemma round_le K s m e l :
  0 <= m -> e <= fexp prec emax (Zdigits2 m + e) ->
  Zdigits2 m + e <= K -> -1074 <= K <= 1023 ->
  le_pow2 K (binary_round_aux prec emax s m e l).
Proof.
  intros Hm Hp Hd HK. pose proof (binary_round_aux_spec s m e l Hm Hp) as H.
  destruct (binary_round_aux prec emax s m e l) as [s'|s'| |s' m' e']; simpl;
    try tauto; try lia.
  destruct H as (_ & _ & _ & Hup & Hpow & _).
  destruct (Zdigits2_bounds (Zpos m')) as (H1 & H2 & H3); [lia|].
  destruct (Z_le_gt_dec (Zdigits2 (Zpos m') + e') K) as [Hle|Hgt].
  - split; [lia|].
    assert (2 ^ Zdigits2 (Zpos m') <= 2 ^ (K - e')) by (apply Z.pow_le_mono_r; lia). lia.
  - assert (Heq : Zdigits2 (Zpos m') + e' = Z.max (Zdigits2 m + e) (-1074) + 1) by lia.
    split; [lia|]. rewrite (Hpow Heq). apply Z.pow_le_mono_r; lia.
Qed.

Lemma round_ge J s m e l :
  0 <= m -> e <= fexp prec emax (Zdigits2 m + e) ->
  J <= Zdigits2 m + e -> -1074 < Zdigits2 m + e <= 1023 ->
  ge_mag J (binary_round_aux prec emax s m e l).
Proof.
  intros Hm Hp Hd HK. pose proof (binary_round_aux_spec s m e l Hm Hp) as H.
  destruct (binary_round_aux prec emax s m e l) as [s'|s'| |s' m' e'];
    unfold ge_mag; try tauto; lia.
Qed.

(** ** The quotient [1 / n] *)

Lemma div_core_one (p : positive) :
  let '(q, e', l) := SFdiv_core_binary prec emax 1 0 (Zpos p) 0 in
  0 <= q /\ e' = fexp prec emax (1 - Zdigits2 (Zpos p)) /\
  q * Zpos p <= 2 ^ (- e') < (q + 1) * Zpos p.
Proof.
  unfold SFdiv_core_binary.
  change (Zdigits2 1) with 1.
  destruct (Zdigits2_bounds (Zpos p)) as (H1 & H2 & H3); [lia|].
  set (d2 := Zdigits2 (Zpos p)) in *.
  replace (1 + 0 - (d2 + 0)) with (1 - d2) by lia.
  assert (He : Z.min (fexp prec emax (1 - d2)) (0 - 0) = fexp prec emax (1 - d2))
    by (rewrite fexp64_eq; lia).
  rewrite He.
  set (e' := fexp prec emax (1 - d2)) in *.
  assert (Hneg : e' <= -53) by (unfold e'; rewrite fexp64_eq; lia).
  replace (0 - 0 - e') with (- e') by lia.
  destruct (- e') as [|k|k] eqn:Es; try lia.
  rewrite Z.shiftl_1_l.
  pose proof (Z_div_mod (2 ^ Zpos k) (Zpos p) ltac:(lia)) as Hdiv.
  destruct (Z.div_eucl (2 ^ Zpos k) (Zpos p)) as [q r].
  destruct Hdiv as [Hq Hr].
  assert (0 < 2 ^ Zpos k) by (apply Z.pow_pos_nonneg; lia).
  split; [nia|]. split; [reflexivity|]. rewrite Es. nia.
Qed.

Lemma div_core_one_facts (p : positive) :
  let '(q, e', l) := SFdiv_core_binary prec emax 1 0 (Zpos p) 0 in
  0 <= q /\ e' <= fexp prec emax (Zdigits2 q + e') /\
  Zdigits2 q + e' <= 1 /\
  (forall j, 0 <= j <= 53 -> 2 ^ j < Zpos p -> Zdigits2 q + e' <= - j) /\
  (Zdigits2 (Zpos p) <= 1073 -> 1 - Zdigits2 (Zpos p) <= Zdigits2 q + e').
Proof.
  pose proof (div_core_one p) as H.
  destruct (SFdiv_core_binary prec emax 1 0 (Zpos p) 0) as [[q e'] l].
  destruct H as (Hq & He & Hlo & Hhi).
  destruct (Zdigits2_bounds (Zpos p)) as (H1 & H2 & H3); [lia|].
  set (d2 := Zdigits2 (Zpos p)) in *.
  rewrite fexp64_eq in He.
  set (s := - e') in *.
  assert (Hs : 53 <= s) by (unfold s; lia).
  assert (Hps : 0 < 2 ^ s) by (apply Z.pow_pos_nonneg; lia).
  assert (Hdq := Zdigits2_nonneg q Hq).
  split; [assumption|].
  split.
  { rewrite fexp64_eq.
    destruct (Z.eq_dec e' (-1074)) as [E|E]; [lia|].
    assert (Es : s = 52 + d2) by (unfold s; lia).
    assert (2 ^ s = 2 ^ 52 * 2 ^ d2) by (rewrite Es; apply Z.pow_add_r; lia).
    assert (0 < 2 ^ 52) by (apply Z.pow_pos_nonneg; lia).
    assert (2 ^ 52 <= q) by nia.
    pose proof (Zdigits2_ge q 52 ltac:(lia) ltac:(lia)). lia. }
  split.
  { assert (q < 2 ^ (s + 1)).
    { rewrite Z.pow_add_r by lia. nia. }
    pose proof (Zdigits2_le q (s + 1) Hq ltac:(lia) ltac:(assumption)).
    unfold s in *. lia. }
  split.
  { intros j Hj Hjp.
    assert (0 < 2 ^ j) by (apply Z.pow_pos_nonneg; lia).
    assert (2 ^ s = 2 ^ (s - j) * 2 ^ j)
      by (rewrite <- Z.pow_add_r by lia; f_equal; lia).
    assert (0 < 2 ^ (s - j)) by (apply Z.pow_pos_nonneg; lia).
    assert (q < 2 ^ (s - j)) by nia.
    pose proof (Zdigits2_le q (s - j) Hq ltac:(lia) ltac:(assumption)).
    unfold s in *. lia. }
  { intros Hd.
    assert (2 ^ s = 2 ^ (s - d2) * 2 ^ d2)
      by (rewrite <- Z.pow_add_r by lia; f_equal; lia).
    assert (0 < 2 ^ (s - d2)) by (apply Z.pow_pos_nonneg; lia).
    assert (0 < 2 ^ d2) by (apply Z.pow_pos_nonneg; lia).
    assert (2 ^ (s - d2) <= q) by nia.
    pose proof (Zdigits2_ge q (s - d2) ltac:(lia) ltac:(assumption)).
    unfold s in *. lia. }
Qed.

Lemma reciprocal_facts n :
  n <> 0 ->
  canon_finite (n <? 0) (reciprocal n) /\ le_pow2 1 (reciprocal n) /\
  (forall j, 0 <= j <= 53 -> 2 ^ j < Z.abs n -> le_pow2 (- j) (reciprocal n)) /\
  (Zdigits2 n <= 1072 -> ge_mag (1 - Zdigits2 n) (reciprocal n)).
Proof.
  intros Hn.
  assert (exists s p, (n = Zpos p /\ s = false \/ n = Zneg p /\ s = true) /\
            reciprocal n = SF64div (S754_finite false 1 0) (S754_finite s p 0)) as (s & p & Hsp & E).
  { destruct n as [|p|p]; [lia| |]; [exists false, p|exists true, p]; split; auto. }
  assert (Hsign : (n <? 0) = s) by (destruct Hsp as [[-> ->]|[-> ->]]; reflexivity).
  assert (Habs : Z.abs n = Zpos p) by (destruct Hsp as [[-> _]|[-> _]]; reflexivity).
  assert (Hdig : Zdigits2 n = Zdigits2 (Zpos p)) by (destruct Hsp as [[-> _]|[-> _]]; reflexivity).
  rewrite E, Hsign, Habs, Hdig. clear E Hsign Habs Hdig Hsp Hn.
  unfold SF64div, SFdiv.
  pose proof (div_core_one_facts p) as H.
  destruct (SFdiv_core_binary prec emax 1 0 (Zpos p) 0) as [[q e'] l].
  destruct H as (Hq & Hpre & H1 & Hj & Hd).
  replace (xorb false s) with s by (destruct s; reflexivity).
  pose proof (Zdigits2_bounds (Zpos p) ltac:(lia)) as (Hd1 & _ & _).
  split; [apply round_canon; lia|].
  split; [apply round_le; lia|].
  split.
  - intros j Hj1 Hj2. apply round_le; try lia. apply Hj; assumption.
  - intros Hle. apply round_ge; lia.
Qed.

(** ** Products with a 53-bit constant *)

Lemma Zdigits2_mul_bounds a b :
  0 < a -> 0 < b ->
  Zdigits2 a + Zdigits2 b - 1 <= Zdigits2 (a * b) <= Zdigits2 a + Zdigits2 b.
Proof.
  intros Ha Hb.
  destruct (Zdigits2_bounds a Ha) as (A1 & A2 & A3).
  destruct (Zdigits2_bounds b Hb) as (B1 & B2 & B3).
  assert (0 < 2 ^ (Zdigits2 a - 1)) by (apply Z.pow_pos_nonneg; lia).
  assert (0 < 2 ^ (Zdigits2 b - 1)) by (apply Z.pow_pos_nonneg; lia).
  split.
  - pose proof (Zdigits2_ge (a * b) (Zdigits2 a - 1 + (Zdigits2 b - 1)) ltac:(lia)) as H1.
    rewrite Z.pow_add_r in H1 by lia. assert (2 ^ (Zdigits2 a - 1) * 2 ^ (Zdigits2 b - 1) <= a * b) by nia. lia.
  - apply Zdigits2_le; try nia. rewrite Z.pow_add_r by lia. nia.
Qed.

Lemma mul_const_facts (mc : positive) (ec : Z) (s : bool) (K : Z) (y : spec_float) :
  Zdigits2 (Zpos mc) = 53 ->
  canon_finite s y -> le_pow2 K y ->
  -1074 <= K + 53 + ec <= 1023 ->
  canon_finite s (SF64mul (S754_finite false mc ec) y) /\
  le_pow2 (K + 53 + ec) (SF64mul (S754_finite false mc ec) y) /\
  (forall J, ge_mag J y -> -1074 < J + 52 + ec ->
             ge_mag (J + 52 + ec) (SF64mul (S754_finite false mc ec) y)).
Proof.
  intros Hc Hcan Hle HK.
  destruct y as [sy|sy| |sy my ey]; unfold canon_finite, le_pow2 in Hcan, Hle;
    try tauto.
  destruct Hcan as [-> _]. destruct Hle as [HeK HmK].
    unfold SF64mul, SFmul. change (xorb false s) with s.
    rewrite Pos2Z.inj_mul.
    pose proof (Zdigits2_mul_bounds (Zpos mc) (Zpos my) ltac:(lia) ltac:(lia)) as [Hlo Hhi].
    destruct (Zdigits2_bounds (Zpos my)) as (Y1 & Y2 & Y3); [lia|].
    destruct (Zdigits2_bounds (Zpos mc)) as (C1 & C2 & C3); [lia|].
    rewrite Hc in *.
    assert (Hup : Zdigits2 (Zpos mc * Zpos my) + (ec + ey) <= K + 53 + ec).
    { assert (Zdigits2 (Zpos mc * Zpos my) <= 53 + (K - ey)); [|lia].
      apply Zdigits2_le; try lia. rewrite Z.pow_add_r by lia.
      assert (0 < 2 ^ (K - ey)) by (apply Z.pow_pos_nonneg; lia). nia. }
    assert (Hpre : ec + ey <= fexp prec emax (Zdigits2 (Zpos mc * Zpos my) + (ec + ey)))
      by (rewrite fexp64_eq; lia).
    split; [apply round_canon; lia|].
    split; [apply round_le; lia|].
    intros J HJ HJ2. unfold ge_mag in HJ. apply round_ge; lia.
Qed.

(** ** Sums of two non-negative floats *)

Lemma pos_iter_xO m d : Zpos (Pos.iter xO m d) = Zpos m * 2 ^ Zpos d.
Proof.
  induction d as [|d IH] using Pos.peano_ind.
  - simpl. lia.
  - rewrite Pos.iter_succ, Pos2Z.inj_xO, IH, Pos2Z.inj_succ, Z.pow_succ_r by lia. lia.
Qed.

Lemma shl_align_spec m e e' :
  (e' < e -> Zpos (fst (shl_align m e e')) = Zpos m * 2 ^ (e - e') /\
             snd (shl_align m e e') = e') /\
  (e <= e' -> shl_align m e e' = (m, e)).
Proof.
  unfold shl_align. destruct (e' - e) as [|d|d] eqn:E; split; intros H; try lia;
    try reflexivity.
  cbn [fst snd]. rewrite pos_iter_xO. split; [|reflexivity]. f_equal. f_equal.
  pose proof (Pos2Z.opp_pos d). lia.
Qed.

Lemma Zdigits2_mul_pow2 m k : 0 < m -> 0 <= k -> Zdigits2 (m * 2 ^ k) = Zdigits2 m + k.
Proof.
  intros Hm Hk. destruct (Zdigits2_bounds m Hm) as (H1 & H2 & H3).
  assert (0 < 2 ^ k) by (apply Z.pow_pos_nonneg; lia).
  apply Zdigits2_unique; [|lia]. split.
  - replace (Zdigits2 m + k - 1) with (Zdigits2 m - 1 + k) by lia.
    rewrite Z.pow_add_r by lia. nia.
  - rewrite Z.pow_add_r by lia. nia.
Qed.

Lemma binary_round_facts s (mm : positive) (ez : Z) :
  Zdigits2 (Zpos mm) + ez <= 1023 ->
  canon_finite s (binary_round prec emax s mm ez) /\
  (forall K, Zdigits2 (Zpos mm) + ez <= K -> -1074 <= K <= 1023 ->
             le_pow2 K (binary_round prec emax s mm ez)) /\
  (forall J, J <= Zdigits2 (Zpos mm) + ez -> -1074 < Zdigits2 (Zpos mm) + ez ->
             ge_mag J (binary_round prec emax s mm ez)).
Proof.
  intros HD. unfold binary_round.
  change (Zpos (digits2_pos mm)) with (Zdigits2 (Zpos mm)).
  set (D := Zdigits2 (Zpos mm) + ez) in *.
  destruct (shl_align_spec mm ez (fexp prec emax D)) as [Hlt Hge].
  destruct (shl_align mm ez (fexp prec emax D)) as [mz e_z].
  assert (HDz : Zdigits2 (Zpos mz) + e_z = D /\ e_z <= fexp prec emax D).
  { destruct (Z_lt_ge_dec (fexp prec emax D) ez) as [L|G].
    - destruct (Hlt L) as [E1 E2]. cbn [fst snd] in E1, E2. rewrite E1, E2.
      rewrite Zdigits2_mul_pow2 by lia. unfold D in *. lia.
    - assert (E : (mz, e_z) = (mm, ez)) by (apply Hge; lia).
      inversion E; subst. unfold D in *. lia. }
  destruct HDz as [HDz Hez].
  assert (Hpre : e_z <= fexp prec emax (Zdigits2 (Zpos mz) + e_z)) by (rewrite HDz; assumption).
  split; [apply round_canon; lia|].
  split.
  - intros K HK1 HK2. apply round_le; lia.
  - intros J HJ1 HJ2. apply round_ge; lia.
Qed.

Lemma add_finite_eq mx ex my ey :
  exists M : positive,
    Zpos M = Zpos mx * 2 ^ (ex - Z.min ex ey) + Zpos my * 2 ^ (ey - Z.min ex ey) /\
    SF64add (S754_finite false mx ex) (S754_finite false my ey) =
    binary_round prec emax false M (Z.min ex ey).
Proof.
  unfold SF64add, SFadd. cbn [cond_Zopp].
  set (ez := Z.min ex ey).
  assert (Hx : Zpos (fst (shl_align mx ex ez)) = Zpos mx * 2 ^ (ex - ez)).
  { destruct (shl_align_spec mx ex ez) as [Hlt Hge].
    destruct (Z_lt_ge_dec ez ex) as [L|G].
    - apply Hlt; assumption.
    - rewrite Hge by lia. cbn [fst]. replace (ex - ez) with 0 by (unfold ez in *; lia).
      lia. }
  assert (Hy : Zpos (fst (shl_align my ey ez)) = Zpos my * 2 ^ (ey - ez)).
  { destruct (shl_align_spec my ey ez) as [Hlt Hge].
    destruct (Z_lt_ge_dec ez ey) as [L|G].
    - apply Hlt; assumption.
    - rewrite Hge by lia. cbn [fst]. replace (ey - ez) with 0 by (unfold ez in *; lia).
      lia. }
  exists (fst (shl_align mx ex ez) + fst (shl_align my ey ez))%positive.
  split.
  - rewrite Pos2Z.inj_add, Hx, Hy. reflexivity.
  - reflexivity.
Qed.

Lemma add_finite_facts mx ex my ey (K : Z) :
  Zpos mx * 2 ^ (ex - Z.min ex ey) + Zpos my * 2 ^ (ey - Z.min ex ey)
    < 2 ^ (K - Z.min ex ey) ->
  Z.min ex ey <= K -> -1074 <= K <= 1023 ->
  let r := SF64add (S754_finite false mx ex) (S754_finite false my ey) in
  canon_finite false r /\ le_pow2 K r /\
  (forall J, -1074 < J ->
     J <= Zdigits2 (Zpos mx) + ex \/ J <= Zdigits2 (Zpos my) + ey -> ge_mag J r).
Proof.
  intros Hlt HeK HK r. subst r.
  destruct (add_finite_eq mx ex my ey) as (M & HM & ->).
  set (ez := Z.min ex ey) in *.
  assert (HD : Zdigits2 (Zpos M) + ez <= K).
  { assert (Zdigits2 (Zpos M) <= K - ez); [|lia].
    apply Zdigits2_le; try lia. }
  destruct (binary_round_facts false M ez) as (Hc & Hle & Hge); [lia|].
  split; [assumption|]. split; [apply Hle; lia|].
  intros J HJ Hor.
  assert (Px : 0 < 2 ^ (ex - ez)) by (apply Z.pow_pos_nonneg; unfold ez; lia).
  assert (Py : 0 < 2 ^ (ey - ez)) by (apply Z.pow_pos_nonneg; unfold ez; lia).
  assert (Hdx : Zdigits2 (Zpos mx) + ex <= Zdigits2 (Zpos M) + ez).
  { pose proof (Zdigits2_mul_pow2 (Zpos mx) (ex - ez) ltac:(lia) ltac:(unfold ez; lia)).
    pose proof (Zdigits2_mono (Zpos mx * 2 ^ (ex - ez)) (Zpos M) ltac:(nia)). lia. }
  assert (Hdy : Zdigits2 (Zpos my) + ey <= Zdigits2 (Zpos M) + ez).
  { pose proof (Zdigits2_mul_pow2 (Zpos my) (ey - ez) ltac:(lia) ltac:(unfold ez; lia)).
    pose proof (Zdigits2_mono (Zpos my * 2 ^ (ey - ez)) (Zpos M) ltac:(nia)). lia. }
  apply Hge; lia.
Qed.

Lemma le_pow2_mono K K' x : K <= K' -> le_pow2 K x -> le_pow2 K' x.
Proof.
  intros HK. destruct x as [s|s| |s m e]; unfold le_pow2; try tauto.
  intros [H1 H2]. split; [lia|].
  assert (2 ^ (K - e) <= 2 ^ (K' - e)) by (apply Z.pow_le_mono_r; lia). lia.
Qed.

Lemma binary_round_le s (mm : positive) (ez K : Z) :
  Zpos mm < 2 ^ (K - ez) -> ez <= K -> -1074 <= K <= 1023 ->
  le_pow2 K (binary_round prec emax s mm ez).
Proof.
  intros Hlt He HK.
  assert (Zdigits2 (Zpos mm) <= K - ez) by (apply Zdigits2_le; lia).
  destruct (binary_round_facts s mm ez) as (_ & Hle & _); [lia|].
  apply Hle; lia.
Qed.

Lemma scale_le m e ez K :
  ez <= e -> e <= K -> Zpos m <= 2 ^ (K - e) ->
  Zpos m * 2 ^ (e - ez) <= 2 ^ (K - ez).
Proof.
  intros H1 H2 H3.
  replace (K - ez) with ((K - e) + (e - ez)) by lia.
  rewrite Z.pow_add_r by lia.
  assert (0 < 2 ^ (e - ez)) by (apply Z.pow_pos_nonneg; lia). nia.
Qed.

(** A sum of two floats of any sign and of size at most [2^K] is a float of
    size at most [2^(K+2)]: never an infinity, never a NaN. *)
Lemma add_any_le K x y :
  le_pow2 K x -> le_pow2 K y -> -1074 <= K -> K + 2 <= 1023 ->
  le_pow2 (K + 2) (SF64add x y).
Proof.
  intros Hx Hy HK1 HK2.
  destruct x as [sx|sx| |sx mx ex]; unfold le_pow2 in Hx; try tauto;
  destruct y as [sy|sy| |sy my ey]; unfold le_pow2 in Hy; try tauto.
  - destruct sx, sy; exact I.
  - unfold SF64add, SFadd. apply le_pow2_mono with (K := K); [lia|]. exact Hy.
  - unfold SF64add, SFadd. apply le_pow2_mono with (K := K); [lia|]. exact Hx.
  - destruct Hx as [Hx1 Hx2]. destruct Hy as [Hy1 Hy2].
    unfold SF64add, SFadd.
    set (ez := Z.min ex ey).
    assert (HX : Zpos (fst (shl_align mx ex ez)) <= 2 ^ (K - ez)).
    { destruct (shl_align_spec mx ex ez) as [Hlt Hge].
      destruct (Z_lt_ge_dec ez ex) as [L|G].
      - destruct (Hlt L) as [-> _]. apply scale_le; lia.
      - rewrite Hge by lia. cbn [fst]. replace ez with ex by (unfold ez in *; lia).
        assumption. }
    assert (HY : Zpos (fst (shl_align my ey ez)) <= 2 ^ (K - ez)).
    { destruct (shl_align_spec my ey ez) as [Hlt Hge].
      destruct (Z_lt_ge_dec ez ey) as [L|G].
      - destruct (Hlt L) as [-> _]. apply scale_le; lia.
      - rewrite Hge by lia. cbn [fst]. replace ez with ey by (unfold ez in *; lia).
        assumption. }
    set (X := Zpos (fst (shl_align mx ex ez))) in *.
    set (Y := Zpos (fst (shl_align my ey ez))) in *.
    assert (HXp : 0 < X) by (unfold X; lia).
    assert (HYp : 0 < Y) by (unfold Y; lia).
    assert (Hpow : 2 ^ (K + 2 - ez) = 4 * 2 ^ (K - ez)).
    { replace (K + 2 - ez) with (2 + (K - ez)) by lia.
      rewrite Z.pow_add_r by (unfold ez; lia). reflexivity. }
    assert (Hbound : Z.abs (cond_Zopp sx X + cond_Zopp sy Y) < 2 ^ (K + 2 - ez)).
    { rewrite Hpow. destruct sx, sy; unfold cond_Zopp; lia. }
    unfold binary_normalize.
    destruct (cond_Zopp sx X + cond_Zopp sy Y) as [|p|p]; [exact I| |];
      apply binary_round_le; unfold ez in *; lia.
Qed.

Lemma travel_term_any n : n <> 0 -> canon_finite (n <? 0) (travel_term n) /\ le_pow2 1 (travel_term n).
Proof.
  intros Hn. destruct (reciprocal_facts n Hn) as (Hc & H1 & _ & _).
  destruct (mul_const_facts 6305039478318694 (-53) (n <? 0) 1 (reciprocal n)) as (A & B & _);
    try assumption; try reflexivity; try lia.
  split; assumption.
Qed.

Lemma wait_term_any n : n <> 0 -> canon_finite (n <? 0) (wait_term n) /\ le_pow2 1 (wait_term n).
Proof.
  intros Hn. destruct (reciprocal_facts n Hn) as (Hc & H1 & _ & _).
  destruct (mul_const_facts 5404319552844595 (-54) (n <? 0) 1 (reciprocal n)) as (A & B & _);
    try assumption; try reflexivity; try lia.
  split; [assumption|]. apply le_pow2_mono with (K := 1 + 53 + -54); [lia|assumption].
Qed.

Lemma score_value_any tt wt : tt <> 0 -> wt <> 0 -> le_pow2 3 (score_value tt wt).
Proof.
  intros H1 H2. apply (add_any_le 1); try lia.
  - apply travel_term_any; assumption.
  - apply wait_term_any; assumption.
Qed.

Lemma travel_term_pos n :
  1 <= n ->
  canon_finite false (travel_term n) /\
  (n = 1 /\ travel_term n = Py.f0_7 \/ le_pow2 (-1) (travel_term n)) /\
  (Zdigits2 n <= 1072 -> ge_mag (- Zdigits2 n) (travel_term n)).
Proof.
  intros Hn.
  assert (Hs : (n <? 0) = false) by lia.
  destruct (reciprocal_facts n ltac:(lia)) as (Hc & H1 & Hj & Hg). rewrite Hs in Hc.
  pose proof (Zdigits2_bounds n ltac:(lia)) as (Hd & _ & _).
  split; [|split].
  - destruct (travel_term_any n ltac:(lia)) as [A _]. rewrite Hs in A. exact A.
  - destruct (Z.eq_dec n 1) as [->|N1]; [left; split; reflexivity|right].
    destruct (Z.eq_dec n 2) as [->|N2].
    + vm_compute. split; [discriminate|discriminate].
    + destruct (mul_const_facts 6305039478318694 (-53) false (-1) (reciprocal n)) as (_ & B & _);
        try assumption; try reflexivity; try lia.
      apply (Hj 1); [lia|]. change (2 ^ 1) with 2. lia.
  - intros Hle.
    destruct (mul_const_facts 6305039478318694 (-53) false 1 (reciprocal n)) as (_ & _ & C);
      try assumption; try reflexivity; try lia.
    replace (- Zdigits2 n) with (1 - Zdigits2 n + 52 + -53) by lia.
    apply C; [apply Hg; assumption|lia].
Qed.

Lemma wait_term_pos n :
  1 <= n ->
  canon_finite false (wait_term n) /\
  (n = 1 /\ wait_term n = Py.f0_3 \/ le_pow2 (-2) (wait_term n)) /\
  (Zdigits2 n <= 1072 -> ge_mag (- 1 - Zdigits2 n) (wait_term n)).
Proof.
  intros Hn.
  assert (Hs : (n <? 0) = false) by lia.
  destruct (reciprocal_facts n ltac:(lia)) as (Hc & H1 & Hj & Hg). rewrite Hs in Hc.
  pose proof (Zdigits2_bounds n ltac:(lia)) as (Hd & _ & _).
  split; [|split].
  - destruct (wait_term_any n ltac:(lia)) as [A _]. rewrite Hs in A. exact A.
  - destruct (Z.eq_dec n 1) as [->|N1]; [left; split; reflexivity|right].
    destruct (Z.eq_dec n 2) as [->|N2].
    + vm_compute. split; [discriminate|discriminate].
    + destruct (mul_const_facts 5404319552844595 (-54) false (-1) (reciprocal n)) as (_ & B & _);
        try assumption; try reflexivity; try lia.
      apply (Hj 1); [lia|]. change (2 ^ 1) with 2. lia.
  - intros Hle.
    destruct (mul_const_facts 5404319552844595 (-54) false 1 (reciprocal n)) as (_ & _ & C);
      try assumption; try reflexivity; try lia.
    replace (- 1 - Zdigits2 n) with (1 - Zdigits2 n + 52 + -54) by lia.
    apply C; [apply Hg; assumption|lia].
Qed.

Lemma pow2_split a b : 0 <= a -> 0 <= b -> 2 ^ (a + b) = 2 ^ a * 2 ^ b.
Proof. intros; apply Z.pow_add_r; assumption. Qed.

Lemma sum_le_one a b :
  canon_finite false a -> canon_finite false b ->
  a = Py.f0_7 \/ le_pow2 (-1) a ->
  b = Py.f0_3 \/ le_pow2 (-2) b ->
  canon_finite false (SF64add a b) /\ le_pow2 0 (SF64add a b) /\
  (forall J, -1074 < J -> ge_mag J a \/ ge_mag J b -> ge_mag J (SF64add a b)).
Proof.
  intros Ca Cb Ha Hb.
  assert (La : le_pow2 0 a).
  { destruct Ha as [->|Ha]; [vm_compute; split; discriminate|].
    apply le_pow2_mono with (K := -1); [lia|assumption]. }
  assert (Lb : le_pow2 0 b).
  { destruct Hb as [->|Hb]; [vm_compute; split; discriminate|].
    apply le_pow2_mono with (K := -2); [lia|assumption]. }
  destruct a as [sa|sa| |sa ma ea]; unfold canon_finite in Ca; try tauto;
  destruct b as [sb|sb| |sb mb eb]; unfold canon_finite in Cb; try tauto.
  - subst sa sb. cbn. split; [reflexivity|]. split; [exact I|]. intros J _ [[]|[]].
  - subst sa. destruct Cb as [-> Cb].
    change (SF64add (S754_zero false) (S754_finite false mb eb)) with (S754_finite false mb eb).
    split; [split; [reflexivity|assumption]|]. split; [assumption|].
    intros J _ [[]|H]; assumption.
  - subst sb. destruct Ca as [-> Ca].
    change (SF64add (S754_finite false ma ea) (S754_zero false)) with (S754_finite false ma ea).
    split; [split; [reflexivity|assumption]|]. split; [assumption|].
    intros J _ [H|[]]; assumption.
  - destruct Ca as [-> Ca]. destruct Cb as [-> Cb].
    assert (Hsum : Zpos ma * 2 ^ (ea - Z.min ea eb) + Zpos mb * 2 ^ (eb - Z.min ea eb)
                   < 2 ^ (0 - Z.min ea eb) /\ Z.min ea eb <= 0).
    { destruct Ha as [Ea|[Ha1 Ha2]]; destruct Hb as [Eb|[Hb1 Hb2]].
      - inversion Ea; inversion Eb; subst. vm_compute. split; [reflexivity|discriminate].
      - inversion Ea; subst. set (ez := Z.min (-53) eb).
        assert (Hez : ez <= -53) by (unfold ez; lia).
        pose proof (scale_le mb eb ez (-2) ltac:(unfold ez; lia) Hb1 Hb2) as Hs.
        set (t := 2 ^ (-53 - ez)).
        assert (0 < t) by (apply Z.pow_pos_nonneg; lia).
        replace (-2 - ez) with (51 + (-53 - ez)) in Hs by lia.
        rewrite pow2_split in Hs by lia. fold t in Hs.
        replace (0 - ez) with (53 + (-53 - ez)) by lia.
        rewrite pow2_split by lia. fold t.
        change (2 ^ 51) with 2251799813685248 in Hs.
        change (2 ^ 53) with 9007199254740992. lia.
      - inversion Eb; subst. set (ez := Z.min ea (-54)).
        assert (Hez : ez <= -54) by (unfold ez; lia).
        pose proof (scale_le ma ea ez (-1) ltac:(unfold ez; lia) Ha1 Ha2) as Hs.
        set (t := 2 ^ (-54 - ez)).
        assert (0 < t) by (apply Z.pow_pos_nonneg; lia).
        replace (-1 - ez) with (53 + (-54 - ez)) in Hs by lia.
        rewrite pow2_split in Hs by lia. fold t in Hs.
        replace (0 - ez) with (54 + (-54 - ez)) by lia.
        rewrite pow2_split by lia. fold t.
        change (2 ^ 53) with 9007199254740992 in Hs.
        change (2 ^ 54) with 18014398509481984. lia.
      - set (ez := Z.min ea eb).
        assert (Hez : ez <= -2) by (unfold ez; lia).
        pose proof (scale_le ma ea ez (-1) ltac:(unfold ez; lia) Ha1 Ha2) as Hs1.
        pose proof (scale_le mb eb ez (-2) ltac:(unfold ez; lia) Hb1 Hb2) as Hs2.
        set (t := 2 ^ (-2 - ez)) in *.
        assert (0 < t) by (apply Z.pow_pos_nonneg; lia).
        replace (-1 - ez) with (1 + (-2 - ez)) in Hs1 by lia.
        rewrite pow2_split in Hs1 by lia. fold t in Hs1.
        replace (0 - ez) with (2 + (-2 - ez)) by lia.
        rewrite pow2_split by lia. fold t.
        change (2 ^ 1) with 2 in Hs1. change (2 ^ 2) with 4. lia. }
    destruct Hsum as [Hsum Hmin].
    destruct (add_finite_facts ma ea mb eb 0 Hsum Hmin ltac:(lia)) as (A & B & C).
    split; [assumption|]. split; [assumption|].
    intros J HJ Hor. apply C; [assumption|]. unfold ge_mag in Hor. assumption.
Qed.

Lemma ge_mag_mono J J' x : J' <= J -> ge_mag J x -> ge_mag J' x.
Proof. destruct x; unfold ge_mag; try tauto. lia. Qed.

Lemma score_value_facts tt wt :
  1 <= tt -> 1 <= wt ->
  canon_finite false (score_value tt wt) /\ le_pow2 0 (score_value tt wt) /\
  (Zdigits2 tt <= 1072 \/ Zdigits2 wt <= 1072 -> ge_mag (-1073) (score_value tt wt)).
Proof.
  intros Ht Hw.
  destruct (travel_term_pos tt Ht) as (A1 & A2 & A3).
  destruct (wait_term_pos wt Hw) as (B1 & B2 & B3).
  destruct (sum_le_one (travel_term tt) (wait_term wt)) as (C1 & C2 & C3); try assumption.
  - destruct A2 as [[_ E]|L]; [left|right]; assumption.
  - destruct B2 as [[_ E]|L]; [left|right]; assumption.
  - split; [assumption|]. split; [assumption|].
    intros Hor. apply C3; [lia|].
    destruct Hor as [H|H]; [left|right].
    + apply ge_mag_mono with (J := - Zdigits2 tt); [lia|apply A3; assumption].
    + apply ge_mag_mono with (J := - 1 - Zdigits2 wt); [lia|apply B3; assumption].
Qed.


Lemma SFleb_finite_pos m e m' e' :
  SFleb (S754_finite false m e) (S754_finite false m' e') =
  match e ?= e' with Lt => true | Gt => false | Eq => (m <=? m')%positive end.
Proof.
  unfold SFleb, SFcompare, Pos.leb, Pos.compare.
  destruct (e ?= e'); reflexivity.
Qed.

Lemma le_one_of_le_pow2 x :
  canon_finite false x -> le_pow2 0 x -> SFleb x Py.f1_0 = true.
Proof.
  destruct x as [s|s| |s m e]; unfold canon_finite, le_pow2.
  - intros -> _. reflexivity.
  - intros [].
  - intros [].
  - intros [-> Hc] [He Hm]. rewrite fexp64_eq in Hc.
    assert (Hd : Zdigits2 (Zpos m) <= 0 - e + 1).
    { apply Zdigits2_le; try lia. rewrite Z.pow_add_r by lia.
      assert (0 < 2 ^ (0 - e)) by (apply Z.pow_pos_nonneg; lia). lia. }
    unfold Py.f1_0. rewrite SFleb_finite_pos.
    destruct (Z.compare_spec e (-52)) as [E|L|G]; [|reflexivity|lia].
    subst e. rewrite Pos2Z.inj_leb. apply Z.leb_le.
    assert (E52 : 2 ^ (0 - -52) = 4503599627370496) by reflexivity.
    rewrite E52 in Hm. exact Hm.
Qed.

Lemma zero_le_of_canon x : canon_finite false x -> SFleb Py.f0_0 x = true.
Proof.
  destruct x as [s|s| |s m e]; unfold canon_finite.
  - intros ->. reflexivity.
  - intros [].
  - intros [].
  - intros [-> _]. reflexivity.
Qed.

Lemma zero_lt_of_ge_mag J x : canon_finite false x -> ge_mag J x -> SFltb Py.f0_0 x = true.
Proof.
  destruct x as [s|s| |s m e]; unfold canon_finite, ge_mag.
  - intros _ [].
  - intros [].
  - intros [].
  - intros [-> _] _. reflexivity.
Qed.

Lemma le_pow2_not_nan K x : le_pow2 K x -> x <> S754_nan.
Proof. destruct x; unfold le_pow2; intros H; try discriminate; destruct H. Qed.

(** ** The order on floats *)

Lemma SFcompare_antisym x y :
  SFcompare y x = match SFcompare x y with Some c => Some (CompOpp c) | None => None end.
Proof.
  destruct x as [sx|sx| |sx mx ex], y as [sy|sy| |sy my ey]; simpl; try reflexivity;
    try (destruct sx; reflexivity); try (destruct sy; reflexivity);
    try (destruct sx, sy; reflexivity).
  pose proof (Z.compare_antisym ex ey) as Hz.
  pose proof (Pos.compare_antisym mx my) as Hp. unfold Pos.compare in Hp.
  destruct sx, sy; try reflexivity;
    rewrite Hz; destruct (ex ?= ey); simpl; try reflexivity;
    rewrite Hp; destruct (Pos.compare_cont Eq mx my); reflexivity.
Qed.

Lemma SFcompare_total x y :
  x <> S754_nan -> y <> S754_nan -> exists c, SFcompare x y = Some c.
Proof.
  destruct x, y; simpl; intros; try congruence; eexists; reflexivity.
Qed.

(** Two numbers that are not equal are ordered one way or the other. *)
Lemma SFltb_trichotomy x y :
  x <> S754_nan -> y <> S754_nan ->
  SFltb x y = false -> SFeqb x y = false -> SFltb y x = true.
Proof.
  intros Hx Hy. unfold SFltb, SFeqb. rewrite (SFcompare_antisym x y).
  destruct (SFcompare_total x y Hx Hy) as [c ->]. destruct c; simpl; congruence.
Qed.

Lemma SFltb_key x y :
  x <> S754_nan -> y <> S754_nan ->
  (SFltb x y = true <-> key_lt (order_key x) (order_key y)).
Proof.
  intros Hx Hy.
  destruct x as [sx|sx| |sx mx ex]; try congruence;
  destruct y as [sy|sy| |sy my ey]; try congruence;
  unfold SFltb, SFcompare, order_key, key_lt;
  try (destruct sx); try (destruct sy);
  try (split; [discriminate|lia]); try (split; [lia|reflexivity]).
  - pose proof (Pos.compare_spec mx my) as Hm. unfold Pos.compare in Hm.
    destruct (Z.compare_spec ex ey); destruct Hm; subst;
      split; intros; try discriminate; try reflexivity; lia.
  - pose proof (Pos.compare_spec mx my) as Hm. unfold Pos.compare in Hm.
    destruct (Z.compare_spec ex ey); destruct Hm; subst; cbn [CompOpp];
      split; intros; try discriminate; try reflexivity; lia.
Qed.

Lemma SFltb_true_not_nan x y : SFltb x y = true -> x <> S754_nan /\ y <> S754_nan.
Proof.
  destruct x, y; unfold SFltb, SFcompare; intros H; split; congruence.
Qed.

Lemma SFltb_irrefl x : SFltb x x = false.
Proof.
  destruct (SFltb x x) eqn:E; [|reflexivity].
  destruct (SFltb_true_not_nan x x E) as [Hx _].
  apply SFltb_key in E; try assumption.
  unfold key_lt in E. destruct (order_key x) as [[a b] c]. lia.
Qed.

Lemma SFltb_trans x y z : SFltb x y = true -> SFltb y z = true -> SFltb x z = true.
Proof.
  intros H1 H2.
  destruct (SFltb_true_not_nan x y H1) as [Hx Hy].
  destruct (SFltb_true_not_nan y z H2) as [_ Hz].
  apply SFltb_key in H1; try assumption. apply SFltb_key in H2; try assumption.
  apply SFltb_key; try assumption.
  unfold key_lt in *.
  destruct (order_key x) as [[a1 a2] a3], (order_key y) as [[b1 b2] b3],
           (order_key z) as [[c1 c2] c3]. lia.
Qed.

(** On numbers, "not less than" is transitive. *)
Lemma SFltb_false_trans x y z :
  x <> S754_nan -> y <> S754_nan -> z <> S754_nan ->
  SFltb x y = false -> SFltb y z = false -> SFltb x z = false.
Proof.
  intros Hx Hy Hz H1 H2.
  destruct (SFltb x z) eqn:E; [|reflexivity].
  apply SFltb_key in E; try assumption.
  assert (N1 : ~ key_lt (order_key x) (order_key y))
    by (intros K; apply SFltb_key in K; try assumption; congruence).
  assert (N2 : ~ key_lt (order_key y) (order_key z))
    by (intros K; apply SFltb_key in K; try assumption; congruence).
  unfold key_lt in *.
  destruct (order_key x) as [[a1 a2] a3], (order_key y) as [[b1 b2] b3],
           (order_key z) as [[c1 c2] c3]. lia.
Qed.

Lemma SFeqb_key x y :
  x <> S754_nan -> y <> S754_nan ->
  (SFeqb x y = true <-> order_key x = order_key y).
Proof.
  intros Hx Hy.
  destruct x as [sx|sx| |sx mx ex]; try congruence;
  destruct y as [sy|sy| |sy my ey]; try congruence;
  unfold SFeqb, SFcompare, order_key;
  try (destruct sx); try (destruct sy);
  try (split; [discriminate|intros K; inversion K; lia]);
  try (split; [discriminate|discriminate]); try (split; reflexivity).
  - pose proof (Pos.compare_spec mx my) as Hm. unfold Pos.compare in Hm.
    destruct (Z.compare_spec ex ey); destruct Hm; subst;
      split; intros K; try discriminate; try reflexivity; inversion K; lia.
  - pose proof (Pos.compare_spec mx my) as Hm. unfold Pos.compare in Hm.
    destruct (Z.compare_spec ex ey); destruct Hm; subst; cbn [CompOpp];
      split; intros K; try discriminate; try reflexivity; inversion K; lia.
Qed.

(** * The score computation returns *)

Lemma avoid_zero_nonzero t : avoid_zero t <> 0.
Proof. unfold avoid_zero. destruct (Z.eqb_spec t 0); lia. Qed.

Lemma int_true_div_zero a : Py.int_true_div a 0 = Raise ZeroDivisionError.
Proof. reflexivity. Qed.

Lemma int_true_div_one n : n <> 0 -> Py.int_true_div 1 n = Ok (reciprocal n).
Proof.
  intros Hn. unfold Py.int_true_div.
  destruct (Z.eqb_spec n 0) as [E|_]; [contradiction|].
  destruct (reciprocal_facts n Hn) as (_ & H1 & _).
  fold (reciprocal n). destruct (reciprocal n); unfold le_pow2 in H1;
    try reflexivity. destruct H1.
Qed.

Lemma composite_score_returns tt wt :
  tt <> 0 -> wt <> 0 -> composite_score tt wt = Ok (score_value tt wt).
Proof.
  intros Ht Hw. unfold composite_score.
  rewrite (int_true_div_one tt Ht), (int_true_div_one wt Hw). reflexivity.
Qed.

Lemma probe_score_returns p : probe_score p = Ok (score_of_probe p).
Proof.
  unfold probe_score, score_of_probe.
  apply composite_score_returns; apply avoid_zero_nonzero.
Qed.

(** * The selection loop *)

Lemma log_more_nil w : log_more w [] = w.
Proof. destruct w. unfold log_more. simpl. rewrite app_nil_r. reflexivity. Qed.

Lemma log_more_more w a b : log_more (log_more w a) b = log_more w (a ++ b)%list.
Proof. unfold log_more. simpl. rewrite app_assoc. reflexivity. Qed.

Lemma logger_spec r w : logger r w = (Ok tt, log_more w [r]).
Proof. reflexivity. Qed.

Lemma visit_spec p acc w :
  visit p acc w =
  (Ok (if available (availability p) then (acc ++ [entry_of p])%list else acc),
   log_more w [CheckingAvailability (hospital p); AnalyzingTraffic (hospital p)]).
Proof.
  unfold visit, check_hospital_availability, analyze_traffic. run_monad.
  unfold log_more. rewrite <- app_assoc. cbn [app].
  destruct (available (availability p)); [|reflexivity].
  fold (probe_score p). rewrite probe_score_returns. reflexivity.
Qed.

Lemma visit_all_spec ps : forall acc w,
  visit_all ps acc w = (Ok (acc ++ ranking ps)%list, log_more w (probe_log ps)).
Proof.
  induction ps as [|p ps IH]; intros acc w.
  - cbn. rewrite app_nil_r, log_more_nil. reflexivity.
  - cbn [visit_all]. unfold bind. rewrite visit_spec, IH, log_more_more.
    unfold ranking, candidates, probe_log. cbn [filter flat_map app].
    destruct (available (availability p)); cbn [map]; [|reflexivity].
    rewrite <- app_assoc. reflexivity.
Qed.

(** * The sort and its head *)

Lemma insert_by_score_head x l :
  hd_error (insert_by_score x l) =
  match hd_error l with
  | None => Some x
  | Some h => if Py.lt (score x) (score h) then Some h else Some x
  end.
Proof. destruct l as [|y l]; cbn; [reflexivity|]. destruct (Py.lt (score x) (score y)); reflexivity. Qed.

Lemma sorted_head l : hd_error (sorted_by_score_reverse l) = first_best l.
Proof.
  induction l as [|x l IH]; [reflexivity|].
  unfold sorted_by_score_reverse in *. cbn [fold_right first_best].
  rewrite insert_by_score_head, IH. reflexivity.
Qed.

Lemma first_best_none l : first_best l = None -> l = [].
Proof.
  destruct l as [|x l]; [reflexivity|]. cbn.
  destruct (first_best l) as [h|]; [|discriminate].
  destruct (Py.lt (score x) (score h)); discriminate.
Qed.

Lemma first_best_In l : forall h, first_best l = Some h -> In h l.
Proof.
  induction l as [|x l IH]; intros h; cbn; [discriminate|].
  destruct (first_best l) as [b|].
  - destruct (Py.lt (score x) (score b)); intros E; inversion E; subst; auto.
  - intros E; inversion E; auto.
Qed.

(** The entry that beats every earlier one and is beaten by no later one is
    the head of the sorted list. *)
Lemma first_best_wins pre x post :
  (forall y, In y pre -> Py.lt (score y) (score x) = true) ->
  (forall y, In y post -> Py.lt (score x) (score y) = false) ->
  first_best (pre ++ x :: post) = Some x.
Proof.
  intros Hpre Hpost. induction pre as [|y pre IH]; cbn [app first_best].
  - destruct (first_best post) as [h|] eqn:E; [|reflexivity].
    rewrite (Hpost h (first_best_In post h E)). reflexivity.
  - rewrite IH by (intros z Hz; apply Hpre; right; assumption).
    rewrite (Hpre y (or_introl eq_refl)). reflexivity.
Qed.

(** ** The model of [sorted] is the stable sort by decreasing score *)

Lemma insert_by_score_perm x l : Permutation (insert_by_score x l) (x :: l).
Proof.
  induction l as [|y l IH]; cbn [insert_by_score]; [reflexivity|].
  destruct (Py.lt (score x) (score y)); [|reflexivity].
  rewrite IH. apply perm_swap.
Qed.

Lemma sorted_by_score_reverse_perm l : Permutation (sorted_by_score_reverse l) l.
Proof.
  unfold sorted_by_score_reverse. induction l as [|x l IH]; cbn [fold_right];
    [reflexivity|].
  rewrite insert_by_score_perm. constructor. assumption.
Qed.

Lemma Forall_perm (P : Ranked -> Prop) l l' :
  Permutation l l' -> Forall P l -> Forall P l'.
Proof. intros Hp Hf. exact (Permutation_Forall Hp Hf). Qed.

Lemma insert_by_score_descending x l :
  score x <> S754_nan -> no_nan l -> descending l ->
  descending (insert_by_score x l).
Proof.
  unfold descending, no_nan. intros Hx Hn Hs.
  induction l as [|y l IH]; cbn [insert_by_score].
  - constructor; constructor.
  - inversion Hn as [|? ? Hy Hn']; subst. inversion Hs as [|? ? Hs' Hall]; subst.
    destruct (Py.lt (score x) (score y)) eqn:E.
    + constructor; [apply IH; assumption|].
      apply (Forall_perm _ (x :: l)); [symmetry; apply insert_by_score_perm|].
      constructor; [|assumption].
      destruct (Py.lt (score y) (score x)) eqn:E'; [|reflexivity].
      pose proof (SFltb_trans _ _ _ E E') as K. unfold Py.lt in *.
      rewrite SFltb_irrefl in K. discriminate.
    + constructor; [constructor; assumption|].
      constructor; [assumption|].
      rewrite Forall_forall in *. intros z Hz.
      apply (SFltb_false_trans (score x) (score y) (score z)); auto.
Qed.

Lemma sorted_by_score_reverse_descending l :
  no_nan l -> descending (sorted_by_score_reverse l).
Proof.
  unfold sorted_by_score_reverse. intros Hn.
  induction l as [|x l IH]; cbn [fold_right]; [constructor|].
  inversion Hn as [|? ? Hx Hn']; subst.
  apply insert_by_score_descending; [assumption| |apply IH; assumption].
  unfold no_nan. apply (Forall_perm _ l); [|assumption].
  symmetry. apply (sorted_by_score_reverse_perm l).
Qed.

(** Stability: the entries of any one score come out in the order they came in. *)
Lemma insert_by_score_stable k x l :
  score x <> S754_nan -> no_nan l -> k <> S754_nan ->
  filter (fun r => SFeqb (score r) k) (insert_by_score x l)
  = filter (fun r => SFeqb (score r) k) (x :: l).
Proof.
  intros Hx Hn Hk. induction l as [|y l IH]; cbn [insert_by_score]; [reflexivity|].
  inversion Hn as [|? ? Hy Hn']; subst.
  destruct (Py.lt (score x) (score y)) eqn:E; [|reflexivity].
  cbn [filter] in *. rewrite (IH Hn').
  destruct (SFeqb (score x) k) eqn:Ex; [|reflexivity].
  destruct (SFeqb (score y) k) eqn:Ey; [|reflexivity].
  exfalso. apply SFeqb_key in Ex; try assumption. apply SFeqb_key in Ey; try assumption.
  apply SFltb_key in E; try assumption. rewrite Ex, Ey in E.
  unfold key_lt in E. destruct (order_key k) as [[a b] c]. lia.
Qed.

Lemma sorted_by_score_reverse_stable k l :
  no_nan l -> k <> S754_nan ->
  filter (fun r => SFeqb (score r) k) (sorted_by_score_reverse l)
  = filter (fun r => SFeqb (score r) k) l.
Proof.
  unfold sorted_by_score_reverse. intros Hn Hk.
  induction l as [|x l IH]; cbn [fold_right]; [reflexivity|].
  inversion Hn as [|? ? Hx Hn']; subst.
  rewrite insert_by_score_stable; try assumption.
  - cbn [filter]. rewrite (IH Hn'). reflexivity.
  - unfold no_nan. apply (Forall_perm _ l); [|assumption].
    symmetry. apply (sorted_by_score_reverse_perm l).
Qed.

(** The head of the sorted list is the first entry of maximum score. *)
Lemma first_best_first_maximum l :
  no_nan l -> forall x, first_best l = Some x ->
  exists pre post : list Ranked,
    l = (pre ++ x :: post)%list /\
    (forall y, In y pre -> Py.lt (score y) (score x) = true) /\
    (forall y, In y post -> Py.lt (score x) (score y) = false).
Proof.
  unfold no_nan. induction l as [|y l IH]; intros Hn x; cbn [first_best];
    [discriminate|].
  inversion Hn as [|? ? Hy Hn']; subst.
  destruct (first_best l) as [h|] eqn:E.
  - destruct (IH Hn' h eq_refl) as (pre & post & -> & Hpre & Hpost).
    assert (Hh : score h <> S754_nan).
    { rewrite Forall_forall in Hn'. apply Hn'. apply in_or_app. right. left. reflexivity. }
    destruct (Py.lt (score y) (score h)) eqn:L; intros K; inversion K; subst.
    + exists (y :: pre), post. split; [reflexivity|]. split; [|assumption].
      intros z [<-|Hz]; [assumption|apply Hpre; assumption].
    + exists [], (pre ++ h :: post)%list. split; [reflexivity|].
      split; [intros z []|]. intros z Hz.
      assert (Hzn : score z <> S754_nan) by (rewrite Forall_forall in Hn'; apply Hn'; assumption).
      apply in_app_or in Hz. destruct Hz as [Hz|[<-|Hz]].
      * destruct (Py.lt (score x) (score z)) eqn:Lz; [|reflexivity].
        pose proof (SFltb_trans _ _ _ Lz (Hpre z Hz)) as K'. unfold Py.lt in *. congruence.
      * assumption.
      * apply (SFltb_false_trans (score x) (score h) (score z)); auto.
  - intros K; inversion K; subst. apply first_best_none in E. subst l.
    exists [], []. split; [reflexivity|]. split; intros z [].
Qed.

Lemma select_spec ps w :
  select_optimal_hospital ps w =
  (Ok (option_map ranked_hospital (first_best (ranking ps))),
   log_more w (Evaluating :: probe_log ps)).
Proof.
  unfold select_optimal_hospital, bind. rewrite logger_spec, visit_all_spec.
  rewrite log_more_more. cbn [app ret raise].
  pose proof (sorted_head (ranking ps)) as Hh.
  destruct (ranking ps) as [|r rs] eqn:E; [reflexivity|].
  destruct (sorted_by_score_reverse (r :: rs)) as [|b bs].
  - cbn [hd_error] in Hh. symmetry in Hh. apply first_best_none in Hh. discriminate.
  - cbn [hd_error] in Hh. rewrite <- Hh. reflexivity.
Qed.

Lemma SFeqb_sym x y : SFeqb x y = SFeqb y x.
Proof.
  unfold SFeqb. rewrite (SFcompare_antisym x y).
  destruct (SFcompare x y) as [[| |]|]; reflexivity.
Qed.

Lemma score_of_probe_not_nan p : score_of_probe p <> S754_nan.
Proof.
  apply (le_pow2_not_nan 3). unfold score_of_probe.
  apply score_value_any; apply avoid_zero_nonzero.
Qed.

Lemma ranking_app a b : ranking (a ++ b) = (ranking a ++ ranking b)%list.
Proof. unfold ranking, candidates. rewrite filter_app, map_app. reflexivity. Qed.

Lemma candidates_nil_iff ps :
  candidates ps = [] <-> Forall (fun p => available (availability p) = false) ps.
Proof.
  unfold candidates. induction ps as [|p ps IH]; cbn [filter].
  - split; [constructor|reflexivity].
  - destruct (available (availability p)) eqn:E; split; intros H.
    + discriminate.
    + inversion H; subst. congruence.
    + constructor; [assumption|apply IH; assumption].
    + inversion H; subst. apply IH; assumption.
Qed.

Lemma ranking_no_nan ps : no_nan (ranking ps).
Proof.
  unfold no_nan, ranking. apply Forall_forall. intros r Hr.
  apply in_map_iff in Hr. destruct Hr as (p & <- & _). apply score_of_probe_not_nan.
Qed.

(** Whatever the reports, a hospital the selection returns is that of the
    first candidate of maximum score: every candidate before it has a smaller
    score, no candidate after it has a greater one. *)
Theorem select_returns_first_maximum ps w h :
  fst (select_optimal_hospital ps w) = Ok (Some h) ->
  exists (pre : list Probe) (p : Probe) (post : list Probe),
    candidates ps = (pre ++ p :: post)%list /\ hospital p = h /\
    (forall c, In c pre -> Py.lt (score_of_probe c) (score_of_probe p) = true) /\
    (forall c, In c post -> Py.lt (score_of_probe p) (score_of_probe c) = false).
Proof.
  rewrite select_spec. cbn [fst]. intros H.
  destruct (first_best (ranking ps)) as [b|] eqn:E; [|discriminate].
  cbn [option_map] in H. inversion H; subst. clear H.
  destruct (first_best_first_maximum (ranking ps) (ranking_no_nan ps) b E)
    as (pre' & post' & Hd & Hpre & Hpost).
  unfold ranking in Hd. apply map_eq_app in Hd.
  destruct Hd as (pre & rest & Hc & <- & Hr).
  apply map_eq_cons in Hr. destruct Hr as (p & post & -> & <- & <-).
  exists pre, p, post. split; [assumption|]. split; [reflexivity|]. split.
  - intros c Hin. apply (Hpre (entry_of c)). apply in_map. assumption.
  - intros c Hin. apply (Hpost (entry_of c)). apply in_map. assumption.
Qed.

(** * The model against the machine's floats *)

(** The constants are the literals of the source, correctly rounded. *)
Example f0_7_is_the_literal :
  SF64div (Py.exact_of_int 7) (Py.exact_of_int 10) = Py.f0_7 /\
  Prim2SF 0x1.6666666666666p-1%float = Py.f0_7.
Proof. split; vm_compute; reflexivity. Qed.

Example f0_3_is_the_literal :
  SF64div (Py.exact_of_int 3) (Py.exact_of_int 10) = Py.f0_3 /\
  Prim2SF 0x1.3333333333333p-2%float = Py.f0_3.
Proof. split; vm_compute; reflexivity. Qed.

(** On small integers the quotient and the score are those of the hardware
    operations. *)
Example reciprocal_as_hardware :
  Prim2SF (1 / 3)%float = reciprocal 3 /\
  Prim2SF (1 / 10)%float = reciprocal 10 /\
  Prim2SF (1 / 40)%float = reciprocal 40 /\
  Prim2SF (1 / 182727)%float = reciprocal 182727.
Proof. repeat split; vm_compute; reflexivity. Qed.

Example score_as_hardware :
  Prim2SF (0x1.6666666666666p-1 * (1 / 10) + 0x1.3333333333333p-2 * (1 / 10))%float
  = score_value 10 10 /\
  Prim2SF (0x1.6666666666666p-1 * (1 / 5) + 0x1.3333333333333p-2 * (1 / 40))%float
  = score_value 5 40 /\
  Prim2SF (0x1.6666666666666p-1 * (1 / 1) + 0x1.3333333333333p-2 * (1 / 1))%float
  = Py.f1_0.
Proof. repeat split; vm_compute; reflexivity. Qed.

(** Beyond the range of floats the quotient of two integers is still rounded
    once: it is the smallest subnormal, then a zero. *)
Example reciprocal_of_large :
  reciprocal (2 ^ 1074) = S754_finite false 1 (-1074) /\
  reciprocal (2 ^ 1075 - 1) = S754_finite false 1 (-1074) /\
  reciprocal (2 ^ 1075) = S754_zero false /\
  reciprocal (10 ^ 400) = S754_zero false /\
  reciprocal (- 10 ^ 400) = S754_zero true.
Proof. repeat split; vm_compute; reflexivity. Qed.

(** * The claims on the hospital selection *)

(** C1. With A at travel time 10 and wait time 10 and B at travel time 5 and
    wait time 40, both available, the scores are computed by
    [0.7 * (1 / travel_time) + 0.3 * (1 / wait_time)]: the score of A is the
    binary64 number 7205759403792793 * 2^-56 (printed 0.09999999999999999,
    within 2^-56 of 0.10) and the score of B is 5314247560297185 * 2^-55
    (printed 0.1475, within 2^-56 of 0.1475); the score of B is the greater,
    and the selection returns B, whichever of the two comes first. *)
Theorem C1_select_returns_B :
  forall (A B : Hospital) (dA dB : Py.float) (w : World),
    let pA := {| hospital := A;
                 availability := {| available := true; wait_time := 10 |};
                 traffic := {| travel_time := 10; distance_km := dA |} |} in
    let pB := {| hospital := B;
                 availability := {| available := true; wait_time := 40 |};
                 traffic := {| travel_time := 5; distance_km := dB |} |} in
    let sA := S754_finite false 7205759403792793 (-56) in
    let sB := S754_finite false 5314247560297185 (-55) in
    composite_score 10 10 = Ok sA /\
    composite_score 5 40 = Ok sB /\
    fst (visit_all [pA; pB] [] w)
      = Ok [ {| ranked_hospital := A; ranked_travel_time := 10; score := sA |};
             {| ranked_hospital := B; ranked_travel_time := 5; score := sB |} ] /\
    (Qabs (Py.to_Q sA - (1 # 10)) < 1 # (2 ^ 56))%Q /\
    (Qabs (Py.to_Q sB - (1475 # 10000)) < 1 # (2 ^ 56))%Q /\
    Py.lt sA sB = true /\
    fst (select_optimal_hospital [pA; pB] w) = Ok (Some B) /\
    fst (select_optimal_hospital [pB; pA] w) = Ok (Some B).
Proof.
  intros A B dA dB w pA pB sA sB.
  split; [reflexivity|]. split; [reflexivity|].
  split; [rewrite visit_all_spec; reflexivity|].
  split; [reflexivity|]. split; [reflexivity|]. split; [reflexivity|].
  split; rewrite select_spec; reflexivity.
Qed.

(** C2. When the candidates are [pre ++ p :: post], no candidate has a score
    greater than that of [p] (it is a maximum) and no candidate of [pre] has a
    score equal to it ([p] is the first of those that reach the maximum,
    however many candidates of [post] tie with it), the selection returns the
    hospital of [p]. The scores are those the code computes. *)
Theorem C2_first_of_the_tied_wins :
  forall (ps pre post : list Probe) (p : Probe) (w : World),
    candidates ps = (pre ++ p :: post)%list ->
    (forall c, In c (candidates ps) ->
               Py.lt (score_of_probe p) (score_of_probe c) = false) ->
    (forall c, In c pre -> SFeqb (score_of_probe c) (score_of_probe p) = false) ->
    (forall c, probe_score c = Ok (score_of_probe c)) /\
    fst (select_optimal_hospital ps w) = Ok (Some (hospital p)).
Proof.
  intros ps pre post p w Hc Hmax Hfirst.
  split; [apply probe_score_returns|].
  rewrite select_spec. cbn [fst]. unfold ranking. rewrite Hc.
  rewrite map_app. cbn [map].
  rewrite (first_best_wins (map entry_of pre) (entry_of p) (map entry_of post)).
  - reflexivity.
  - intros y Hy. apply in_map_iff in Hy. destruct Hy as (c & <- & Hin).
    cbn [score entry_of].
    apply SFltb_trichotomy; try apply score_of_probe_not_nan.
    + apply Hmax. rewrite Hc. apply in_or_app. left. assumption.
    + rewrite SFeqb_sym. apply Hfirst. assumption.
  - intros y Hy. apply in_map_iff in Hy. destruct Hy as (c & <- & Hin).
    cbn [score entry_of]. apply Hmax. rewrite Hc. apply in_or_app. right. right.
    assumption.
Qed.

(** C3. The selection returns [None] exactly when no hospital passes the
    availability check, that is when the list is empty or every report says
    [available = false]; otherwise it returns the hospital of a candidate.
    It never raises. *)
Theorem C3_none_iff_no_candidate :
  forall (ps : list Probe) (w : World),
    (fst (select_optimal_hospital ps w) = Ok None <-> candidates ps = []) /\
    (candidates ps = [] <->
     Forall (fun p => available (availability p) = false) ps) /\
    fst (select_optimal_hospital [] w) = Ok None /\
    (candidates ps <> [] ->
     exists p, In p (candidates ps) /\
               fst (select_optimal_hospital ps w) = Ok (Some (hospital p))).
Proof.
  intros ps w. rewrite select_spec. cbn [fst].
  split; [|split; [apply candidates_nil_iff|split; [reflexivity|]]].
  - unfold ranking. split.
    + intros H. destruct (first_best (map entry_of (candidates ps))) as [b|] eqn:E;
        [discriminate|].
      apply first_best_none in E. destruct (candidates ps); [reflexivity|discriminate].
    + intros ->. reflexivity.
  - intros Hne. unfold ranking.
    destruct (first_best (map entry_of (candidates ps))) as [b|] eqn:E.
    + apply first_best_In in E. apply in_map_iff in E. destruct E as (p & <- & Hin).
      exists p. split; [assumption|reflexivity].
    + apply first_best_none in E. destruct (candidates ps); [contradiction|discriminate].
Qed.

(** The witness of C2: three available hospitals, the second and the third
    tied at the maximum; the second is returned. *)
Lemma C2_witness :
  fst (select_optimal_hospital
         [probe_of Config.hosp_a true 20 20; probe_of Config.hosp_b true 10 10;
          probe_of Config.hosp_a true 10 10] init)
  = Ok (Some Config.hosp_b).
Proof.
  refine (proj2 (C2_first_of_the_tied_wins
                   [probe_of Config.hosp_a true 20 20; probe_of Config.hosp_b true 10 10;
                    probe_of Config.hosp_a true 10 10]
                   [probe_of Config.hosp_a true 20 20]
                   [probe_of Config.hosp_a true 10 10]
                   (probe_of Config.hosp_b true 10 10) init eq_refl _ _)).
  - intros c [<-|[<-|[<-|[]]]]; reflexivity.
  - intros c [<-|[]]; reflexivity.
Defined.

(** C4. The score computation in the selection never divides by zero.
    Whatever the reports, the loop body returns: for an unavailable hospital
    it leaves [ranked_hospitals] as it is, for an available one it appends
    one entry, whose travel time is the reported one with 0 replaced by 1 and
    whose score is what the formula returns on the two guarded denominators,
    which are never 0. Reports of 0 and 0 are entered with the travel time 1
    and the score of 1 and 1, which is 1.0. So the loop returns on every
    list, with one such entry per available hospital, and so does the whole
    selection. A non-negative report [n] is replaced by [max 1 n]; on a
    denominator of 0 the formula would raise [ZeroDivisionError]. *)
Theorem C4_no_division_by_zero :
  forall (p : Probe) (acc : list Ranked) (ps : list Probe) (w : World)
         (t : Z) (n : N) (h : Hospital) (a : bool),
    (exists s : Py.float,
        composite_score (avoid_zero (travel_time (traffic p)))
                        (avoid_zero (wait_time (availability p))) = Ok s /\
        fst (visit p acc w)
        = Ok (if available (availability p)
              then (acc ++ [ {| ranked_hospital := hospital p;
                                ranked_travel_time :=
                                  avoid_zero (travel_time (traffic p));
                                score := s |} ])%list
              else acc)) /\
    fst (visit (probe_of h true 0 0) acc w)
    = Ok (acc ++ [ {| ranked_hospital := h;
                      ranked_travel_time := 1;
                      score := Py.f1_0 |} ])%list /\
    fst (visit (probe_of h false 0 0) acc w) = Ok acc /\
    (exists rs : list Ranked,
        fst (visit_all ps [] w) = Ok rs /\
        Forall2 (fun q r =>
                   ranked_hospital r = hospital q /\
                   ranked_travel_time r = avoid_zero (travel_time (traffic q)) /\
                   composite_score (avoid_zero (travel_time (traffic q)))
                                   (avoid_zero (wait_time (availability q)))
                   = Ok (score r))
                (candidates ps) rs) /\
    probe_score p = Ok (score_of_probe p) /\
    (exists r, fst (visit p acc w) = Ok r) /\
    (exists r, fst (select_optimal_hospital ps w) = Ok r) /\
    (avoid_zero t =? 0) = false /\
    avoid_zero 0 = 1 /\
    avoid_zero (Z.of_N n) = Z.max 1 (Z.of_N n) /\
    probe_score (probe_of h a 0 0) = composite_score 1 1 /\
    composite_score 1 1 = Ok Py.f1_0 /\
    composite_score t 0 = Raise ZeroDivisionError /\
    composite_score 0 t = Raise ZeroDivisionError.
Proof.
  intros p acc ps w t n h a.
  split.
  { exists (score_of_probe p). split; [apply probe_score_returns|].
    rewrite visit_spec. reflexivity. }
  split; [rewrite visit_spec; reflexivity|].
  split; [rewrite visit_spec; reflexivity|].
  split.
  { exists (ranking ps). rewrite visit_all_spec. split; [reflexivity|].
    unfold ranking. induction (candidates ps) as [|q cs IH]; cbn [map]; constructor.
    - split; [reflexivity|]. split; [reflexivity|]. apply probe_score_returns.
    - exact IH. }
  split; [apply probe_score_returns|].
  split; [rewrite visit_spec; eexists; reflexivity|].
  split; [rewrite select_spec; eexists; reflexivity|].
  split; [apply Z.eqb_neq, avoid_zero_nonzero|].
  split; [reflexivity|].
  split; [unfold avoid_zero; destruct (Z.eqb_spec (Z.of_N n) 0); lia|].
  split; [reflexivity|]. split; [reflexivity|].
  split; [|reflexivity].
  unfold composite_score. destruct (Z.eq_dec t 0) as [->|Ht]; [reflexivity|].
  rewrite (int_true_div_one t Ht). reflexivity.
Qed.

(** * The bounds of a score *)

Lemma avoid_zero_ge_1 t : 0 <= t -> 1 <= avoid_zero t.
Proof. unfold avoid_zero. destruct (Z.eqb_spec t 0); lia. Qed.

Lemma avoid_zero_digits t :
  0 <= t -> t < 2 ^ 1072 -> Zdigits2 (avoid_zero t) <= 1072.
Proof.
  intros H0 H. apply Zdigits2_le; [pose proof (avoid_zero_ge_1 t H0); lia|lia|].
  unfold avoid_zero. destruct (Z.eqb_spec t 0); [|assumption].
  apply Z.pow_gt_1; lia.
Qed.

Lemma score_of_probe_bounds p :
  0 <= travel_time (traffic p) -> 0 <= wait_time (availability p) ->
  Py.is_finite (score_of_probe p) = true /\
  Py.le Py.f0_0 (score_of_probe p) = true /\
  Py.le (score_of_probe p) Py.f1_0 = true /\
  (travel_time (traffic p) < 2 ^ 1072 \/ wait_time (availability p) < 2 ^ 1072 ->
   Py.lt Py.f0_0 (score_of_probe p) = true).
Proof.
  intros Ht Hw. unfold score_of_probe.
  destruct (score_value_facts (avoid_zero (travel_time (traffic p)))
                              (avoid_zero (wait_time (availability p))))
    as (Hc & Hle & Hge); try (apply avoid_zero_ge_1; assumption).
  split.
  { destruct (score_value _ _); unfold canon_finite in Hc; try contradiction; reflexivity. }
  split; [apply zero_le_of_canon; assumption|].
  split; [apply le_one_of_le_pow2; assumption|].
  intros Hor. apply (zero_lt_of_ge_mag (-1073)); [assumption|].
  apply Hge. destruct Hor as [H|H]; [left|right]; apply avoid_zero_digits; assumption.
Qed.

(** C10. Every entry of [ranked_hospitals] has a score strictly greater than
    0 and at most 1. The reports are those the two sources give: a waiting
    time from [random.randint(5, 60)] and a travel time that is the [int] of
    a float that is not negative; the statement takes every waiting time
    from 0 to 60 and every travel time that is not negative. After the two
    guards both times of an entry are at least 1, and its score is the
    finite float the formula returns on them. *)
Theorem C10_score_bounds :
  forall (ps : list Probe) (w : World),
    (forall p, In p ps ->
               0 <= travel_time (traffic p) /\
               0 <= wait_time (availability p) <= 60) ->
    exists rs,
      fst (visit_all ps [] w) = Ok rs /\
      Forall2 (fun p r =>
                 ranked_hospital r = hospital p /\
                 1 <= ranked_travel_time r /\
                 1 <= avoid_zero (wait_time (availability p)) /\
                 composite_score (ranked_travel_time r)
                                 (avoid_zero (wait_time (availability p)))
                 = Ok (score r) /\
                 Py.is_finite (score r) = true /\
                 Py.lt Py.f0_0 (score r) = true /\
                 Py.le (score r) Py.f1_0 = true)
              (candidates ps) rs.
Proof.
  intros ps w Hnn. exists (ranking ps). rewrite visit_all_spec. split; [reflexivity|].
  unfold ranking.
  assert (Hsub : forall p, In p (candidates ps) -> In p ps)
    by (intros p Hp; apply filter_In in Hp; tauto).
  induction (candidates ps) as [|p cs IH]; cbn [map]; constructor.
  - destruct (Hnn p (Hsub p (or_introl eq_refl))) as [Ht [Hw Hw60]].
    cbn [score ranked_travel_time ranked_hospital entry_of].
    split; [reflexivity|].
    split; [apply avoid_zero_ge_1; assumption|].
    split; [apply avoid_zero_ge_1; assumption|].
    split; [apply probe_score_returns|].
    destruct (score_of_probe_bounds p Ht Hw) as (Hf & _ & Hle & Hlt).
    split; [assumption|]. split; [|assumption].
    apply Hlt. right. apply Z.le_lt_trans with 1072; [lia|].
    apply Z.pow_gt_lin_r; lia.
  - apply IH. intros q Hq. apply Hsub. right. assumption.
Qed.

Lemma C10_witness :
  exists rs,
    fst (visit_all [probe_of Config.hosp_a true 0 0; probe_of Config.hosp_b false 5 40;
                    probe_of Config.hosp_b true 5 40]
                   [] init) = Ok rs /\
    Forall2 (fun p r =>
               ranked_hospital r = hospital p /\
               1 <= ranked_travel_time r /\
               1 <= avoid_zero (wait_time (availability p)) /\
               composite_score (ranked_travel_time r)
                               (avoid_zero (wait_time (availability p)))
               = Ok (score r) /\
               Py.is_finite (score r) = true /\
               Py.lt Py.f0_0 (score r) = true /\
               Py.le (score r) Py.f1_0 = true)
            (candidates [probe_of Config.hosp_a true 0 0;
                         probe_of Config.hosp_b false 5 40;
                         probe_of Config.hosp_b true 5 40]) rs.
Proof.
  apply (C10_score_bounds
           [probe_of Config.hosp_a true 0 0; probe_of Config.hosp_b false 5 40;
            probe_of Config.hosp_b true 5 40] init).
  intros p [<-|[<-|[<-|[]]]]; cbn; lia.
Defined.

(** The bound on the reports is needed: on a travel time and a wait time of
    10^400, which neither source returns, the two reciprocals round to 0.0
    and the entry gets the score +0.0. *)
Example score_underflows_beyond_the_sources :
  fst (visit_all [probe_of Config.hosp_a true (10 ^ 400) (10 ^ 400)] [] init)
  = Ok [ {| ranked_hospital := Config.hosp_a;
            ranked_travel_time := 10 ^ 400;
            score := S754_zero false |} ] /\
  Py.lt Py.f0_0 (S754_zero false) = false /\
  (1 <=? 10 ^ 400) = true.
Proof.
  split; [|split; reflexivity].
  rewrite visit_all_spec. vm_compute. reflexivity.
Qed.

(** * Strings: lower-casing and the substring test *)

Lemma lower_app a b : Py.lower (a ++ b) = (Py.lower a ++ Py.lower b)%string.
Proof. induction a as [|c a IH]; cbn; [reflexivity|]. rewrite IH. reflexivity. Qed.

(** A split of the lower-cased text comes from a split of the text. *)
Lemma lower_app_inv a : forall d b,
  Py.lower d = (a ++ b)%string ->
  exists a' b', d = (a' ++ b')%string /\ Py.lower a' = a /\ Py.lower b' = b.
Proof.
  induction a as [|c a IH]; intros d b H.
  - exists EmptyString, d. auto.
  - destruct d as [|x d]; cbn in H; [discriminate|].
    inversion H as [[Hc Hr]]. destruct (IH d b Hr) as (a' & b' & -> & <- & <-).
    exists (String x a'), b'. auto.
Qed.

Lemma prefix_app a b : String.prefix a (a ++ b) = true.
Proof.
  induction a as [|c a IH]; cbn [append].
  - destruct b; reflexivity.
  - cbn. destruct (ascii_dec c c); [assumption|contradiction].
Qed.

Lemma prefix_inv a : forall b,
  String.prefix a b = true -> exists r, b = (a ++ r)%string.
Proof.
  induction a as [|c a IH]; intros b H.
  - exists b. reflexivity.
  - destruct b as [|x b]; cbn in H; [discriminate|].
    destruct (ascii_dec c x) as [->|]; [|discriminate].
    destruct (IH b H) as [r ->]. exists r. reflexivity.
Qed.

Lemma contains_unfold needle haystack :
  Py.contains needle haystack =
  String.prefix needle haystack ||
  match haystack with
  | EmptyString => false
  | String _ rest => Py.contains needle rest
  end.
Proof. destruct haystack; reflexivity. Qed.

(** The substring test finds exactly the occurrences. *)
Lemma contains_spec needle haystack :
  Py.contains needle haystack = true <->
  exists pre post, haystack = (pre ++ needle ++ post)%string.
Proof.
  split.
  - induction haystack as [|c h IH]; rewrite contains_unfold; intros H;
      apply orb_true_iff in H; destruct H as [H|H]; try discriminate.
    + apply prefix_inv in H. destruct H as [r ->]. exists EmptyString, r. reflexivity.
    + apply prefix_inv in H. destruct H as [r ->]. exists EmptyString, r. reflexivity.
    + destruct (IH H) as (pre & post & ->). exists (String c pre), post. reflexivity.
  - intros (pre & post & ->). induction pre as [|c pre IH]; rewrite contains_unfold.
    + cbn [append]. rewrite prefix_app. reflexivity.
    + cbn [append]. rewrite IH. apply orb_true_r.
Qed.

(** The test of the code on the lower-cased text is the occurrence of the
    keyword in any letter case. *)
Lemma contains_lower_iff keyword d :
  Py.contains keyword (Py.lower d) = true <-> occurs_ignoring_case keyword d.
Proof.
  rewrite contains_spec. unfold occurs_ignoring_case. split.
  - intros (pre & post & H).
    destruct (lower_app_inv pre d _ H) as (pre' & rest & -> & <- & Hr).
    destruct (lower_app_inv keyword rest _ Hr) as (mid & post' & -> & Hm & _).
    exists pre', mid, post'. auto.
  - intros (pre & mid & post & -> & <-).
    exists (Py.lower pre), (Py.lower post). rewrite !lower_app. reflexivity.
Qed.

Lemma rule1_iff d :
  rule1 d = true <->
  occurs_ignoring_case "chest pain" d /\
  (occurs_ignoring_case "arm" d \/ occurs_ignoring_case "left" d).
Proof.
  unfold rule1. rewrite andb_true_iff, orb_true_iff, !contains_lower_iff. reflexivity.
Qed.

Lemma rule2_iff d : rule2 d = true <-> occurs_ignoring_case "difficulty breathing" d.
Proof. unfold rule2. apply contains_lower_iff. Qed.

Lemma classify_rules d :
  classify d =
  if rule1 d then ("Severe chest pain, arm numbness", critical)
  else if rule2 d then ("Difficulty breathing", critical)
  else (Py.lower d, moderate).
Proof. reflexivity. Qed.

Lemma analyze_symptoms_spec d w :
  analyze_symptoms d w = (Ok (classify d), log_more w [Analyzing d]).
Proof. reflexivity. Qed.

(** * The claims on the triage *)

(** C5. A description in which "chest pain" occurs, in any letter case, and
    in which "arm" or "left" occurs, in any letter case, is classified
    critical with the fixed summary; descriptions that differ by letter case
    only are classified alike. *)
Theorem C5_chest_pain_with_arm_is_critical :
  forall d : string,
    occurs_ignoring_case "chest pain" d ->
    occurs_ignoring_case "arm" d \/ occurs_ignoring_case "left" d ->
    classify d = ("Severe chest pain, arm numbness", critical) /\
    (forall w, fst (analyze_symptoms d w)
               = Ok ("Severe chest pain, arm numbness", critical)) /\
    (forall d', Py.lower d' = Py.lower d -> classify d' = classify d).
Proof.
  intros d H1 H2.
  assert (Hr : rule1 d = true) by (apply rule1_iff; split; assumption).
  assert (Hc : classify d = ("Severe chest pain, arm numbness", critical))
    by (rewrite classify_rules, Hr; reflexivity).
  split; [assumption|]. split.
  - intros w. rewrite analyze_symptoms_spec. cbn [fst]. rewrite Hc. reflexivity.
  - intros d' E. unfold classify. rewrite E. reflexivity.
Qed.

Lemma C5_witness :
  classify "My CHEST Pain is strong and my Left ARM is numb"
  = ("Severe chest pain, arm numbness", critical).
Proof.
  refine (proj1 (C5_chest_pain_with_arm_is_critical
                   "My CHEST Pain is strong and my Left ARM is numb" _ _)).
  - exists "My ", "CHEST Pain", " is strong and my Left ARM is numb". split; reflexivity.
  - left. exists "My CHEST Pain is strong and my Left ", "ARM", " is numb".
    split; reflexivity.
Defined.

(** C6. The rules are tried in order and the first that matches decides: the
    result is that of rule 1 when rule 1 matches, else that of rule 2 when
    rule 2 matches, else the default. A description that has the keywords of
    rule 1 and the keyword of rule 2 gets the result of rule 1, which is not
    that of rule 2. *)
Theorem C6_first_matching_rule_wins :
  forall d : string,
    occurs_ignoring_case "chest pain" d ->
    occurs_ignoring_case "arm" d \/ occurs_ignoring_case "left" d ->
    occurs_ignoring_case "difficulty breathing" d ->
    rule1 d = true /\ rule2 d = true /\
    classify d = ("Severe chest pain, arm numbness", critical) /\
    (String.eqb (fst (classify d)) "Difficulty breathing") = false /\
    (forall d', classify d' =
                if rule1 d' then ("Severe chest pain, arm numbness", critical)
                else if rule2 d' then ("Difficulty breathing", critical)
                else (Py.lower d', moderate)).
Proof.
  intros d H1 H2 H3.
  assert (Hr : rule1 d = true) by (apply rule1_iff; split; assumption).
  assert (Hc : classify d = ("Severe chest pain, arm numbness", critical))
    by (rewrite classify_rules, Hr; reflexivity).
  split; [assumption|]. split; [apply rule2_iff; assumption|].
  split; [assumption|]. split; [rewrite Hc; reflexivity|].
  intros d'. apply classify_rules.
Qed.

Lemma C6_witness :
  classify "Chest pain in the left arm and difficulty breathing"
  = ("Severe chest pain, arm numbness", critical).
Proof.
  refine (proj1 (proj2 (proj2 (C6_first_matching_rule_wins
                   "Chest pain in the left arm and difficulty breathing" _ _ _)))).
  - exists "", "Chest pain", " in the left arm and difficulty breathing".
    split; reflexivity.
  - left. exists "Chest pain in the left ", "arm", " and difficulty breathing".
    split; reflexivity.
  - exists "Chest pain in the left arm and ", "difficulty breathing", "".
    split; reflexivity.
Defined.

(** C7. A description that matches neither rule 1 nor rule 2 is classified
    moderate, with the lower-cased description as its summary; the triage
    returns on every description and raises on none. *)
Theorem C7_default_is_moderate :
  forall d : string,
    ~ (occurs_ignoring_case "chest pain" d /\
       (occurs_ignoring_case "arm" d \/ occurs_ignoring_case "left" d)) ->
    ~ occurs_ignoring_case "difficulty breathing" d ->
    classify d = (Py.lower d, moderate) /\
    (forall w, fst (analyze_symptoms d w) = Ok (Py.lower d, moderate)) /\
    (forall d' w, exists r, fst (analyze_symptoms d' w) = Ok r).
Proof.
  intros d H1 H2.
  assert (R1 : rule1 d = false).
  { destruct (rule1 d) eqn:E; [|reflexivity]. apply rule1_iff in E. contradiction. }
  assert (R2 : rule2 d = false).
  { destruct (rule2 d) eqn:E; [|reflexivity]. apply rule2_iff in E. contradiction. }
  assert (Hc : classify d = (Py.lower d, moderate))
    by (rewrite classify_rules, R1, R2; reflexivity).
  split; [assumption|]. split.
  - intros w. rewrite analyze_symptoms_spec. cbn [fst]. rewrite Hc. reflexivity.
  - intros d' w. rewrite analyze_symptoms_spec. eexists. reflexivity.
Qed.

Lemma C7_witness :
  classify "I have a Headache" = ("i have a headache", moderate).
Proof.
  refine (proj1 (C7_default_is_moderate "I have a Headache" _ _)).
  - intros [H _]. apply contains_lower_iff in H. discriminate H.
  - intros H. apply contains_lower_iff in H. discriminate H.
Defined.

(** * The protocol *)

Lemma notify_contacts_spec contacts : forall w,
  notify_contacts contacts w = (Ok tt, log_more w (map Notifying contacts)).
Proof.
  induction contacts as [|c cs IH]; intros w; cbn [notify_contacts map].
  - unfold ret. rewrite log_more_nil. reflexivity.
  - unfold bind. rewrite logger_spec, IH, log_more_more. reflexivity.
Qed.

Lemma notified_app a b : notified (a ++ b) = (notified a ++ notified b)%list.
Proof.
  induction a as [|r a IH]; [reflexivity|].
  destruct r; cbn; rewrite IH; reflexivity.
Qed.

Lemma alerted_app a b : alerted (a ++ b) = (alerted a ++ alerted b)%list.
Proof.
  induction a as [|r a IH]; [reflexivity|].
  destruct r; cbn; rewrite IH; reflexivity.
Qed.

Lemma notified_notifying cs : notified (map Notifying cs) = cs.
Proof. induction cs as [|c cs IH]; cbn; [reflexivity|]. rewrite IH. reflexivity. Qed.

Lemma alerted_notifying cs : alerted (map Notifying cs) = [].
Proof. induction cs as [|c cs IH]; cbn; [reflexivity|assumption]. Qed.

Lemma selection_records_notifying cs : selection_records (map Notifying cs) = [].
Proof. induction cs as [|c cs IH]; cbn; [reflexivity|assumption]. Qed.

Lemma notified_probe_log ps : notified (probe_log ps) = [].
Proof. induction ps as [|p ps IH]; cbn; [reflexivity|assumption]. Qed.

Lemma alerted_probe_log ps : alerted (probe_log ps) = [].
Proof. induction ps as [|p ps IH]; cbn; [reflexivity|assumption]. Qed.

(** The records a run appends to the log, path by path. *)
Lemma execute_emergency_protocol_spec contacts sim w :
  let voice := voice_command sim in
  execute_emergency_protocol contacts sim w =
  if str_is_empty voice && negb (emergency_trigger sim) then
    (Ok tt, log_more w [Initiating; Listening; CheckingTriggers; NoEmergencyDetected])
  else
    let w1 := {| current_symptoms := fst (classify voice);
                 symptom_severity := snd (classify voice);
                 log := (log w ++ [Initiating; Listening; CheckingTriggers;
                                   Analyzing voice])%list |} in
    if Severity_eqb (snd (classify voice)) critical then
      (Ok tt, log_more w1 (CriticalCondition :: map Notifying contacts))
    else
      match first_best (ranking (probes sim)) with
      | None =>
          (Ok tt, log_more w1 (Evaluating :: probe_log (probes sim)
                               ++ NoAvailableHospital :: map Notifying contacts))
      | Some b =>
          (Ok tt, log_more w1 (Evaluating :: probe_log (probes sim)
                               ++ SendingAlert (ranked_hospital b)
                                  :: map Notifying contacts
                               ++ [Completed (ranked_hospital b)]))
      end.
Proof.
  intros voice. unfold execute_emergency_protocol, listen_for_voice_command,
    detect_emergency_trigger, analyze_symptoms, send_emergency_alert.
  fold voice. run_monad.
  destruct (str_is_empty voice && negb (emergency_trigger sim)).
  - tidy_log. reflexivity.
  - destruct (Severity_eqb (snd (classify voice)) critical).
    + rewrite notify_contacts_spec. tidy_log. reflexivity.
    + rewrite select_spec.
      destruct (first_best (ranking (probes sim))) as [b|]; cbn [option_map];
        rewrite notify_contacts_spec; tidy_log; reflexivity.
Qed.

Lemma selection_records_probe_log ps : selection_records (probe_log ps) = probe_log ps.
Proof.
  unfold selection_records. induction ps as [|p ps IH]; [reflexivity|].
  cbn [probe_log flat_map app filter is_selection_record].
  fold (probe_log ps). rewrite IH. reflexivity.
Qed.

Lemma critical_not_empty voice s :
  classify voice = (s, critical) -> str_is_empty voice = false.
Proof. destruct voice; [discriminate|reflexivity]. Qed.

Lemma selection_records_probe_free_tail h cs :
  selection_records (NoAvailableHospital :: map Notifying cs) = [] /\
  selection_records (SendingAlert h :: map Notifying cs ++ [Completed h]) = [].
Proof.
  unfold selection_records. split; cbn [filter is_selection_record].
  - apply selection_records_notifying.
  - rewrite filter_app. fold (selection_records (map Notifying cs)).
    rewrite selection_records_notifying. reflexivity.
Qed.

(** * The claims on the protocol *)

(** The rule of the critical path. In every run in which the triage
    classifies the voice input as critical, the run returns, the records it
    appends contain no record of the hospital selection (which is not
    called) and no alert, and one notification per configured contact, in
    the order of the list. *)
Lemma critical_run_notifies_only :
  forall (contacts : list EmergencyContact) (sim : Simulated) (w : World) (s : string),
    classify (voice_command sim) = (s, critical) ->
    exists new,
      execute_emergency_protocol contacts sim w
      = (Ok tt, {| current_symptoms := s; symptom_severity := critical;
                   log := (log w ++ new)%list |}) /\
      selection_records new = [] /\
      alerted new = [] /\
      notified new = contacts.
Proof.
  intros contacts sim w s Hc.
  rewrite execute_emergency_protocol_spec. cbv zeta.
  rewrite (critical_not_empty _ _ Hc), Hc. cbn [andb fst snd Severity_eqb].
  exists ([Initiating; Listening; CheckingTriggers; Analyzing (voice_command sim)]
          ++ CriticalCondition :: map Notifying contacts)%list.
  split; [tidy_log; reflexivity|].
  cbn [app selection_records filter is_selection_record alerted notified].
  fold (selection_records (map Notifying contacts)).
  rewrite selection_records_notifying, alerted_notifying, notified_notifying.
  auto.
Qed.

Example critical_run_example :
  exists new,
    execute_emergency_protocol Config.EMERGENCY_CONTACTS
      (sim_of "I have chest pain and my left arm is numb" false
              [probe_of Config.hosp_a true 10 10]) init
    = (Ok tt, {| current_symptoms := "Severe chest pain, arm numbness";
                 symptom_severity := critical;
                 log := (log init ++ new)%list |}) /\
    selection_records new = [] /\
    alerted new = [] /\
    notified new = Config.EMERGENCY_CONTACTS.
Proof.
  apply (critical_run_notifies_only Config.EMERGENCY_CONTACTS
           (sim_of "I have chest pain and my left arm is numb" false
                   [probe_of Config.hosp_a true 10 10]) init
           "Severe chest pain, arm numbness").
  reflexivity.
Qed.

(** C8, at the sentence of the claim, which is the sentence
    [_listen_for_voice_command] returns. The triage does not classify it
    critical: "chest pain" is looked for as one piece of text, and the
    sentence has "pain in my chest". With or without its full stop it falls
    to the default rule and is moderate. So every run of the program on it,
    whatever the trigger and the reports, stores "moderate", goes through the
    hospital selection, which probes every hospital, sends an alert to the
    hospital the selection returns, and notifies every contact once: with the
    two configured hospitals available, the run alerts one of them. *)
Theorem C8_canned_sentence_is_not_critical :
  classify "I feel a sharp pain in my chest and my arm is numb"
  = ("i feel a sharp pain in my chest and my arm is numb", moderate) /\
  classify canned_voice_command
  = ("i feel a sharp pain in my chest and my arm is numb.", moderate) /\
  Py.contains "chest pain" (Py.lower canned_voice_command) = false /\
  Py.contains "pain in my chest" (Py.lower canned_voice_command) = true /\
  Py.contains "arm" (Py.lower canned_voice_command) = true /\
  (forall (contacts : list EmergencyContact) (trigger : bool) (ps : list Probe)
          (w : World),
      exists new,
        execute_emergency_protocol contacts (sim_of canned_voice_command trigger ps) w
        = (Ok tt,
           {| current_symptoms := "i feel a sharp pain in my chest and my arm is numb.";
              symptom_severity := moderate;
              log := (log w ++ new)%list |}) /\
        selection_records new = Evaluating :: probe_log ps /\
        alerted new
        = match fst (select_optimal_hospital ps w) with
          | Ok (Some h) => [h]
          | _ => []
          end /\
        notified new = contacts) /\
  (let run := execute_emergency_protocol Config.EMERGENCY_CONTACTS
                (sim_of canned_voice_command false
                        [probe_of Config.hosp_a true 10 10;
                         probe_of Config.hosp_b true 5 40]) init in
   fst run = Ok tt /\
   symptom_severity (snd run) = moderate /\
   alerted (log (snd run)) = [Config.hosp_b] /\
   selection_records (log (snd run))
   = [Evaluating;
      CheckingAvailability Config.hosp_a; AnalyzingTraffic Config.hosp_a;
      CheckingAvailability Config.hosp_b; AnalyzingTraffic Config.hosp_b] /\
   notified (log (snd run)) = Config.EMERGENCY_CONTACTS).
Proof.
  split; [reflexivity|]. split; [reflexivity|]. split; [reflexivity|].
  split; [reflexivity|]. split; [reflexivity|]. split.
  - intros contacts trigger ps w.
    rewrite execute_emergency_protocol_spec, select_spec. cbv zeta.
    change (voice_command (sim_of canned_voice_command trigger ps))
      with canned_voice_command.
    change (probes (sim_of canned_voice_command trigger ps)) with ps.
    change (str_is_empty canned_voice_command) with false.
    change (classify canned_voice_command)
      with ("i feel a sharp pain in my chest and my arm is numb.", moderate).
    cbn [andb fst snd Severity_eqb].
    assert (Hsel : forall tail,
               selection_records tail = [] ->
               selection_records
                 ([Initiating; Listening; CheckingTriggers;
                   Analyzing canned_voice_command]
                  ++ Evaluating :: probe_log ps ++ tail)
               = Evaluating :: probe_log ps).
    { intros tail Ht. pose proof (selection_records_probe_log ps) as Hp.
      unfold selection_records in *.
      cbn [app filter is_selection_record]. rewrite filter_app, Ht, Hp, app_nil_r.
      reflexivity. }
    destruct (first_best (ranking ps)) as [b|]; cbn [option_map].
    + exists ([Initiating; Listening; CheckingTriggers; Analyzing canned_voice_command]
              ++ Evaluating :: probe_log ps
              ++ SendingAlert (ranked_hospital b) :: map Notifying contacts
              ++ [Completed (ranked_hospital b)])%list.
      split; [tidy_log; reflexivity|]. split; [|split].
      * apply Hsel. apply selection_records_probe_free_tail.
      * cbn [app alerted]. rewrite alerted_app, alerted_probe_log. cbn [app alerted].
        rewrite alerted_app, alerted_notifying. reflexivity.
      * cbn [app notified]. rewrite notified_app, notified_probe_log. cbn [app notified].
        rewrite notified_app, notified_notifying. cbn. apply app_nil_r.
    + exists ([Initiating; Listening; CheckingTriggers; Analyzing canned_voice_command]
              ++ Evaluating :: probe_log ps
              ++ NoAvailableHospital :: map Notifying contacts)%list.
      split; [tidy_log; reflexivity|]. split; [|split].
      * apply Hsel. apply (selection_records_probe_free_tail Config.hosp_a).
      * cbn [app alerted]. rewrite alerted_app, alerted_probe_log. cbn [app alerted].
        apply alerted_notifying.
      * cbn [app notified]. rewrite notified_app, notified_probe_log. cbn [app notified].
        apply notified_notifying.
  - cbv zeta. rewrite execute_emergency_protocol_spec.
    repeat split; reflexivity.
Qed.

(** C9. Every run returns. When no emergency is detected (an empty voice
    input and no automatic trigger) it stops with the warning and notifies
    nobody; in every other run every configured contact is notified, once and
    in the order of the list, whether the run took the critical path, found
    no available hospital, or alerted a hospital. *)
Theorem C9_contacts_notified_unless_no_emergency :
  forall (contacts : list EmergencyContact) (sim : Simulated) (w : World),
    exists new,
      fst (execute_emergency_protocol contacts sim w) = Ok tt /\
      log (snd (execute_emergency_protocol contacts sim w)) = (log w ++ new)%list /\
      if str_is_empty (voice_command sim) && negb (emergency_trigger sim)
      then notified new = [] /\ In NoEmergencyDetected new
      else notified new = contacts /\
           (In CriticalCondition new /\
            snd (classify (voice_command sim)) = critical
            \/ In NoAvailableHospital new /\
               fst (select_optimal_hospital (probes sim) w) = Ok None
            \/ exists h, In (Completed h) new /\ In (SendingAlert h) new /\
                         fst (select_optimal_hospital (probes sim) w) = Ok (Some h)).
Proof.
  intros contacts sim w.
  rewrite execute_emergency_protocol_spec, select_spec. cbv zeta. cbn [fst].
  destruct (str_is_empty (voice_command sim) && negb (emergency_trigger sim)).
  { exists [Initiating; Listening; CheckingTriggers; NoEmergencyDetected].
    split; [reflexivity|]. split; [reflexivity|]. split; [reflexivity|].
    cbn. tauto. }
  destruct (snd (classify (voice_command sim))) eqn:Es; cbn [Severity_eqb].
  - (* "unknown" is not a value of the triage *)
    exfalso. rewrite classify_rules in Es.
    destruct (rule1 (voice_command sim)); [discriminate|].
    destruct (rule2 (voice_command sim)); discriminate.
  - exists ([Initiating; Listening; CheckingTriggers; Analyzing (voice_command sim)]
            ++ CriticalCondition :: map Notifying contacts)%list.
    split; [reflexivity|]. split; [tidy_log; reflexivity|]. split.
    + cbn [app notified]. apply notified_notifying.
    + left. split; [|reflexivity]. cbn. tauto.
  - destruct (first_best (ranking (probes sim))) as [b|]; cbn [option_map].
    + exists ([Initiating; Listening; CheckingTriggers; Analyzing (voice_command sim)]
              ++ Evaluating :: probe_log (probes sim)
              ++ SendingAlert (ranked_hospital b) :: map Notifying contacts
              ++ [Completed (ranked_hospital b)])%list.
      split; [reflexivity|]. split; [tidy_log; reflexivity|]. split.
      * cbn [app notified]. rewrite notified_app, notified_probe_log. cbn [app notified].
        rewrite notified_app, notified_notifying. cbn. apply app_nil_r.
      * right. right. exists (ranked_hospital b). split; [|split; [|reflexivity]].
        -- apply in_or_app. right. right. apply in_or_app. right.
           right. apply in_or_app. right. left. reflexivity.
        -- apply in_or_app. right. right. apply in_or_app. right. left. reflexivity.
    + exists ([Initiating; Listening; CheckingTriggers; Analyzing (voice_command sim)]
              ++ Evaluating :: probe_log (probes sim)
              ++ NoAvailableHospital :: map Notifying contacts)%list.
      split; [reflexivity|]. split; [tidy_log; reflexivity|]. split.
      * cbn [app notified]. rewrite notified_app, notified_probe_log. cbn [app notified].
        apply notified_notifying.
      * right. left. split; [|reflexivity].
        apply in_or_app. right. right. apply in_or_app. right. left. reflexivity.
Qed.

(** * The selection: which hospital wins *)

(** X1. A hospital the selection returns is that of the first available
    hospital of maximum score: it passed the availability check, every
    candidate before it has a strictly smaller score and no candidate after
    it has a greater one. The scores are those the code computes. *)
Theorem X1_selected_is_first_maximum :
  forall (ps : list Probe) (w : World) (h : Hospital),
    fst (select_optimal_hospital ps w) = Ok (Some h) ->
    exists (pre : list Probe) (p : Probe) (post : list Probe),
      candidates ps = (pre ++ p :: post)%list /\
      hospital p = h /\ In p ps /\ available (availability p) = true /\
      probe_score p = Ok (score_of_probe p) /\
      (forall c, In c pre ->
                 probe_score c = Ok (score_of_probe c) /\
                 Py.lt (score_of_probe c) (score_of_probe p) = true) /\
      (forall c, In c post ->
                 probe_score c = Ok (score_of_probe c) /\
                 Py.lt (score_of_probe p) (score_of_probe c) = false).
Proof.
  intros ps w h H.
  destruct (select_returns_first_maximum ps w h H)
    as (pre & p & post & Hc & Hh & Hpre & Hpost).
  exists pre, p, post. split; [assumption|]. split; [assumption|].
  assert (Hin : In p (candidates ps))
    by (rewrite Hc; apply in_or_app; right; left; reflexivity).
  apply filter_In in Hin. destruct Hin as [Hin Ha].
  split; [assumption|]. split; [assumption|].
  split; [apply probe_score_returns|].
  split; intros c Hcin; (split; [apply probe_score_returns|]); auto.
Qed.

Lemma X1_witness :
  exists (pre : list Probe) (p : Probe) (post : list Probe),
    candidates [probe_of Config.hosp_a true 10 10; probe_of Config.hosp_b true 5 40]
    = (pre ++ p :: post)%list /\
    hospital p = Config.hosp_b /\
    In p [probe_of Config.hosp_a true 10 10; probe_of Config.hosp_b true 5 40] /\
    available (availability p) = true /\
    probe_score p = Ok (score_of_probe p) /\
    (forall c, In c pre ->
               probe_score c = Ok (score_of_probe c) /\
               Py.lt (score_of_probe c) (score_of_probe p) = true) /\
    (forall c, In c post ->
               probe_score c = Ok (score_of_probe c) /\
               Py.lt (score_of_probe p) (score_of_probe c) = false).
Proof.
  apply (X1_selected_is_first_maximum
           [probe_of Config.hosp_a true 10 10; probe_of Config.hosp_b true 5 40] init).
  rewrite select_spec. reflexivity.
Defined.

(** X2. The selection never raises, and it asks both sources about every
    hospital of the list, once and in list order, whether the hospital is
    available or not; it leaves the two attributes of the assistant alone;
    the entries it ranks are those of the available hospitals, in list
    order, each with a travel time that is not 0; what it returns is [None]
    or the hospital of one of these entries. *)
Theorem X2_every_hospital_probed_once :
  forall (ps : list Probe) (w : World),
    (exists r : option Hospital,
        fst (select_optimal_hospital ps w) = Ok r /\
        match r with
        | None => True
        | Some h =>
            In h (map hospital (filter (fun p => available (availability p)) ps))
        end) /\
    log (snd (select_optimal_hospital ps w))
    = (log w ++ Evaluating ::
         flat_map (fun p => [CheckingAvailability (hospital p);
                             AnalyzingTraffic (hospital p)]) ps)%list /\
    current_symptoms (snd (select_optimal_hospital ps w)) = current_symptoms w /\
    symptom_severity (snd (select_optimal_hospital ps w)) = symptom_severity w /\
    exists rs,
      fst (visit_all ps [] w) = Ok rs /\
      map ranked_hospital rs
      = map hospital (filter (fun p => available (availability p)) ps) /\
      Forall (fun r => (ranked_travel_time r =? 0) = false) rs.
Proof.
  intros ps w. rewrite select_spec, visit_all_spec. cbn [fst snd].
  split.
  { exists (option_map ranked_hospital (first_best (ranking ps))).
    split; [reflexivity|].
    destruct (first_best (ranking ps)) as [b|] eqn:E; cbn [option_map]; [|exact I].
    apply first_best_In in E. unfold ranking in E. apply in_map_iff in E.
    destruct E as (p & <- & Hp). cbn [ranked_hospital entry_of].
    apply in_map. exact Hp. }
  split; [reflexivity|]. split; [reflexivity|]. split; [reflexivity|].
  exists (ranking ps). split; [reflexivity|]. unfold ranking, candidates.
  split.
  - rewrite map_map. reflexivity.
  - apply Forall_forall. intros r Hr. apply in_map_iff in Hr.
    destruct Hr as (p & <- & _). cbn [ranked_travel_time entry_of].
    apply Z.eqb_neq, avoid_zero_nonzero.
Qed.

Lemma candidates_idempotent ps : candidates (candidates ps) = candidates ps.
Proof.
  unfold candidates. induction ps as [|p ps IH]; [reflexivity|].
  cbn [filter]. destruct (available (availability p)) eqn:E; [|assumption].
  cbn [filter]. rewrite E, IH. reflexivity.
Qed.

(** X3. Hospitals that are not available have no say: the result of the
    selection on a list is its result on the available hospitals of the list
    alone, and a report that says "not available" can be taken out of the
    list, whatever its times, without changing the result. *)
Theorem X3_unavailable_hospitals_are_ignored :
  forall (a b : list Probe) (h : Hospital) (wait : Z) (t : TrafficAnalysis)
         (w w' : World),
    fst (select_optimal_hospital (a ++ b) w)
    = fst (select_optimal_hospital (candidates (a ++ b)) w') /\
    fst (select_optimal_hospital
           (a ++ {| hospital := h;
                    availability := {| available := false; wait_time := wait |};
                    traffic := t |} :: b) w)
    = fst (select_optimal_hospital (a ++ b) w').
Proof.
  intros a b h wait t w w'. rewrite !select_spec. cbn [fst].
  unfold ranking. rewrite candidates_idempotent. split; [reflexivity|].
  unfold candidates. rewrite !filter_app. reflexivity.
Qed.

Lemma SFltb_asym x y : SFltb x y = true -> SFltb y x = false.
Proof.
  intros H. destruct (SFltb y x) eqn:E; [|reflexivity].
  pose proof (SFltb_trans _ _ _ H E) as K. rewrite SFltb_irrefl in K. discriminate.
Qed.

Lemma select_returns_a_maximum ps w h :
  fst (select_optimal_hospital ps w) = Ok (Some h) ->
  exists p, In p (candidates ps) /\ hospital p = h /\
            forall c, In c (candidates ps) ->
                      Py.lt (score_of_probe p) (score_of_probe c) = false.
Proof.
  intros H. destruct (select_returns_first_maximum ps w h H)
    as (pre & p & post & Hc & Hh & Hpre & Hpost).
  exists p. rewrite Hc. split; [apply in_or_app; right; left; reflexivity|].
  split; [assumption|]. intros c Hin. apply in_app_or in Hin.
  destruct Hin as [Hin|[<-|Hin]].
  - apply SFltb_asym. apply Hpre. assumption.
  - apply SFltb_irrefl.
  - apply Hpost. assumption.
Qed.





(** * The protocol: alerts, attributes and the empty input *)

Lemma alerted_prefix voice ps :
  alerted ([Initiating; Listening; CheckingTriggers; Analyzing voice]
           ++ Evaluating :: probe_log ps) = [] /\
  notified ([Initiating; Listening; CheckingTriggers; Analyzing voice]
            ++ Evaluating :: probe_log ps) = [].
Proof. cbn. split; [apply alerted_probe_log|apply notified_probe_log]. Qed.

(** X5. A run alerts at most one hospital. It alerts none when no emergency
    is detected, when the severity is critical and when no hospital is
    available; otherwise it alerts the hospital the selection returns, before
    it notifies anybody, and the record that closes the log names the same
    hospital. *)
Theorem X5_one_alert_before_the_notifications :
  forall (contacts : list EmergencyContact) (sim : Simulated) (w : World),
    exists new,
      log (snd (execute_emergency_protocol contacts sim w)) = (log w ++ new)%list /\
      (alerted new = [] /\
       (str_is_empty (voice_command sim) && negb (emergency_trigger sim) = true \/
        snd (classify (voice_command sim)) = critical \/
        fst (select_optimal_hospital (probes sim) w) = Ok None)
       \/
       exists h before,
         new = (before ++ SendingAlert h :: map Notifying contacts ++ [Completed h])%list /\
         alerted before = [] /\ notified before = [] /\
         alerted new = [h] /\
         fst (select_optimal_hospital (probes sim) w) = Ok (Some h) /\
         snd (classify (voice_command sim)) = moderate /\
         str_is_empty (voice_command sim) && negb (emergency_trigger sim) = false).
Proof.
  intros contacts sim w.
  rewrite execute_emergency_protocol_spec, select_spec. cbv zeta. cbn [fst].
  destruct (str_is_empty (voice_command sim) && negb (emergency_trigger sim)).
  { exists [Initiating; Listening; CheckingTriggers; NoEmergencyDetected].
    split; [reflexivity|]. left. split; [reflexivity|]. left. reflexivity. }
  destruct (snd (classify (voice_command sim))) eqn:Es; cbn [Severity_eqb].
  - exfalso. rewrite classify_rules in Es.
    destruct (rule1 (voice_command sim)); [discriminate|].
    destruct (rule2 (voice_command sim)); discriminate.
  - exists ([Initiating; Listening; CheckingTriggers; Analyzing (voice_command sim)]
            ++ CriticalCondition :: map Notifying contacts)%list.
    split; [tidy_log; reflexivity|]. left. split; [|right; left; reflexivity].
    cbn [app alerted]. apply alerted_notifying.
  - destruct (first_best (ranking (probes sim))) as [b|]; cbn [option_map].
    + exists (([Initiating; Listening; CheckingTriggers; Analyzing (voice_command sim)]
               ++ Evaluating :: probe_log (probes sim))
              ++ SendingAlert (ranked_hospital b) :: map Notifying contacts
              ++ [Completed (ranked_hospital b)])%list.
      split; [tidy_log; reflexivity|]. right.
      exists (ranked_hospital b),
        ([Initiating; Listening; CheckingTriggers; Analyzing (voice_command sim)]
         ++ Evaluating :: probe_log (probes sim))%list.
      destruct (alerted_prefix (voice_command sim) (probes sim)) as [Ha Hn].
      split; [reflexivity|]. split; [assumption|]. split; [assumption|].
      split; [|auto].
      rewrite alerted_app, Ha. cbn [app alerted].
      rewrite alerted_app, alerted_notifying. reflexivity.
    + exists (([Initiating; Listening; CheckingTriggers; Analyzing (voice_command sim)]
               ++ Evaluating :: probe_log (probes sim))
              ++ NoAvailableHospital :: map Notifying contacts)%list.
      split; [tidy_log; reflexivity|]. left. split; [|right; right; reflexivity].
      destruct (alerted_prefix (voice_command sim) (probes sim)) as [Ha Hn].
      rewrite alerted_app, Ha. cbn [app alerted]. apply alerted_notifying.
Qed.

(** X6. What a run leaves in the two attributes. A run that stops because no
    emergency is detected leaves them as they were; any other run stores the
    summary and the severity of the triage of the voice input, and the
    severity it stores is "critical" or "moderate", never "unknown". *)
Theorem X6_attributes_after_a_run :
  forall (contacts : list EmergencyContact) (sim : Simulated) (w : World),
    let w' := snd (execute_emergency_protocol contacts sim w) in
    if str_is_empty (voice_command sim) && negb (emergency_trigger sim)
    then current_symptoms w' = current_symptoms w /\
         symptom_severity w' = symptom_severity w
    else current_symptoms w' = fst (classify (voice_command sim)) /\
         symptom_severity w' = snd (classify (voice_command sim)) /\
         Severity_eqb (symptom_severity w') unknown = false.
Proof.
  intros contacts sim w. cbv zeta.
  rewrite execute_emergency_protocol_spec. cbv zeta.
  destruct (str_is_empty (voice_command sim) && negb (emergency_trigger sim));
    [split; reflexivity|].
  assert (Hu : Severity_eqb (snd (classify (voice_command sim))) unknown = false).
  { rewrite classify_rules. destruct (rule1 (voice_command sim)); [reflexivity|].
    destruct (rule2 (voice_command sim)); reflexivity. }
  destruct (Severity_eqb (snd (classify (voice_command sim))) critical).
  - cbn [snd log_more current_symptoms symptom_severity]. auto.
  - destruct (first_best (ranking (probes sim)));
      cbn [snd log_more current_symptoms symptom_severity]; auto.
Qed.

(** X7. The empty voice input. Without an automatic trigger the run stops
    after the warning: four records, nobody notified. With an automatic
    trigger the run goes on with the empty description: the triage makes it
    moderate with an empty summary, the hospitals are probed, and every
    contact is notified once. *)
Theorem X7_empty_voice_input :
  forall (contacts : list EmergencyContact) (ps : list Probe) (w : World),
    log (snd (execute_emergency_protocol contacts (sim_of "" false ps) w))
    = (log w ++ [Initiating; Listening; CheckingTriggers; NoEmergencyDetected])%list /\
    exists new,
      let w' := snd (execute_emergency_protocol contacts (sim_of "" true ps) w) in
      log w' = (log w ++ new)%list /\
      current_symptoms w' = "" /\ symptom_severity w' = moderate /\
      selection_records new = Evaluating :: probe_log ps /\
      notified new = contacts.
Proof.
  intros contacts ps w. rewrite !execute_emergency_protocol_spec. cbv zeta.
  split; [reflexivity|].
  change (voice_command (sim_of "" true ps)) with "".
  change (probes (sim_of "" true ps)) with ps.
  change (classify "") with ("", moderate).
  cbn [str_is_empty andb negb emergency_trigger sim_of fst snd Severity_eqb].
  assert (Hsel : forall tail,
             selection_records tail = [] ->
             selection_records
               ([Initiating; Listening; CheckingTriggers; Analyzing ""]
                ++ Evaluating :: probe_log ps ++ tail)
             = Evaluating :: probe_log ps).
  { intros tail Ht. pose proof (selection_records_probe_log ps) as Hp.
    unfold selection_records in *.
    cbn [app filter is_selection_record]. rewrite filter_app, Ht, Hp, app_nil_r.
    reflexivity. }
  destruct (first_best (ranking ps)) as [b|].
  - exists ([Initiating; Listening; CheckingTriggers; Analyzing ""]
            ++ Evaluating :: probe_log ps
            ++ SendingAlert (ranked_hospital b) :: map Notifying contacts
            ++ [Completed (ranked_hospital b)])%list.
    split; [tidy_log; reflexivity|]. split; [reflexivity|]. split; [reflexivity|].
    split.
    + apply Hsel. apply selection_records_probe_free_tail.
    + cbn [app notified]. rewrite notified_app, notified_probe_log. cbn [app notified].
      rewrite notified_app, notified_notifying. cbn. apply app_nil_r.
  - exists ([Initiating; Listening; CheckingTriggers; Analyzing ""]
            ++ Evaluating :: probe_log ps
            ++ NoAvailableHospital :: map Notifying contacts)%list.
    split; [tidy_log; reflexivity|]. split; [reflexivity|]. split; [reflexivity|].
    split.
    + apply Hsel. apply (selection_records_probe_free_tail Config.hosp_a).
    + cbn [app notified]. rewrite notified_app, notified_probe_log. cbn [app notified].
      apply notified_notifying.
Qed.

(** * The triage of a summary *)

Lemma lower_char_idempotent c : Py.lower_char (Py.lower_char c) = Py.lower_char c.
Proof.
  destruct c as [b0 b1 b2 b3 b4 b5 b6 b7].
  destruct b0, b1, b2, b3, b4, b5, b6, b7; reflexivity.
Qed.

Lemma lower_idempotent d : Py.lower (Py.lower d) = Py.lower d.
Proof.
  induction d as [|c d IH]; cbn [Py.lower]; [reflexivity|].
  rewrite lower_char_idempotent, IH. reflexivity.
Qed.

(** X8. The triage is stable on its own summaries. The two fixed summaries
    match the rule that produced them, and the summary of the default case is
    already in lower case, so the triage of the summary of a description is
    the triage of the description: same summary, same severity. After a run
    that did not stop at the "no emergency" exit, the triage of the stored
    summary therefore gives back the two stored attributes. *)
Theorem X8_triage_is_stable_on_summaries :
  forall d : string,
    classify (fst (classify d)) = classify d /\
    (forall w, fst (analyze_symptoms (fst (classify d)) w) = Ok (classify d)) /\
    (forall contacts sim w,
        let w' := snd (execute_emergency_protocol contacts sim w) in
        str_is_empty (voice_command sim) && negb (emergency_trigger sim) = true \/
        classify (current_symptoms w') = (current_symptoms w', symptom_severity w')).
Proof.
  assert (Hst : forall d, classify (fst (classify d)) = classify d).
  { intros d. rewrite (classify_rules d).
    destruct (rule1 d) eqn:E1; [reflexivity|].
    destruct (rule2 d) eqn:E2; [reflexivity|].
    cbn [fst]. rewrite classify_rules. unfold rule1, rule2 in *.
    rewrite !lower_idempotent, E1, E2. reflexivity. }
  intros d. split; [apply Hst|]. split.
  - intros w. rewrite analyze_symptoms_spec. cbn [fst]. rewrite Hst. reflexivity.
  - intros contacts sim w. cbv zeta. rewrite execute_emergency_protocol_spec. cbv zeta.
    destruct (str_is_empty (voice_command sim) && negb (emergency_trigger sim));
      [left; reflexivity|right].
    assert (Hw : forall recs1 recs2,
               classify (current_symptoms
                 (log_more {| current_symptoms := fst (classify (voice_command sim));
                              symptom_severity := snd (classify (voice_command sim));
                              log := recs1 |} recs2))
               = (current_symptoms
                    (log_more {| current_symptoms := fst (classify (voice_command sim));
                                 symptom_severity := snd (classify (voice_command sim));
                                 log := recs1 |} recs2),
                  symptom_severity
                    (log_more {| current_symptoms := fst (classify (voice_command sim));
                                 symptom_severity := snd (classify (voice_command sim));
                                 log := recs1 |} recs2))).
    { intros recs1 recs2. cbn [log_more current_symptoms symptom_severity].
      rewrite Hst. destruct (classify (voice_command sim)); reflexivity. }
    destruct (Severity_eqb (snd (classify (voice_command sim))) critical);
      [apply Hw|].
    destruct (first_best (ranking (probes sim))); apply Hw.
Qed.

(** * The prompt of the agent *)

Lemma concat_empty_iff sep (l : list string) :
  str_is_empty sep = false ->
  (str_is_empty (String.concat sep l) = true <-> l = [] \/ l = [""]).
Proof.
  intros Hsep. destruct l as [|x [|y l]]; cbn [String.concat].
  - split; auto.
  - destruct x; cbn [str_is_empty]; split; auto; try discriminate.
    intros [H|H]; discriminate.
  - split.
    + destruct x; cbn [append str_is_empty]; [|discriminate].
      destruct sep; [discriminate|]. cbn. discriminate.
    + intros [H|H]; discriminate.
Qed.

(** X9. The "Known Conditions" line of the prompt is never empty. It is the
    word "None" when the user record has no "conditions" entry, an empty list
    or the one empty condition; for every other list of conditions it is the
    conditions joined with ", ", which for two conditions or more holds the
    separator. *)
Theorem X9_conditions_line_is_never_empty :
  forall (conditions : option (list string)),
    str_is_empty (conditions_line conditions) = false /\
    conditions_line None = "None" /\
    conditions_line (Some []) = "None" /\
    conditions_line (Some [""]) = "None" /\
    (forall l, (l = [] \/ l = [""]) \/
               conditions_line (Some l) = String.concat ", " l) /\
    (forall a b l, conditions_line (Some (a :: b :: l))
                   = (a ++ ", " ++ String.concat ", " (b :: l))%string).
Proof.
  intros conditions. split; [|split; [reflexivity|split; [reflexivity|split;
                                 [reflexivity|split]]]].
  - unfold conditions_line. cbv zeta.
    destruct (str_is_empty (String.concat ", "
                (match conditions with Some l => l | None => [] end))) eqn:E;
      [reflexivity|exact E].
  - intros l. unfold conditions_line. cbv zeta.
    destruct (str_is_empty (String.concat ", " l)) eqn:E; [left|right; reflexivity].
    apply (concat_empty_iff ", " l); [reflexivity|exact E].
  - intros a b l. unfold conditions_line. cbv zeta.
    destruct (str_is_empty (String.concat ", " (a :: b :: l))) eqn:E; [|reflexivity].
    apply (concat_empty_iff ", " (a :: b :: l)) in E; [|reflexivity].
    destruct E as [E|E]; discriminate.
Qed.

(** * Binary64 arithmetic: rounding is monotone *)

Lemma tcode_div A B : 0 < B -> tcode A B / 2 = A / B.
Proof.
  intros HB. unfold tcode. destruct (A mod B =? 0); Z.div_mod_to_equations; lia.
Qed.

(** One more shift halves the unit: the code of [A / (2 B)] from that of [A / B]. *)
Lemma tcode_double A B : 0 < B -> tcode A (2 * B) = halve (tcode A B).
Proof.
  intros HB. unfold halve, tcode.
  rewrite (Z.mul_comm 2 B), <- (Z.div_div A B 2) by lia.
  rewrite (Z.rem_mul_r A B 2) by lia.
  pose proof (Z.mod_pos_bound A B HB) as Hr.
  set (q := A / B) in *. set (r := A mod B) in *. clearbody q r.
  assert (Hq : q mod 2 = 0 \/ q mod 2 = 1) by (pose proof (Z.mod_pos_bound q 2); lia).
  destruct Hq as [Hq|Hq]; rewrite Hq.
  - rewrite Z.mul_0_r, Z.add_0_r.
    destruct (r =? 0) eqn:Er.
    + assert ((2 * q + 0) mod 4 = 0) by (Z.div_mod_to_equations; lia).
      rewrite H. change (0 =? 0) with true. cbv iota. Z.div_mod_to_equations; lia.
    + assert ((2 * q + 1) mod 4 <> 0) by (Z.div_mod_to_equations; lia).
      apply Z.eqb_neq in H. rewrite H. Z.div_mod_to_equations; lia.
  - rewrite Z.mul_1_r.
    assert (Hn : (r + B =? 0) = false) by (apply Z.eqb_neq; lia).
    rewrite Hn.
    destruct (r =? 0) eqn:Er.
    + assert ((2 * q + 0) mod 4 <> 0) by (Z.div_mod_to_equations; lia).
      apply Z.eqb_neq in H. rewrite H. Z.div_mod_to_equations; lia.
    + assert ((2 * q + 1) mod 4 <> 0) by (Z.div_mod_to_equations; lia).
      apply Z.eqb_neq in H. rewrite H. Z.div_mod_to_equations; lia.
Qed.

(** The code grows with the quotient. *)
Lemma tcode_mono A B A' B' :
  0 < B -> 0 < B' -> A * B' <= A' * B -> tcode A B <= tcode A' B'.
Proof.
  intros HB HB' Hle. unfold tcode.
  pose proof (Z.div_mod A B ltac:(lia)) as E.
  pose proof (Z.div_mod A' B' ltac:(lia)) as E'.
  pose proof (Z.mod_pos_bound A B HB) as Hr.
  pose proof (Z.mod_pos_bound A' B' HB') as Hr'.
  set (q := A / B) in *. set (r := A mod B) in *.
  set (q' := A' / B') in *. set (r' := A' mod B') in *.
  assert (Hq : q <= q').
  { destruct (Z_le_gt_dec q q') as [|Hgt]; [assumption|exfalso].
    assert (q' + 1 <= q) by lia.
    assert (A' < B' * (q' + 1)) by lia.
    assert (B' * (q' + 1) <= B' * q) by (apply Z.mul_le_mono_nonneg_l; lia).
    assert (A' * B < B' * q * B) by nia.
    assert (B * q <= A) by lia.
    assert (B * q * B' <= A * B') by (apply Z.mul_le_mono_nonneg_r; lia).
    nia. }
  destruct (Z.eq_dec q q') as [Eq|Nq].
  - destruct (r' =? 0) eqn:Er'; [|destruct (r =? 0); lia].
    apply Z.eqb_eq in Er'.
    assert (r = 0).
    { assert (HA' : A' = B' * q) by lia.
      assert (A * B' <= B * q * B') by (rewrite HA' in Hle; lia).
      assert (A <= B * q) by nia. lia. }
    apply Z.eqb_eq in H. rewrite H. lia.
  - destruct (r =? 0), (r' =? 0); lia.
Qed.

Lemma tcode_scale k A B : 0 < k -> 0 < B -> tcode (k * A) (k * B) = tcode A B.
Proof.
  intros Hk HB. unfold tcode.
  rewrite Z.div_mul_cancel_l by lia. rewrite Z.mul_mod_distr_l by lia.
  destruct (A mod B =? 0) eqn:E.
  - apply Z.eqb_eq in E. rewrite E, Z.mul_0_r. reflexivity.
  - apply Z.eqb_neq in E. assert (k * (A mod B) <> 0) by nia.
    apply Z.eqb_neq in H. rewrite H. reflexivity.
Qed.

Lemma rne_bounds t : t / 4 <= rne t <= t / 4 + 1.
Proof. unfold rne. destruct (_ || _); lia. Qed.

(** Rounding on codes is monotone. *)
Lemma rne_mono t t' : t <= t' -> rne t <= rne t'.
Proof.
  intros H. unfold rne.
  pose proof (Z.div_mod t 4 ltac:(lia)) as E.
  pose proof (Z.div_mod t' 4 ltac:(lia)) as E'.
  pose proof (Z.mod_pos_bound t 4 ltac:(lia)) as Hr.
  pose proof (Z.mod_pos_bound t' 4 ltac:(lia)) as Hr'.
  set (q := t / 4) in *. set (r := t mod 4) in *.
  set (q' := t' / 4) in *. set (r' := t' mod 4) in *.
  destruct (Z.eq_dec q q') as [Eq|Nq].
  - rewrite <- Eq in *.
    destruct (r =? 3) eqn:R3, (r' =? 3) eqn:R3', (r =? 2) eqn:R2, (r' =? 2) eqn:R2',
      (Z.odd q); cbn; lia.
  - destruct ((r =? 3) || (r =? 2) && Z.odd q), ((r' =? 3) || (r' =? 2) && Z.odd q'); lia.
Qed.

Lemma shr_1_rs mrs :
  0 <= shr_m mrs ->
  shr_r (shr_1 mrs) = Z.odd (shr_m mrs) /\
  shr_s (shr_1 mrs) = shr_r mrs || shr_s mrs.
Proof.
  destruct mrs as [m r s]. cbn [shr_m shr_r shr_s]. intros H.
  destruct m as [|[p|p|]|p]; try lia; split; reflexivity.
Qed.

(** [shr_1] on a record is [halve] on its code. *)
Lemma code_shr_1 r : 0 <= shr_m r -> code (shr_1 r) = halve (code r).
Proof.
  intros H. unfold halve, code.
  destruct (shr_1_rs r H) as [-> ->]. rewrite shr_1_m by assumption.
  pose proof (Zmod_odd (shr_m r)) as Ho.
  set (m := shr_m r) in *. clearbody m.
  destruct (shr_r r), (shr_s r), (Z.odd m); cbn [orb];
    match goal with |- context [?a mod 4 =? 0] =>
      let E := fresh in
      destruct (a mod 4 =? 0) eqn:E; [apply Z.eqb_eq in E|apply Z.eqb_neq in E] end;
    Z.div_mod_to_equations; lia.
Qed.

Lemma code_iter p : forall mrs A B,
  0 <= shr_m mrs -> 0 < B -> code mrs = tcode A B ->
  code (SpecFloat.iter_pos shr_1 p mrs) = tcode A (B * 2 ^ Zpos p).
Proof.
  induction p as [p IH|p IH|]; intros mrs A B H HB Hc; simpl SpecFloat.iter_pos.
  - assert (Hp : 0 < 2 ^ Zpos p) by (apply Z.pow_pos_nonneg; lia).
    assert (H1 := shr_1_nonneg _ H).
    assert (H2 : 0 <= shr_m (SpecFloat.iter_pos shr_1 p (shr_1 mrs))).
    { rewrite iter_pos_shr_1 by assumption. apply Z.div_pos; lia. }
    rewrite (IH _ A (2 * B * 2 ^ Zpos p)); [| assumption | lia |].
    + rewrite pow2_xI. f_equal. ring.
    + apply IH; [assumption | lia |].
      rewrite code_shr_1, Hc by assumption. symmetry. apply tcode_double. assumption.
  - assert (Hp : 0 < 2 ^ Zpos p) by (apply Z.pow_pos_nonneg; lia).
    assert (H2 : 0 <= shr_m (SpecFloat.iter_pos shr_1 p mrs)).
    { rewrite iter_pos_shr_1 by assumption. apply Z.div_pos; lia. }
    rewrite (IH _ A (B * 2 ^ Zpos p)); [| assumption | lia |].
    + rewrite pow2_xO. f_equal. ring.
    + apply IH; assumption.
  - rewrite code_shr_1, Hc by assumption. rewrite <- tcode_double by assumption.
    f_equal. change (2 ^ 1) with 2. ring.
Qed.

(** A record that stands for [A / B] stands for [A / (B * 2^n)] after [n] shifts. *)
Lemma code_shr mrs e n A B :
  0 <= shr_m mrs -> 0 <= n -> 0 < B -> code mrs = tcode A B ->
  code (fst (shr mrs e n)) = tcode A (B * 2 ^ n).
Proof.
  intros H Hn HB Hc. destruct n as [|p|p]; cbn [shr fst]; [| |lia].
  - rewrite Z.pow_0_r, Z.mul_1_r. assumption.
  - apply code_iter; assumption.
Qed.

Lemma shr_nonpos mrs e n : n <= 0 -> shr mrs e n = (mrs, e).
Proof. destruct n; [reflexivity|lia|reflexivity]. Qed.

Lemma code_quot mrs : code mrs / 4 = shr_m mrs /\ code mrs mod 4 = (if shr_r mrs then 2 else 0) + (if shr_s mrs then 1 else 0).
Proof.
  unfold code. destruct (shr_r mrs), (shr_s mrs); Z.div_mod_to_equations; lia.
Qed.

Lemma rne_code mrs :
  round_nearest_even (shr_m mrs) (loc_of_shr_record mrs) = rne (code mrs).
Proof.
  unfold rne. destruct (code_quot mrs) as [-> ->].
  destruct mrs as [m r s]. cbn [shr_m shr_r shr_s loc_of_shr_record].
  destruct r, s; cbn; try lia.
  change (IntDef.Z.even m) with (Z.even m).
  rewrite <- Z.negb_odd. destruct (Z.odd m); cbn [negb]; lia.
Qed.

(** [binary_round_aux] from the exact value: the record is shifted to the
    canonical exponent, its code is rounded, a carry moves to the next exponent. *)
Lemma bra_value m e l A B :
  0 <= m -> e <= fexp prec emax (Zdigits2 m + e) -> Zdigits2 m + e <= 1023 ->
  0 < B -> code (shr_record_of_loc m l) = tcode A B ->
  let ec := fexp prec emax (Zdigits2 m + e) in
  let t := tcode A (B * 2 ^ (ec - e)) in
  0 <= t / 4 < 2 ^ 53 /\ (-1074 < ec -> 2 ^ 52 <= t / 4) /\
  binary_round_aux prec emax false m e l = carry (rne t) ec.
Proof.
  intros Hm Hk Hov HB Hc. cbv zeta.
  unfold binary_round_aux, shr_fexp.
  set (D := Zdigits2 m + e) in *.
  assert (Hdm := Zdigits2_nonneg m Hm).
  set (k1 := fexp prec emax D - e) in *.
  assert (Hk1 : 0 <= k1) by (unfold k1; lia).
  destruct (shr_spec (shr_record_of_loc m l) e k1) as [E1 E2];
    [rewrite shr_m_of_loc; lia | lia |].
  pose proof (code_shr (shr_record_of_loc m l) e k1 A B
                ltac:(rewrite shr_m_of_loc; lia) Hk1 HB Hc) as Ec.
  destruct (shr (shr_record_of_loc m l) e k1) as [mrs1 e1].
  cbn [fst snd] in E1, E2, Ec. rewrite shr_m_of_loc in E1.
  assert (Hp1 : 0 < 2 ^ k1) by (apply Z.pow_pos_nonneg; lia).
  rewrite rne_code, Ec.
  destruct (code_quot mrs1) as [Eq _]. rewrite Ec in Eq.
  set (t := tcode A (B * 2 ^ k1)) in *.
  set (m1 := shr_m mrs1) in *.
  assert (Hm1 : 0 <= m1) by (rewrite E1; apply Z.div_pos; lia).
  assert (He1 : e1 = fexp prec emax D) by (unfold k1 in E2; lia).
  pose proof (rne_bounds t) as Hr. rewrite Eq in *.
  set (M := rne t) in *.
  assert (Hcase : (m1 = 0 /\ D <= -1074 /\ e1 = -1074) \/
                  (0 < m1 /\ Zdigits2 m1 + e1 = D /\ -1074 < D)).
  { destruct (Z.eq_dec m1 0) as [Z0|NZ].
    - left. split; [assumption|].
      assert (m < 2 ^ k1) by (apply div_pow2_zero; lia).
      assert (Zdigits2 m <= k1) by (apply Zdigits2_le; lia).
      rewrite fexp64_eq in *. unfold k1, D in *. rewrite fexp64_eq in *. lia.
    - right. split; [lia|].
      assert (2 ^ k1 <= m).
      { destruct (Z_lt_ge_dec m (2 ^ k1)); [|lia].
        rewrite Z.div_small in E1 by lia. lia. }
      assert (Zdigits2 m1 = Zdigits2 m - k1) by (rewrite E1; apply Zdigits2_div_pow2; lia).
      assert (k1 + 1 <= Zdigits2 m) by (apply Zdigits2_ge; lia).
      rewrite fexp64_eq in *. unfold k1, D in *. rewrite fexp64_eq in *. lia. }
  assert (Hlt : m1 < 2 ^ 53).
  { destruct Hcase as [(-> & _)|(Hpos & Hd & Hgt)]; [reflexivity|].
    destruct (Zdigits2_bounds m1 Hpos) as [_ [_ Hub]].
    eapply Z.lt_le_trans; [exact Hub|]. apply Z.pow_le_mono_r; [lia|].
    rewrite He1, fexp64_eq in Hd. lia. }
  assert (Hnorm : -1074 < e1 -> 2 ^ 52 <= m1).
  { intros Hn. destruct Hcase as [(_ & _ & He)|(Hpos & Hd & Hgt)]; [lia|].
    destruct (Zdigits2_bounds m1 Hpos) as [_ [Hlb _]].
    eapply Z.le_trans; [|exact Hlb]. apply Z.pow_le_mono_r; [lia|].
    rewrite He1, fexp64_eq in *. lia. }
  split; [lia|]. split; [rewrite <- He1; exact Hnorm|].
  rewrite <- He1.
  assert (He1b : -1074 <= e1 <= 970) by (rewrite He1, fexp64_eq; lia).
  destruct (Z.eq_dec M (2 ^ 53)) as [Ec53|Nc53].
  - (* the carry *)
    rewrite Ec53.
    replace (fexp prec emax (Zdigits2 (2 ^ 53) + e1) - e1) with 1
      by (rewrite fexp64_eq; change (Zdigits2 (2 ^ 53)) with 54; lia).
    cbn [shr SpecFloat.iter_pos shr_record_of_loc].
    change (emax - prec) with 971.
    replace (e1 + 1 <=? 971) with true by (symmetry; apply Z.leb_le; lia).
    reflexivity.
  - assert (HM : 0 <= M < 2 ^ 53) by lia.
    assert (Hd : Zdigits2 M <= 53) by (apply Zdigits2_le; lia).
    rewrite shr_nonpos by (rewrite fexp64_eq; lia).
    cbn [shr_m shr_record_of_loc].
    unfold carry. destruct M as [|p|p]; [reflexivity| |lia].
    apply Z.eqb_neq in Nc53. rewrite Nc53.
    change (emax - prec) with 971.
    replace (e1 <=? 971) with true by (symmetry; apply Z.leb_le; lia).
    reflexivity.
Qed.

Lemma SFleb_zero_carry M ec : SFleb (S754_zero false) (carry M ec) = true.
Proof. unfold carry. destruct M; [reflexivity| |reflexivity]. destruct (_ =? _); reflexivity. Qed.

(** The order of two rounded results. *)
Lemma carry_le M1 ec1 M2 ec2 :
  0 <= M1 <= 2 ^ 53 -> 0 <= M2 <= 2 ^ 53 ->
  (ec1 = ec2 /\ M1 <= M2) \/ (ec1 < ec2 /\ 2 ^ 52 <= M2) ->
  SFleb (carry M1 ec1) (carry M2 ec2) = true.
Proof.
  intros H1 H2 H.
  assert (P52 : 0 < 2 ^ 52) by (apply Z.pow_pos_nonneg; lia).
  assert (P53 : 2 ^ 53 = 2 * 2 ^ 52) by reflexivity.
  destruct M1 as [|p1|p1]; [apply SFleb_zero_carry| |lia].
  destruct M2 as [|p2|p2]; [lia| |lia].
  unfold carry.
  assert (Hto : Zpos (Z.to_pos (2 ^ 52)) = 2 ^ 52) by (apply Z2Pos.id; assumption).
  destruct (Z.eqb_spec (Z.pos p1) (2 ^ 53)) as [E1|E1];
    destruct (Z.eqb_spec (Z.pos p2) (2 ^ 53)) as [E2|E2];
    rewrite SFleb_finite_pos.
  - destruct (Z.compare_spec (ec1 + 1) (ec2 + 1)); [apply Pos.leb_refl|reflexivity|lia].
  - destruct (Z.compare_spec (ec1 + 1) ec2); [|reflexivity|lia].
    rewrite Pos2Z.inj_leb, Hto. apply Z.leb_le. lia.
  - destruct (Z.compare_spec ec1 (ec2 + 1)); [lia|reflexivity|lia].
  - destruct (Z.compare_spec ec1 ec2); [|reflexivity|lia].
    rewrite Pos2Z.inj_leb. apply Z.leb_le. lia.
Qed.

Lemma tcode_quarter A B : 0 < B -> tcode A B / 4 = A / (2 * B).
Proof.
  intros HB. replace 4 with (2 * 2) by reflexivity.
  rewrite <- Z.div_div by lia. rewrite tcode_div by assumption.
  rewrite Z.div_div by lia. f_equal. lia.
Qed.

(** Rounding is monotone: of two inputs that stand for [N1 / D1] and
    [N2 / D2] in units of [2^(-b)], the one of smaller value has the smaller
    rounding. *)
Lemma round_mono b m1 e1 l1 N1 D1 m2 e2 l2 N2 D2 :
  0 <= m1 -> e1 <= fexp prec emax (Zdigits2 m1 + e1) -> Zdigits2 m1 + e1 <= 1023 ->
  0 <= m2 -> e2 <= fexp prec emax (Zdigits2 m2 + e2) -> Zdigits2 m2 + e2 <= 1023 ->
  0 < D1 -> 0 < D2 -> 0 <= e1 - 1 + b -> 0 <= e2 - 1 + b ->
  code (shr_record_of_loc m1 l1) = tcode N1 (D1 * 2 ^ (e1 - 1 + b)) ->
  code (shr_record_of_loc m2 l2) = tcode N2 (D2 * 2 ^ (e2 - 1 + b)) ->
  N1 * D2 <= N2 * D1 ->
  SFleb (binary_round_aux prec emax false m1 e1 l1)
        (binary_round_aux prec emax false m2 e2 l2) = true.
Proof.
  intros Hm1 Hk1 Ho1 Hm2 Hk2 Ho2 HD1 HD2 Hb1 Hb2 Hc1 Hc2 Hle.
  assert (Hp1 : 0 < 2 ^ (e1 - 1 + b)) by (apply Z.pow_pos_nonneg; lia).
  assert (Hp2 : 0 < 2 ^ (e2 - 1 + b)) by (apply Z.pow_pos_nonneg; lia).
  destruct (bra_value m1 e1 l1 N1 (D1 * 2 ^ (e1 - 1 + b)) Hm1 Hk1 Ho1 ltac:(nia) Hc1)
    as (B1 & Nm1 & ->).
  destruct (bra_value m2 e2 l2 N2 (D2 * 2 ^ (e2 - 1 + b)) Hm2 Hk2 Ho2 ltac:(nia) Hc2)
    as (B2 & Nm2 & ->).
  set (ec1 := fexp prec emax (Zdigits2 m1 + e1)) in *.
  set (ec2 := fexp prec emax (Zdigits2 m2 + e2)) in *.
  assert (Hec1 : -1074 <= ec1) by (unfold ec1; rewrite fexp64_eq; lia).
  assert (Hec2 : -1074 <= ec2) by (unfold ec2; rewrite fexp64_eq; lia).
  rewrite <- Z.mul_assoc, <- Z.pow_add_r in B1, Nm1 |- * by lia.
  rewrite <- (Z.mul_assoc D2), <- Z.pow_add_r in B2, Nm2 |- * by lia.
  replace (e1 - 1 + b + (ec1 - e1)) with (ec1 - 1 + b) in * by lia.
  replace (e2 - 1 + b + (ec2 - e2)) with (ec2 - 1 + b) in * by lia.
  set (p1 := 2 ^ (ec1 - 1 + b)) in *. set (p2 := 2 ^ (ec2 - 1 + b)) in *.
  assert (Hq1 : 0 < p1) by (apply Z.pow_pos_nonneg; lia).
  assert (Hq2 : 0 < p2) by (apply Z.pow_pos_nonneg; lia).
  set (t1 := tcode N1 (D1 * p1)) in *. set (t2 := tcode N2 (D2 * p2)) in *.
  pose proof (rne_bounds t1) as R1. pose proof (rne_bounds t2) as R2.
  assert (P53 : 2 ^ 53 = 2 * 2 ^ 52) by reflexivity.
  assert (P52 : 0 < 2 ^ 52) by (apply Z.pow_pos_nonneg; lia).
  apply carry_le; [lia|lia|].
  destruct (Z.compare_spec ec1 ec2) as [E|L|G].
  - left. split; [assumption|]. apply rne_mono. unfold t1, t2, p1, p2. rewrite E.
    fold p2. apply tcode_mono; [nia|nia|].
    rewrite !Z.mul_assoc. apply Z.mul_le_mono_nonneg_r; lia.
  - right. split; [assumption|]. lia.
  - exfalso.
    assert (Hn1 : 2 ^ 52 <= t1 / 4) by (apply Nm1; lia).
    unfold t1 in Hn1. rewrite tcode_quarter in Hn1 by nia.
    destruct B2 as [_ B2]. unfold t2 in B2. rewrite tcode_quarter in B2 by nia.
    assert (Hpp : 2 * p2 <= p1).
    { unfold p1. replace (ec1 - 1 + b) with ((ec1 - ec2) + (ec2 - 1 + b)) by lia.
      rewrite (Z.pow_add_r 2 (ec1 - ec2)) by lia. fold p2.
      assert (2 ^ 1 <= 2 ^ (ec1 - ec2)) by (apply Z.pow_le_mono_r; lia).
      change (2 ^ 1) with 2 in *. nia. }
    assert (L1 : 2 * (D1 * p1) * 2 ^ 52 <= N1).
    { pose proof (Z.mul_div_le N1 (2 * (D1 * p1)) ltac:(nia)). 
      etransitivity; [|exact H].
      apply Z.mul_le_mono_nonneg_l; [nia|assumption]. }
    assert (L2 : N2 < 2 * (D2 * p2) * 2 ^ 53).
    { pose proof (Z.mod_pos_bound N2 (2 * (D2 * p2)) ltac:(nia)).
      pose proof (Z.div_mod N2 (2 * (D2 * p2)) ltac:(nia)).
      assert (N2 / (2 * (D2 * p2)) + 1 <= 2 ^ 53) by lia.
      assert (2 * (D2 * p2) * (N2 / (2 * (D2 * p2)) + 1) <= 2 * (D2 * p2) * 2 ^ 53)
        by (apply Z.mul_le_mono_nonneg_l; [nia|assumption]).
      lia. }
    set (c := 2 ^ 52) in *.
    assert (N2 * D1 < 2 * (D2 * p2) * (2 * c) * D1) by (rewrite <- P53; nia).
    assert (2 * (D1 * (2 * p2)) * c * D2 <= N1 * D2).
    { apply Z.mul_le_mono_nonneg_r; [lia|].
      etransitivity; [|exact L1].
      apply Z.mul_le_mono_nonneg_r; [lia|].
      apply Z.mul_le_mono_nonneg_l; [lia|]. apply Z.mul_le_mono_nonneg_l; lia. }
    lia.
Qed.

Lemma tcode_rem q r p :
  0 <= r < p ->
  tcode (2 * (p * q + r)) p =
  4 * q + (if r =? 0 then 0 else if 2 * r <? p then 1 else if 2 * r =? p then 2 else 3).
Proof.
  intros Hr. unfold tcode.
  destruct (Z.eqb_spec r 0) as [R0|R0].
  - subst r. replace (2 * (p * q + 0)) with (2 * q * p) by ring.
    rewrite Z.div_mul, Z.mod_mul by lia. change (0 =? 0) with true. cbv iota. lia.
  - destruct (Z.ltb_spec (2 * r) p) as [L|L].
    + rewrite <- (Z.div_unique (2 * (p * q + r)) p (2 * q) (2 * r)) by lia.
      rewrite <- (Z.mod_unique (2 * (p * q + r)) p (2 * q) (2 * r)) by lia.
      destruct (Z.eqb_spec (2 * r) 0); lia.
    + rewrite <- (Z.div_unique (2 * (p * q + r)) p (2 * q + 1) (2 * r - p)) by lia.
      rewrite <- (Z.mod_unique (2 * (p * q + r)) p (2 * q + 1) (2 * r - p)) by lia.
      destruct (Z.eqb_spec (2 * r) p), (Z.eqb_spec (2 * r - p) 0); lia.
Qed.

(** The quotient and the location [SFdiv_core_binary] computes for [1 / p]
    stand for the exact quotient. *)
Lemma div_core_code (p : positive) :
  let '(q, e', l) := SFdiv_core_binary prec emax 1 0 (Zpos p) 0 in
  -1074 <= e' <= -53 /\ code (shr_record_of_loc q l) = tcode (2 * 2 ^ (- e')) (Zpos p).
Proof.
  unfold SFdiv_core_binary.
  change (Zdigits2 1) with 1.
  destruct (Zdigits2_bounds (Zpos p)) as (H1 & H2 & H3); [lia|].
  set (d2 := Zdigits2 (Zpos p)) in *.
  replace (1 + 0 - (d2 + 0)) with (1 - d2) by lia.
  assert (He : Z.min (fexp prec emax (1 - d2)) (0 - 0) = fexp prec emax (1 - d2))
    by (rewrite fexp64_eq; lia).
  rewrite He.
  set (e' := fexp prec emax (1 - d2)) in *.
  assert (Hneg : -1074 <= e' <= -53) by (unfold e'; rewrite fexp64_eq; lia).
  replace (0 - 0 - e') with (- e') by lia.
  destruct (- e') as [|k|k] eqn:Es; try lia.
  rewrite Z.shiftl_1_l.
  pose proof (Z_div_mod (2 ^ Zpos k) (Zpos p) ltac:(lia)) as Hdiv.
  destruct (Z.div_eucl (2 ^ Zpos k) (Zpos p)) as [q r].
  destruct Hdiv as [Hq Hr].
  split; [assumption|].
  rewrite Es, Hq, tcode_rem by lia.
  unfold new_location.
  destruct (Z.even (Z.pos p)) eqn:Ev; unfold new_location_even, new_location_odd.
  - destruct (Z.eqb_spec r 0) as [R0|R0];
      [unfold code; cbn [shr_record_of_loc shr_m shr_r shr_s]; lia|].
    destruct (Z.compare_spec (2 * r) (Z.pos p)) as [E|L|G];
      unfold code; cbn [shr_record_of_loc shr_m shr_r shr_s];
      destruct (Z.ltb_spec (2 * r) (Z.pos p)); destruct (Z.eqb_spec (2 * r) (Z.pos p)); lia.
  - destruct (Z.eqb_spec r 0) as [R0|R0];
      [unfold code; cbn [shr_record_of_loc shr_m shr_r shr_s]; lia|].
    assert (Hne : 2 * r <> Z.pos p).
    { intros E. rewrite <- E, Z.even_mul in Ev. discriminate. }
    destruct (Z.compare_spec (2 * r + 1) (Z.pos p)) as [E|L|G];
      unfold code; cbn [shr_record_of_loc shr_m shr_r shr_s];
      destruct (Z.ltb_spec (2 * r) (Z.pos p)); destruct (Z.eqb_spec (2 * r) (Z.pos p)); lia.
Qed.

(** The reciprocal of a greater integer is not greater. *)
Lemma reciprocal_mono a b :
  1 <= a <= b -> SFleb (reciprocal b) (reciprocal a) = true.
Proof.
  intros [Ha Hab].
  destruct a as [|pa|pa]; try lia. destruct b as [|pb|pb]; try lia.
  unfold reciprocal, SF64div, SFdiv, Py.exact_of_int.
  pose proof (div_core_one_facts pa) as Fa. pose proof (div_core_code pa) as Ca.
  pose proof (div_core_one_facts pb) as Fb. pose proof (div_core_code pb) as Cb.
  destruct (SFdiv_core_binary prec emax 1 0 (Zpos pa) 0) as [[qa ea] la].
  destruct (SFdiv_core_binary prec emax 1 0 (Zpos pb) 0) as [[qb eb] lb].
  destruct Fa as (Hqa & Hpa & Hda & _ & _). destruct Ca as (Hea & Hca).
  destruct Fb as (Hqb & Hpb & Hdb & _ & _). destruct Cb as (Heb & Hcb).
  cbn [xorb].
  assert (Hs : forall e p, -1074 <= e <= -53 ->
             tcode (2 * 2 ^ (- e)) (Zpos p) = tcode (2 ^ 1076) (Zpos p * 2 ^ (e - 1 + 1076))).
  { intros e p He.
    assert (0 < 2 ^ (e - 1 + 1076)) by (apply Z.pow_pos_nonneg; lia).
    rewrite <- (tcode_scale (2 ^ (e - 1 + 1076))) by lia.
    f_equal; [|ring].
    replace (2 * 2 ^ (- e)) with (2 ^ (1 - e))
      by (replace (1 - e) with (1 + - e) by lia; rewrite Z.pow_add_r by lia; reflexivity).
    rewrite <- Z.pow_add_r by lia. f_equal. lia. }
  rewrite Hs in Hca, Hcb by assumption.
  assert (0 < 2 ^ 1076) by (apply Z.pow_pos_nonneg; lia).
  apply (round_mono 1076 qb eb lb (2 ^ 1076) (Zpos pb) qa ea la (2 ^ 1076) (Zpos pa));
    try assumption; lia.
Qed.

Lemma exact_code m e b :
  0 <= e - 1 + b ->
  code (shr_record_of_loc m loc_Exact) = tcode (m * 2 ^ (e + b)) (1 * 2 ^ (e - 1 + b)).
Proof.
  intros Hb.
  assert (0 < 2 ^ (e - 1 + b)) by (apply Z.pow_pos_nonneg; lia).
  replace (e + b) with (1 + (e - 1 + b)) by lia.
  rewrite Z.pow_add_r by lia. change (2 ^ 1) with 2.
  replace (m * (2 * 2 ^ (e - 1 + b))) with (2 ^ (e - 1 + b) * (2 * m)) by ring.
  rewrite (Z.mul_comm 1), tcode_scale by lia.
  unfold tcode, code. cbn [shr_record_of_loc shr_m shr_r shr_s].
  rewrite Z.div_1_r, Z.mod_1_r. change (0 =? 0) with true. cbv iota. lia.
Qed.

Lemma rounds_mono b V1 V2 r1 r2 :
  rounds b V1 r1 -> rounds b V2 r2 -> V1 <= V2 -> SFleb r1 r2 = true.
Proof.
  intros (m1 & e1 & A1 & A2 & A3 & A4 & A5 & ->) (m2 & e2 & B1 & B2 & B3 & B4 & B5 & ->) H.
  apply (round_mono b m1 e1 loc_Exact V1 1 m2 e2 loc_Exact V2 1); try assumption; try lia.
  - rewrite <- A5. apply exact_code. assumption.
  - rewrite <- B5. apply exact_code. assumption.
Qed.

Lemma canon_digits m e :
  canon_finite false (S754_finite false m e) ->
  -1074 <= e /\ Zdigits2 (Zpos m) <= 53 /\ (-1074 < e -> Zdigits2 (Zpos m) = 53).
Proof.
  intros [_ H]. rewrite fexp64_eq in H. lia.
Qed.

Lemma le_pow2_digits K m e :
  le_pow2 K (S754_finite false m e) -> Zdigits2 (Zpos m) + e <= K + 1.
Proof.
  intros [He Hm].
  assert (Zdigits2 (Zpos m) <= K - e + 1); [|lia].
  apply Zdigits2_le; try lia. rewrite Z.pow_add_r by lia.
  assert (0 < 2 ^ (K - e)) by (apply Z.pow_pos_nonneg; lia). lia.
Qed.

(** Rounding a float that is already canonical gives it back. *)
Lemma bra_canon m e :
  canon_finite false (S754_finite false m e) -> Zdigits2 (Zpos m) + e <= 1023 ->
  binary_round_aux prec emax false (Zpos m) e loc_Exact = S754_finite false m e.
Proof.
  intros Hc Hov. pose proof (canon_digits m e Hc) as (He & Hd & _).
  destruct Hc as [_ Hc].
  destruct (bra_value (Zpos m) e loc_Exact (2 * Zpos m) 1) as (_ & _ & ->);
    try lia.
  - unfold tcode, code. cbn [shr_record_of_loc shr_m shr_r shr_s].
    rewrite Z.div_1_r, Z.mod_1_r. change (0 =? 0) with true. cbv iota. lia.
  - rewrite <- Hc, Z.sub_diag, Z.pow_0_r.
    unfold tcode. rewrite Z.div_1_r, Z.mod_1_r. change (0 =? 0) with true. cbv iota.
    replace (rne (2 * (2 * Z.pos m) + 0)) with (Zpos m).
    + unfold carry.
      destruct (Z.eqb_spec (Z.pos m) (2 ^ 53)) as [E|E]; [|reflexivity].
      rewrite E in Hd. change (Zdigits2 (2 ^ 53)) with 54 in Hd. lia.
    + unfold rne.
      replace ((2 * (2 * Z.pos m) + 0) / 4) with (Zpos m) by (Z.div_mod_to_equations; lia).
      replace ((2 * (2 * Z.pos m) + 0) mod 4) with 0 by (Z.div_mod_to_equations; lia).
      cbn [Z.eqb orb andb]. lia.
Qed.

Lemma rounds_zero b V : 1075 <= b -> V = 0 -> rounds b V (S754_zero false).
Proof.
  intros Hb ->. exists 0, (-1074). repeat split; try lia.
  - rewrite fexp64_eq. cbn. lia.
  - cbn. lia.
Qed.

Lemma rounds_canon b K x :
  canon_finite false x -> le_pow2 K x -> K <= 1022 -> 1075 <= b ->
  rounds b (scaled b x) x.
Proof.
  intros Hc Hle HK Hb. destruct x as [s|s| |s m e]; unfold canon_finite in Hc; try tauto.
  - subst s. apply rounds_zero; [assumption|reflexivity].
  - destruct Hc as [-> Hc].
    pose proof (canon_digits m e (conj eq_refl Hc)) as (He & Hd & _).
    pose proof (le_pow2_digits K m e Hle).
    exists (Zpos m), e. split; [lia|]. split; [lia|]. split; [lia|]. split; [lia|].
    split; [reflexivity|]. symmetry. apply bra_canon; [split; [reflexivity|assumption]|lia].
Qed.

Lemma scaled_nonneg b x : 0 <= scaled b x.
Proof.
  destruct x as [s|s| |[] m e]; cbn [scaled]; lia.
Qed.

Lemma scaled_le_pow2 b K x :
  le_pow2 K x -> canon_finite false x -> 1074 <= b -> scaled b x <= 2 ^ (K + b).
Proof.
  intros Hle Hc Hb. destruct x as [s|s| |s m e]; unfold canon_finite in Hc; try tauto.
  - cbn [scaled]. apply Z.pow_nonneg. lia.
  - destruct Hc as [-> Hc]. pose proof (canon_digits m e (conj eq_refl Hc)) as (He & _).
    destruct Hle as [HeK HmK]. cbn [scaled].
    replace (K + b) with ((K - e) + (e + b)) by lia.
    rewrite (Z.pow_add_r 2 (K - e)) by lia.
    apply Z.mul_le_mono_nonneg_r; [apply Z.pow_nonneg; lia|assumption].
Qed.

(** The order of two canonical floats is the order of their values. *)
Lemma canon_le_scaled b x y :
  canon_finite false x -> canon_finite false y -> 1074 <= b ->
  SFleb x y = true -> scaled b x <= scaled b y.
Proof.
  intros Hx Hy Hb H.
  destruct x as [sx|sx| |sx mx ex]; unfold canon_finite in Hx; try tauto.
  - apply scaled_nonneg.
  - destruct Hx as [-> Hx].
    destruct y as [sy|sy| |sy my ey]; unfold canon_finite in Hy; try tauto.
    + discriminate H.
    + destruct Hy as [-> Hy].
      pose proof (canon_digits mx ex (conj eq_refl Hx)) as (Hex & Hdx & _).
      pose proof (canon_digits my ey (conj eq_refl Hy)) as (Hey & Hdy & Hny).
      rewrite SFleb_finite_pos in H. cbn [scaled].
      destruct (Z.compare_spec ex ey) as [E|L|G]; [| |discriminate].
      * subst ey. apply Z.mul_le_mono_nonneg_r; [apply Z.pow_nonneg; lia|].
        apply Pos.leb_le in H. lia.
      * clear H.
        destruct (Zdigits2_bounds (Zpos mx)) as (_ & _ & Ux); [lia|].
        destruct (Zdigits2_bounds (Zpos my)) as (_ & Ly & _); [lia|].
        rewrite (Hny ltac:(lia)) in Ly. change (2 ^ (53 - 1)) with (2 ^ 52) in Ly.
        assert (Ux' : Zpos mx < 2 ^ 53).
        { eapply Z.lt_le_trans; [exact Ux|]. apply Z.pow_le_mono_r; lia. }
        assert (P53 : 2 ^ 53 = 2 * 2 ^ 52) by reflexivity.
        assert (Hpp : 2 * 2 ^ (ex + b) <= 2 ^ (ey + b)).
        { replace (ey + b) with ((ey - ex) + (ex + b)) by lia.
          rewrite (Z.pow_add_r 2 (ey - ex)) by lia.
          assert (2 ^ 1 <= 2 ^ (ey - ex)) by (apply Z.pow_le_mono_r; lia).
          change (2 ^ 1) with 2 in *.
          assert (0 < 2 ^ (ex + b)) by (apply Z.pow_pos_nonneg; lia). nia. }
        assert (0 < 2 ^ (ex + b)) by (apply Z.pow_pos_nonneg; lia).
        set (c := 2 ^ 52) in *.
        transitivity (2 * c * 2 ^ (ex + b)); [nia|].
        transitivity (c * 2 ^ (ey + b)); [nia|].
        apply Z.mul_le_mono_nonneg_r; lia.
Qed.

(** The product with a 53-bit constant rounds the exact product. *)
Lemma rounds_mul b (mc : positive) (ec K : Z) (y : spec_float) :
  Zdigits2 (Zpos mc) = 53 ->
  canon_finite false y -> le_pow2 K y -> K + 53 + ec <= 1023 ->
  1075 <= b -> 1075 <= b + ec ->
  rounds b (Zpos mc * scaled (b + ec) y) (SF64mul (S754_finite false mc ec) y).
Proof.
  intros Hc Hcan Hle HK Hb Hbe.
  destruct y as [sy|sy| |sy my ey]; unfold canon_finite in Hcan; try tauto.
  - subst sy. apply rounds_zero; [assumption|]. cbn [scaled]. lia.
  - destruct Hcan as [-> Hcan].
    pose proof (canon_digits my ey (conj eq_refl Hcan)) as (Hey & Hdy & _).
    destruct Hle as [HeK HmK].
    unfold SF64mul, SFmul. cbn [xorb]. rewrite Pos2Z.inj_mul.
    pose proof (Zdigits2_mul_bounds (Zpos mc) (Zpos my) ltac:(lia) ltac:(lia)) as [Hlo Hhi].
    destruct (Zdigits2_bounds (Zpos my)) as (Y1 & Y2 & Y3); [lia|].
    destruct (Zdigits2_bounds (Zpos mc)) as (C1 & C2 & C3); [lia|].
    rewrite Hc in *.
    assert (Hup : Zdigits2 (Zpos mc * Zpos my) + (ec + ey) <= K + 53 + ec).
    { assert (Zdigits2 (Zpos mc * Zpos my) <= 53 + (K - ey)); [|lia].
      apply Zdigits2_le; try lia. rewrite Z.pow_add_r by lia.
      assert (0 < 2 ^ (K - ey)) by (apply Z.pow_pos_nonneg; lia). nia. }
    assert (Hpre : ec + ey <= fexp prec emax (Zdigits2 (Zpos mc * Zpos my) + (ec + ey)))
      by (rewrite fexp64_eq; lia).
    exists (Zpos mc * Zpos my), (ec + ey).
    split; [lia|]. split; [assumption|]. split; [lia|]. split; [lia|].
    split; [|reflexivity].
    cbn [scaled]. replace (ec + ey + b) with (ey + (b + ec)) by lia. ring.
Qed.

Lemma mul_mono (mc : positive) (ec K : Z) (y y' : spec_float) :
  Zdigits2 (Zpos mc) = 53 -> -100 <= ec ->
  canon_finite false y -> canon_finite false y' ->
  le_pow2 K y -> le_pow2 K y' -> K + 53 + ec <= 1023 ->
  SFleb y y' = true ->
  SFleb (SF64mul (S754_finite false mc ec) y) (SF64mul (S754_finite false mc ec) y') = true.
Proof.
  intros Hc Hec Hy Hy' Ky Ky' HK H.
  apply (rounds_mono 1200 (Zpos mc * scaled (1200 + ec) y) (Zpos mc * scaled (1200 + ec) y')).
  - apply (rounds_mul 1200 mc ec K); try assumption; lia.
  - apply (rounds_mul 1200 mc ec K); try assumption; lia.
  - apply Z.mul_le_mono_nonneg_l; [lia|].
    apply canon_le_scaled; try assumption; lia.
Qed.

Lemma mag_of_scaled b J m e :
  0 <= e + b -> 0 <= J + b -> Zpos m * 2 ^ (e + b) <= 2 ^ (J + b) ->
  Zdigits2 (Zpos m) + e <= J + 1.
Proof.
  intros He HJ H.
  assert (0 < 2 ^ (e + b)) by (apply Z.pow_pos_nonneg; lia).
  destruct (Z_le_gt_dec e J) as [L|G].
  - assert (Zdigits2 (Zpos m) <= J - e + 1); [|lia].
    apply Zdigits2_le; try lia.
    replace (J + b) with ((J - e) + (e + b)) in H by lia.
    rewrite (Z.pow_add_r 2 (J - e)) in H by lia.
    assert (Zpos m <= 2 ^ (J - e)) by nia.
    rewrite Z.pow_add_r by lia. change (2 ^ 1) with 2.
    assert (0 < 2 ^ (J - e)) by (apply Z.pow_pos_nonneg; lia). lia.
  - exfalso.
    assert (2 ^ (J + b) < 2 ^ (e + b)) by (apply Z.pow_lt_mono_r; lia).
    nia.
Qed.

(** The sum of two non-negative floats rounds the exact sum. *)
Lemma rounds_add b K x y :
  canon_finite false x -> canon_finite false y ->
  le_pow2 K x -> le_pow2 K y -> -1074 <= K <= 1021 -> 1075 <= b ->
  rounds b (scaled b x + scaled b y) (SF64add x y).
Proof.
  intros Hx Hy Kx Ky HK Hb.
  destruct x as [sx|sx| |sx mx ex]; unfold canon_finite in Hx; try tauto.
  - subst sx.
    destruct y as [sy|sy| |sy my ey]; unfold canon_finite in Hy; try tauto.
    + subst sy. apply rounds_zero; [assumption|reflexivity].
    + destruct Hy as [-> Hy]. cbn [SF64add SFadd].
      change (scaled b (S754_zero false)) with 0. rewrite Z.add_0_l.
      apply (rounds_canon b K); [split; [reflexivity|assumption]|assumption|lia|assumption].
  - destruct Hx as [-> Hx].
    destruct y as [sy|sy| |sy my ey]; unfold canon_finite in Hy; try tauto.
    + subst sy. cbn [SF64add SFadd].
      change (scaled b (S754_zero false)) with 0. rewrite Z.add_0_r.
      apply (rounds_canon b K); [split; [reflexivity|assumption]|assumption|lia|assumption].
    + destruct Hy as [-> Hy].
      pose proof (canon_digits mx ex (conj eq_refl Hx)) as (Hex & _).
      pose proof (canon_digits my ey (conj eq_refl Hy)) as (Hey & _).
      pose proof (scaled_le_pow2 b K _ Kx (conj eq_refl Hx) ltac:(lia)) as Sx.
      pose proof (scaled_le_pow2 b K _ Ky (conj eq_refl Hy) ltac:(lia)) as Sy.
      cbn [scaled] in *.
      destruct (add_finite_eq mx ex my ey) as (M & HM & ->).
      set (ez := Z.min ex ey) in *.
      assert (Hez : -1074 <= ez) by (unfold ez; lia).
      assert (HV : Zpos M * 2 ^ (ez + b) = Zpos mx * 2 ^ (ex + b) + Zpos my * 2 ^ (ey + b)).
      { rewrite HM, Z.mul_add_distr_r, <- !Z.mul_assoc, <- !Z.pow_add_r by (unfold ez; lia).
        f_equal; f_equal; f_equal; lia. }
      assert (HD : Zdigits2 (Zpos M) + ez <= K + 2).
      { replace (K + 2) with (K + 1 + 1) by lia.
        apply (mag_of_scaled b (K + 1)); try lia.
        rewrite HV. replace (K + 1 + b) with (1 + (K + b)) by lia.
        rewrite (Z.pow_add_r 2 1) by lia. change (2 ^ 1) with 2. lia. }
      unfold binary_round.
      change (Zpos (digits2_pos M)) with (Zdigits2 (Zpos M)).
      set (D := Zdigits2 (Zpos M) + ez) in *.
      destruct (shl_align_spec M ez (fexp prec emax D)) as [Hlt Hge].
      destruct (shl_align M ez (fexp prec emax D)) as [mz e_z].
      assert (HDz : Zdigits2 (Zpos mz) + e_z = D /\ e_z <= fexp prec emax D /\
                    -1074 <= e_z /\ Zpos mz * 2 ^ (e_z + b) = Zpos M * 2 ^ (ez + b)).
      { destruct (Z_lt_ge_dec (fexp prec emax D) ez) as [L|G].
        - destruct (Hlt L) as [E1 E2]. cbn [fst snd] in E1, E2. rewrite E1, E2.
          rewrite Zdigits2_mul_pow2 by lia.
          split; [unfold D; lia|]. split; [lia|]. split; [rewrite fexp64_eq; lia|].
          assert (-1074 <= fexp prec emax D) by (rewrite fexp64_eq; lia).
          rewrite <- Z.mul_assoc. f_equal.
          rewrite <- Z.pow_add_r by lia. f_equal. lia.
        - assert (E : (mz, e_z) = (M, ez)) by (apply Hge; lia).
          inversion E; subst. unfold D in *. repeat split; lia. }
      destruct HDz as (HDz & Hle & Hlo & Hval).
      exists (Zpos mz), e_z.
      split; [lia|]. split; [rewrite HDz; assumption|]. split; [lia|]. split; [lia|].
      split; [|reflexivity]. rewrite Hval. exact HV.
Qed.

Lemma add_mono K x x' y y' :
  canon_finite false x -> canon_finite false x' ->
  canon_finite false y -> canon_finite false y' ->
  le_pow2 K x -> le_pow2 K x' -> le_pow2 K y -> le_pow2 K y' ->
  -1074 <= K <= 1021 ->
  SFleb x x' = true -> SFleb y y' = true ->
  SFleb (SF64add x y) (SF64add x' y') = true.
Proof.
  intros Hx Hx' Hy Hy' Kx Kx' Ky Ky' HK H1 H2.
  apply (rounds_mono 1200 (scaled 1200 x + scaled 1200 y) (scaled 1200 x' + scaled 1200 y')).
  - apply (rounds_add 1200 K); try assumption; lia.
  - apply (rounds_add 1200 K); try assumption; lia.
  - pose proof (canon_le_scaled 1200 x x' Hx Hx' ltac:(lia) H1).
    pose proof (canon_le_scaled 1200 y y' Hy Hy' ltac:(lia) H2). lia.
Qed.

(** Shorter times never score lower. *)
Lemma score_value_mono tt tt' wt wt' :
  1 <= tt <= tt' -> 1 <= wt <= wt' ->
  SFleb (score_value tt' wt') (score_value tt wt) = true.
Proof.
  intros Ht Hw. unfold score_value.
  destruct (reciprocal_facts tt ltac:(lia)) as (A1 & A2 & _).
  destruct (reciprocal_facts tt' ltac:(lia)) as (B1 & B2 & _).
  destruct (reciprocal_facts wt ltac:(lia)) as (C1 & C2 & _).
  destruct (reciprocal_facts wt' ltac:(lia)) as (D1 & D2 & _).
  replace (tt <? 0) with false in A1 by (symmetry; apply Z.ltb_ge; lia).
  replace (tt' <? 0) with false in B1 by (symmetry; apply Z.ltb_ge; lia).
  replace (wt <? 0) with false in C1 by (symmetry; apply Z.ltb_ge; lia).
  replace (wt' <? 0) with false in D1 by (symmetry; apply Z.ltb_ge; lia).
  destruct (travel_term_any tt ltac:(lia)) as (E1 & E2).
  destruct (travel_term_any tt' ltac:(lia)) as (F1 & F2).
  destruct (wait_term_any wt ltac:(lia)) as (G1 & G2).
  destruct (wait_term_any wt' ltac:(lia)) as (I1 & I2).
  replace (tt <? 0) with false in E1 by (symmetry; apply Z.ltb_ge; lia).
  replace (tt' <? 0) with false in F1 by (symmetry; apply Z.ltb_ge; lia).
  replace (wt <? 0) with false in G1 by (symmetry; apply Z.ltb_ge; lia).
  replace (wt' <? 0) with false in I1 by (symmetry; apply Z.ltb_ge; lia).
  apply (add_mono 1); try assumption; try lia.
  - unfold travel_term, Py.mul, Py.f0_7.
    apply (mul_mono _ _ 1); try assumption; try reflexivity; try lia.
    apply reciprocal_mono; assumption.
  - unfold wait_term, Py.mul, Py.f0_3.
    apply (mul_mono _ _ 1); try assumption; try reflexivity; try lia.
    apply reciprocal_mono; assumption.
Qed.

Lemma avoid_zero_mono a b : 0 <= a <= b -> 1 <= avoid_zero a <= avoid_zero b.
Proof.
  intros H. unfold avoid_zero.
  destruct (Z.eqb_spec a 0), (Z.eqb_spec b 0); lia.
Qed.

Lemma score_of_probe_mono p q :
  0 <= travel_time (traffic p) <= travel_time (traffic q) ->
  0 <= wait_time (availability p) <= wait_time (availability q) ->
  SFleb (score_of_probe q) (score_of_probe p) = true.
Proof.
  intros Ht Hw. unfold score_of_probe.
  apply score_value_mono; apply avoid_zero_mono; assumption.
Qed.

Lemma SFleb_not_lt x y : SFleb x y = true -> SFltb y x = false.
Proof.
  unfold SFleb, SFltb. rewrite (SFcompare_antisym x y).
  destruct (SFcompare x y) as [[]|]; intros H; try discriminate; reflexivity.
Qed.

Lemma SFeqb_of_le x y : SFleb x y = true -> SFltb x y = false -> SFeqb x y = true.
Proof.
  unfold SFleb, SFltb, SFeqb.
  destruct (SFcompare x y) as [[]|]; intros H1 H2; try discriminate; reflexivity.
Qed.

(** * The score and the two times *)

(** X10. Shorter times never score lower. For travel times [tt <= tt'] and
    waiting times [wt <= wt'], none negative, the score the loop computes for
    [tt] and [wt] (after its two guards against 0) is at least the score it
    computes for [tt'] and [wt']: the three roundings of the formula keep the
    order of the exact values. Both computations return. *)
Theorem X10_shorter_times_never_score_lower :
  forall tt tt' wt wt' : Z,
    0 <= tt <= tt' -> 0 <= wt <= wt' ->
    exists s s' : Py.float,
      composite_score (avoid_zero tt) (avoid_zero wt) = Ok s /\
      composite_score (avoid_zero tt') (avoid_zero wt') = Ok s' /\
      Py.le s' s = true /\ Py.lt s s' = false.
Proof.
  intros tt tt' wt wt' Ht Hw.
  exists (score_value (avoid_zero tt) (avoid_zero wt)),
         (score_value (avoid_zero tt') (avoid_zero wt')).
  split; [apply composite_score_returns; apply avoid_zero_nonzero|].
  split; [apply composite_score_returns; apply avoid_zero_nonzero|].
  assert (H : SFleb (score_value (avoid_zero tt') (avoid_zero wt'))
                    (score_value (avoid_zero tt) (avoid_zero wt)) = true)
    by (apply score_value_mono; apply avoid_zero_mono; assumption).
  split; [exact H|]. apply SFleb_not_lt. exact H.
Qed.

Lemma X10_witness :
  exists s s' : Py.float,
    composite_score (avoid_zero 0) (avoid_zero 5) = Ok s /\
    composite_score (avoid_zero 7) (avoid_zero 60) = Ok s' /\
    Py.le s' s = true /\ Py.lt s s' = false.
Proof. apply (X10_shorter_times_never_score_lower 0 7 5 60); lia. Defined.

(** X11. No hospital that is at least as good is passed over. When the
    selection returns the hospital of the candidate [p], a candidate [q]
    whose travel time and waiting time are both at most those of [p] (and
    not negative) has exactly the score of [p], and it is [p] or stands
    after [p] in the list: [p] won a tie by its place. *)
Theorem X11_no_better_hospital_is_passed_over :
  forall (ps : list Probe) (w : World) (h : Hospital),
    fst (select_optimal_hospital ps w) = Ok (Some h) ->
    exists (pre : list Probe) (p : Probe) (post : list Probe),
      candidates ps = (pre ++ p :: post)%list /\ hospital p = h /\
      forall q : Probe,
        In q (candidates ps) ->
        0 <= travel_time (traffic q) <= travel_time (traffic p) ->
        0 <= wait_time (availability q) <= wait_time (availability p) ->
        In q (p :: post) /\
        Py.lt (score_of_probe p) (score_of_probe q) = false /\
        SFeqb (score_of_probe q) (score_of_probe p) = true.
Proof.
  intros ps w h H.
  destruct (select_returns_first_maximum ps w h H)
    as (pre & p & post & Hc & Hh & Hpre & Hpost).
  exists pre, p, post. split; [assumption|]. split; [assumption|].
  intros q Hq Ht Hw.
  pose proof (score_of_probe_mono q p Ht Hw) as Hle.
  rewrite Hc in Hq. apply in_app_or in Hq. destruct Hq as [Hq|Hq].
  - exfalso. pose proof (Hpre q Hq) as Hlt. apply SFleb_not_lt in Hle.
    unfold Py.lt in Hlt. rewrite Hlt in Hle. discriminate.
  - assert (Hnlt : Py.lt (score_of_probe p) (score_of_probe q) = false).
    { destruct Hq as [<-|Hq]; [|apply Hpost; assumption].
      apply SFltb_irrefl. }
    split; [assumption|]. split; [assumption|].
    rewrite SFeqb_sym. apply SFeqb_of_le; assumption.
Qed.

Lemma X11_witness :
  exists (pre : list Probe) (p : Probe) (post : list Probe),
    candidates [probe_of Config.hosp_a true 12 30; probe_of Config.hosp_b true 12 30]
    = (pre ++ p :: post)%list /\ hospital p = Config.hosp_a /\
    forall q : Probe,
      In q (candidates [probe_of Config.hosp_a true 12 30;
                        probe_of Config.hosp_b true 12 30]) ->
      0 <= travel_time (traffic q) <= travel_time (traffic p) ->
      0 <= wait_time (availability q) <= wait_time (availability p) ->
      In q (p :: post) /\
      Py.lt (score_of_probe p) (score_of_probe q) = false /\
      SFeqb (score_of_probe q) (score_of_probe p) = true.
Proof.
  apply (X11_no_better_hospital_is_passed_over
           [probe_of Config.hosp_a true 12 30; probe_of Config.hosp_b true 12 30] init).
  rewrite select_spec. reflexivity.
Defined.

(** * A run and the state it finds *)

(** X12. A run does not read what earlier runs left in the assistant. From
    any two states it returns alike and appends the same records, and unless
    it stops at the "no emergency" exit it leaves the same two attributes.
    So the records of a second run, made after any first run, are those the
    second run appends to a fresh assistant. *)
Theorem X12_a_run_ignores_the_old_state :
  forall (contacts : list EmergencyContact) (sim : Simulated) (w w' : World),
    exists new,
      log (snd (execute_emergency_protocol contacts sim w)) = (log w ++ new)%list /\
      log (snd (execute_emergency_protocol contacts sim w')) = (log w' ++ new)%list /\
      fst (execute_emergency_protocol contacts sim w)
      = fst (execute_emergency_protocol contacts sim w') /\
      (str_is_empty (voice_command sim) && negb (emergency_trigger sim) = true \/
       current_symptoms (snd (execute_emergency_protocol contacts sim w))
       = current_symptoms (snd (execute_emergency_protocol contacts sim w')) /\
       symptom_severity (snd (execute_emergency_protocol contacts sim w))
       = symptom_severity (snd (execute_emergency_protocol contacts sim w'))) /\
      (forall contacts1 sim1,
          log (snd (execute_emergency_protocol contacts sim
                      (snd (execute_emergency_protocol contacts1 sim1 w))))
          = (log (snd (execute_emergency_protocol contacts1 sim1 w)) ++ new)%list).
Proof.
  intros contacts sim w w'.
  assert (Hgen : exists new, forall v,
             log (snd (execute_emergency_protocol contacts sim v)) = (log v ++ new)%list).
  { destruct (str_is_empty (voice_command sim) && negb (emergency_trigger sim)) eqn:Ex;
      [|destruct (Severity_eqb (snd (classify (voice_command sim))) critical) eqn:Ec;
        [|destruct (first_best (ranking (probes sim))) as [b|] eqn:Eb]];
      eexists; intros v; rewrite execute_emergency_protocol_spec; cbv zeta;
      rewrite Ex, ?Ec, ?Eb; tidy_log; reflexivity. }
  destruct Hgen as [new Hnew]. exists new.
  split; [apply Hnew|]. split; [apply Hnew|]. split; [|split].
  - rewrite !execute_emergency_protocol_spec. cbv zeta.
    destruct (str_is_empty (voice_command sim) && negb (emergency_trigger sim));
      [reflexivity|].
    destruct (Severity_eqb (snd (classify (voice_command sim))) critical); [reflexivity|].
    destruct (first_best (ranking (probes sim))); reflexivity.
  - rewrite !execute_emergency_protocol_spec. cbv zeta.
    destruct (str_is_empty (voice_command sim) && negb (emergency_trigger sim));
      [left; reflexivity|right].
    destruct (Severity_eqb (snd (classify (voice_command sim))) critical);
      [split; reflexivity|].
    destruct (first_best (ranking (probes sim))); split; reflexivity.
  - intros contacts1 sim1. apply Hnew.
Qed.

(** * Binary64 arithmetic: the error of a rounding *)

Lemma scaled_carry b M ec :
  0 <= M <= 2 ^ 53 -> 0 <= ec + b -> scaled b (carry M ec) = M * 2 ^ (ec + b).
Proof.
  intros HM Hb. unfold carry. destruct M as [|p|p]; [reflexivity| |lia].
  destruct (Z.eqb_spec (Z.pos p) (2 ^ 53)) as [E|E]; cbn [scaled]; [|reflexivity].
  rewrite E, Z2Pos.id by (apply Z.pow_pos_nonneg; lia).
  replace (ec + 1 + b) with (1 + (ec + b)) by lia.
  rewrite (Z.pow_add_r 2 1) by lia. change (2 ^ 53) with (2 ^ 52 * 2 ^ 1). ring.
Qed.

(** The relative error of one rounding, away from the subnormal range. *)
Lemma round_err b m e l N D :
  0 <= m -> e <= fexp prec emax (Zdigits2 m + e) -> Zdigits2 m + e <= 1023 ->
  0 < D -> 0 <= e - 1 + b ->
  code (shr_record_of_loc m l) = tcode N (D * 2 ^ (e - 1 + b)) ->
  -1074 < fexp prec emax (Zdigits2 m + e) ->
  (2 ^ 52 - 1) * N <= 2 ^ 52 * (D * scaled b (binary_round_aux prec emax false m e l)) /\
  2 ^ 52 * (D * scaled b (binary_round_aux prec emax false m e l)) <= (2 ^ 52 + 1) * N.
Proof.
  intros Hm Hk Ho HD Hb Hc Hn.
  assert (Hp : 0 < 2 ^ (e - 1 + b)) by (apply Z.pow_pos_nonneg; lia).
  destruct (bra_value m e l N (D * 2 ^ (e - 1 + b)) Hm Hk Ho ltac:(nia) Hc)
    as (B1 & Nm & ->).
  set (ec := fexp prec emax (Zdigits2 m + e)) in *.
  rewrite <- Z.mul_assoc, <- Z.pow_add_r in B1, Nm |- * by lia.
  replace (e - 1 + b + (ec - e)) with (ec - 1 + b) in * by lia.
  assert (Hq : 0 < 2 ^ (ec - 1 + b)) by (apply Z.pow_pos_nonneg; lia).
  set (t := tcode N (D * 2 ^ (ec - 1 + b))) in *.
  pose proof (rne_bounds t) as R.
  specialize (Nm Hn).
  assert (P53 : 2 ^ 53 = 2 * 2 ^ 52) by reflexivity.
  assert (P52 : 0 < 2 ^ 52) by (apply Z.pow_pos_nonneg; lia).
  rewrite scaled_carry by lia.
  assert (HU : 2 ^ (ec + b) = 2 * 2 ^ (ec - 1 + b)).
  { replace (ec + b) with (1 + (ec - 1 + b)) by lia. rewrite (Z.pow_add_r 2 1) by lia.
    reflexivity. }
  assert (Eq : t / 4 = N / (D * 2 ^ (ec + b))).
  { unfold t. rewrite tcode_quarter by nia. f_equal. rewrite HU. ring. }
  set (W := D * 2 ^ (ec + b)) in *.
  assert (HW : 0 < W) by (unfold W; rewrite HU; nia).
  pose proof (Z.div_mod N W ltac:(lia)) as Edm.
  pose proof (Z.mod_pos_bound N W HW) as Hr.
  rewrite <- Eq in Edm.
  set (q := t / 4) in *. set (M := rne t) in *. set (c := 2 ^ 52) in *.
  replace (D * (M * 2 ^ (ec + b))) with (M * W) by (unfold W; ring).
  clearbody q M c W. clear - Edm Hr R Nm B1 HW P52.
  assert (q * W <= M * W) by (apply Z.mul_le_mono_nonneg_r; lia).
  assert (M * W <= (q + 1) * W) by (apply Z.mul_le_mono_nonneg_r; lia).
  assert (c * W <= q * W) by (apply Z.mul_le_mono_nonneg_r; lia).
  split; nia.
Qed.

(** The same for a value that is rounded from an exact mantissa. *)
Lemma rounds_err b V r :
  rounds b V r -> 2 ^ (b - 1021) <= V -> 1021 <= b ->
  (2 ^ 52 - 1) * V <= 2 ^ 52 * scaled b r /\ 2 ^ 52 * scaled b r <= (2 ^ 52 + 1) * V.
Proof.
  intros (m & e & A1 & A2 & A3 & A4 & A5 & ->) HV Hb.
  assert (Hn : -1074 < fexp prec emax (Zdigits2 m + e)).
  { rewrite fexp64_eq.
    assert (0 < 2 ^ (b - 1021)) by (apply Z.pow_pos_nonneg; lia).
    assert (0 < 2 ^ (e + b)) by (apply Z.pow_pos_nonneg; lia).
    assert (Hpos : 0 < m) by nia.
    destruct (Zdigits2_bounds m Hpos) as (Hd1 & _ & Hub).
    destruct (Z_le_gt_dec (Zdigits2 m + e) (-1021)) as [L|G]; [exfalso|lia].
    assert (2 ^ Zdigits2 m * 2 ^ (e + b) <= 2 ^ (b - 1021)).
    { rewrite <- Z.pow_add_r by lia. apply Z.pow_le_mono_r; lia. }
    assert (m * 2 ^ (e + b) < 2 ^ Zdigits2 m * 2 ^ (e + b))
      by (apply Z.mul_lt_mono_pos_r; lia).
    lia. }
  pose proof (round_err b m e loc_Exact V 1 A1 A2 A3 ltac:(lia) A4) as H.
  rewrite <- A5 in H at 1. specialize (H (exact_code m e b A4) Hn).
  rewrite !Z.mul_1_l in H. exact H.
Qed.

Lemma scaled_shift b k x :
  canon_finite false x -> 1074 <= b -> 0 <= k -> scaled (b + k) x = 2 ^ k * scaled b x.
Proof.
  intros Hc Hb Hk. destruct x as [s|s| |s m e]; unfold canon_finite in Hc; try tauto.
  - cbn [scaled]. lia.
  - destruct Hc as [-> Hc]. pose proof (canon_digits m e (conj eq_refl Hc)) as (He & _).
    cbn [scaled]. replace (e + (b + k)) with (k + (e + b)) by lia.
    rewrite (Z.pow_add_r 2 k) by lia. ring.
Qed.

(** The relative error of a reciprocal. *)
Lemma reciprocal_err b n :
  1 <= n -> Zdigits2 n <= 1000 -> 1076 <= b ->
  (2 ^ 52 - 1) * 2 ^ b <= 2 ^ 52 * (n * scaled b (reciprocal n)) /\
  2 ^ 52 * (n * scaled b (reciprocal n)) <= (2 ^ 52 + 1) * 2 ^ b.
Proof.
  intros Hn Hd Hb. destruct n as [|p|p]; try lia.
  unfold reciprocal, SF64div, SFdiv, Py.exact_of_int.
  pose proof (div_core_one_facts p) as F. pose proof (div_core_code p) as C.
  destruct (SFdiv_core_binary prec emax 1 0 (Zpos p) 0) as [[q e] l].
  destruct F as (Hq & Hpre & Hdq & _ & Hlow). destruct C as (He & Hc).
  cbn [xorb].
  apply round_err; try assumption; try lia.
  - rewrite Hc.
    assert (0 < 2 ^ (e - 1 + b)) by (apply Z.pow_pos_nonneg; lia).
    rewrite <- (tcode_scale (2 ^ (e - 1 + b))) by lia.
    f_equal; [|ring].
    replace (2 * 2 ^ (- e)) with (2 ^ (1 - e))
      by (replace (1 - e) with (1 + - e) by lia; rewrite Z.pow_add_r by lia; reflexivity).
    rewrite <- Z.pow_add_r by lia. f_equal. lia.
  - specialize (Hlow ltac:(lia)). rewrite fexp64_eq. lia.
Qed.

Lemma small_digits n : 1 <= n <= 10000000 -> Zdigits2 n <= 1000.
Proof.
  intros H. assert (Zdigits2 n <= 24); [|lia].
  apply Zdigits2_le; lia.
Qed.

(** A product with a 53-bit constant, for a reciprocal of moderate size: the
    error of the two roundings. *)
Lemma term_err (mc : positive) (ec : Z) (n : Z) :
  Zdigits2 (Zpos mc) = 53 -> -60 <= ec <= -50 -> 1 <= n <= 10000000 ->
  let R := scaled (1200 + ec) (reciprocal n) in
  let Y := scaled 1200 (SF64mul (S754_finite false mc ec) (reciprocal n)) in
  (2 ^ 52 - 1) * 2 ^ (1200 + ec) <= 2 ^ 52 * (n * R) /\
  2 ^ 52 * (n * R) <= (2 ^ 52 + 1) * 2 ^ (1200 + ec) /\
  (2 ^ 52 - 1) * (Zpos mc * R) <= 2 ^ 52 * Y /\
  2 ^ 52 * Y <= (2 ^ 52 + 1) * (Zpos mc * R) /\
  2 ^ 179 <= R /\
  (2 ^ 52 - 1) * 2 ^ (1200 + ec) <= 2 ^ 52 * (10000000 * R) /\
  2 ^ 52 * R <= (2 ^ 52 + 1) * 2 ^ (1200 + ec).
Proof.
  intros Hc Hec Hn. cbv zeta.
  destruct (reciprocal_err (1200 + ec) n ltac:(lia) (small_digits n Hn) ltac:(lia)) as [E1 E2].
  destruct (reciprocal_facts n ltac:(lia)) as (C1 & C2 & _).
  replace (n <? 0) with false in C1 by (symmetry; apply Z.ltb_ge; lia).
  pose proof (scaled_nonneg (1200 + ec) (reciprocal n)) as Hnn.
  set (R := scaled (1200 + ec) (reciprocal n)) in *.
  split; [assumption|]. split; [assumption|].
  pose proof (rounds_mul 1200 mc ec 1 (reciprocal n) Hc C1 C2 ltac:(lia) ltac:(lia) ltac:(lia))
    as Hr.
  fold R in Hr.
  assert (P52 : 0 < 2 ^ 52) by (apply Z.pow_pos_nonneg; lia).
  assert (Hlo : (2 ^ 52 - 1) * 2 ^ (1200 + ec) <= 2 ^ 52 * (10000000 * R)).
  { etransitivity; [exact E1|]. apply Z.mul_le_mono_nonneg_l; [lia|].
    apply Z.mul_le_mono_nonneg_r; lia. }
  assert (Hhi : 2 ^ 52 * R <= (2 ^ 52 + 1) * 2 ^ (1200 + ec)).
  { etransitivity; [|exact E2]. apply Z.mul_le_mono_nonneg_l; [lia|].
    transitivity (1 * R); [lia|]. apply Z.mul_le_mono_nonneg_r; lia. }
  assert (HR : 2 ^ 179 <= R).
  { assert (P : 2 ^ (1200 + ec) = 2 ^ 179 * 2 ^ (1021 + ec))
      by (rewrite <- Z.pow_add_r by lia; f_equal; lia).
    assert (Q : 2 ^ 77 <= 2 ^ (1021 + ec)) by (apply Z.pow_le_mono_r; lia).
    assert (0 < 2 ^ 179) by (apply Z.pow_pos_nonneg; lia).
    rewrite P in Hlo.
    set (p179 := 2 ^ 179) in *. set (px := 2 ^ (1021 + ec)) in *.
    change (2 ^ 52) with 4503599627370496 in *.
    change (2 ^ 77) with 151115727451828646838272 in Q.
    clearbody p179 px R.
    assert ((4503599627370496 - 1) * (p179 * 151115727451828646838272)
            <= (4503599627370496 - 1) * (p179 * px)).
    { apply Z.mul_le_mono_nonneg_l; [lia|]. apply Z.mul_le_mono_nonneg_l; lia. }
    lia. }
  destruct (rounds_err 1200 _ _ Hr) as [F1 F2]; [|lia|].
  - change (1200 - 1021) with 179.
    destruct (Zdigits2_bounds (Zpos mc)) as (_ & Lc & _); [lia|].
    transitivity (1 * R); [lia|]. apply Z.mul_le_mono_nonneg_r; lia.
  - repeat split; assumption.
Qed.

(** Two reciprocals of different integers keep a distance. *)
Lemma reciprocal_gap c Pb n n' R R' :
  0 < c -> 0 <= R -> 0 <= R' -> 1 <= n -> n + 1 <= n' -> n' <= 10000000 ->
  (c - 1) * Pb <= c * (n * R) -> c * (n' * R') <= (c + 1) * Pb ->
  (c - 1) * 10000000 * R' <= (c + 1) * 9999999 * R.
Proof.
  intros Hc HR HR' Hn Hnn HT E1 E2.
  assert (S1 : (c - 1) * (n' * R') <= (c + 1) * (n * R)).
  { apply (Z.mul_le_mono_pos_l _ _ c); [lia|].
    transitivity ((c - 1) * ((c + 1) * Pb)).
    - replace (c * ((c - 1) * (n' * R'))) with ((c - 1) * (c * (n' * R'))) by ring.
      apply Z.mul_le_mono_nonneg_l; lia.
    - replace (c * ((c + 1) * (n * R))) with ((c + 1) * (c * (n * R))) by ring.
      replace ((c - 1) * ((c + 1) * Pb)) with ((c + 1) * ((c - 1) * Pb)) by ring.
      apply Z.mul_le_mono_nonneg_l; lia. }
  assert (S2 : (c + 1) * (n * R) <= (c + 1) * ((n' - 1) * R)).
  { apply Z.mul_le_mono_nonneg_l; [lia|]. apply Z.mul_le_mono_nonneg_r; lia. }
  assert (S3 : 10000000 * ((n' - 1) * R) <= 9999999 * (n' * R)).
  { replace (10000000 * ((n' - 1) * R)) with ((10000000 * (n' - 1)) * R) by ring.
    replace (9999999 * (n' * R)) with ((9999999 * n') * R) by ring.
    apply Z.mul_le_mono_nonneg_r; lia. }
  apply (Z.mul_le_mono_pos_l _ _ n'); [lia|].
  replace (n' * ((c - 1) * 10000000 * R')) with (10000000 * ((c - 1) * (n' * R'))) by ring.
  replace (n' * ((c + 1) * 9999999 * R)) with ((c + 1) * (9999999 * (n' * R))) by ring.
  transitivity (10000000 * ((c + 1) * ((n' - 1) * R))).
  - apply Z.mul_le_mono_nonneg_l; lia.
  - replace (10000000 * ((c + 1) * ((n' - 1) * R)))
      with ((c + 1) * (10000000 * ((n' - 1) * R))) by ring.
    apply Z.mul_le_mono_nonneg_l; lia.
Qed.

(** The order of the values of two canonical floats is their order. *)
Lemma scaled_lt_canon b x y :
  canon_finite false x -> canon_finite false y -> 1074 <= b ->
  scaled b x < scaled b y -> SFltb x y = true.
Proof.
  intros Hx Hy Hb H.
  destruct (SFltb x y) eqn:E; [reflexivity|exfalso].
  assert (Hle : SFleb y x = true).
  { unfold SFltb in E. unfold SFleb. rewrite (SFcompare_antisym x y).
    destruct x as [sx|sx| |sx mx ex]; unfold canon_finite in Hx; try tauto;
      destruct y as [sy|sy| |sy my ey]; unfold canon_finite in Hy; try tauto;
      destruct (SFcompare _ _) as [[]|] eqn:Ec; try reflexivity; try discriminate;
      cbn in Ec; try discriminate. }
  pose proof (canon_le_scaled b y x Hy Hx Hb Hle). lia.
Qed.

(** Within ten million, a time that is strictly shorter scores strictly
    higher. *)
Lemma score_value_strict tt tt' wt wt' :
  1 <= tt <= tt' -> tt' <= 10000000 -> 1 <= wt <= wt' -> wt' <= 10000000 ->
  tt < tt' \/ wt < wt' ->
  SFltb (score_value tt' wt') (score_value tt wt) = true.
Proof.
  intros Ht HtT Hw HwT Hstrict.
  destruct (score_value_facts tt wt ltac:(lia) ltac:(lia)) as (Cs & _).
  destruct (score_value_facts tt' wt' ltac:(lia) ltac:(lia)) as (Cs' & _).
  apply (scaled_lt_canon 1200); try assumption; try lia.
  unfold score_value in *.
  (* the four terms *)
  destruct (travel_term_any tt ltac:(lia)) as (E1 & E2).
  destruct (travel_term_any tt' ltac:(lia)) as (F1 & F2).
  destruct (wait_term_any wt ltac:(lia)) as (G1 & G2).
  destruct (wait_term_any wt' ltac:(lia)) as (I1 & I2).
  replace (tt <? 0) with false in E1 by (symmetry; apply Z.ltb_ge; lia).
  replace (tt' <? 0) with false in F1 by (symmetry; apply Z.ltb_ge; lia).
  replace (wt <? 0) with false in G1 by (symmetry; apply Z.ltb_ge; lia).
  replace (wt' <? 0) with false in I1 by (symmetry; apply Z.ltb_ge; lia).
  pose proof (term_err 6305039478318694 (-53) tt eq_refl ltac:(lia) ltac:(lia)) as Tt.
  pose proof (term_err 6305039478318694 (-53) tt' eq_refl ltac:(lia) ltac:(lia)) as Tt'.
  pose proof (term_err 5404319552844595 (-54) wt eq_refl ltac:(lia) ltac:(lia)) as Tw.
  pose proof (term_err 5404319552844595 (-54) wt' eq_refl ltac:(lia) ltac:(lia)) as Tw'.
  cbv zeta in Tt, Tt', Tw, Tw'.
  change (SF64mul (S754_finite false 6305039478318694 (-53)) (reciprocal tt))
    with (travel_term tt) in Tt.
  change (SF64mul (S754_finite false 6305039478318694 (-53)) (reciprocal tt'))
    with (travel_term tt') in Tt'.
  change (SF64mul (S754_finite false 5404319552844595 (-54)) (reciprocal wt))
    with (wait_term wt) in Tw.
  change (SF64mul (S754_finite false 5404319552844595 (-54)) (reciprocal wt'))
    with (wait_term wt') in Tw'.
  change (1200 + -53) with 1147 in *. change (1200 + -54) with 1146 in *.
  (* the two sums *)
  pose proof (rounds_add 1200 1 _ _ E1 G1 E2 G2 ltac:(lia) ltac:(lia)) as Rs.
  pose proof (rounds_add 1200 1 _ _ F1 I1 F2 I2 ltac:(lia) ltac:(lia)) as Rs'.
  destruct Tt as (Tt1 & Tt2 & Tt3 & Tt4 & Tt5 & Tt6 & Tt7).
  destruct Tt' as (Tt1' & Tt2' & Tt3' & Tt4' & Tt5' & Tt6' & Tt7').
  destruct Tw as (Tw1 & Tw2 & Tw3 & Tw4 & Tw5 & Tw6 & Tw7).
  destruct Tw' as (Tw1' & Tw2' & Tw3' & Tw4' & Tw5' & Tw6' & Tw7').
  (* the order of the terms *)
  assert (My : scaled 1200 (travel_term tt') <= scaled 1200 (travel_term tt)).
  { apply canon_le_scaled; try assumption; try lia.
    unfold travel_term, Py.mul, Py.f0_7.
    destruct (reciprocal_facts tt ltac:(lia)) as (A1 & A2 & _).
    destruct (reciprocal_facts tt' ltac:(lia)) as (B1 & B2 & _).
    replace (tt <? 0) with false in A1 by (symmetry; apply Z.ltb_ge; lia).
    replace (tt' <? 0) with false in B1 by (symmetry; apply Z.ltb_ge; lia).
    apply (mul_mono _ _ 1); try assumption; try reflexivity; try lia.
    apply reciprocal_mono; lia. }
  assert (Mz : scaled 1200 (wait_term wt') <= scaled 1200 (wait_term wt)).
  { apply canon_le_scaled; try assumption; try lia.
    unfold wait_term, Py.mul, Py.f0_3.
    destruct (reciprocal_facts wt ltac:(lia)) as (A1 & A2 & _).
    destruct (reciprocal_facts wt' ltac:(lia)) as (B1 & B2 & _).
    replace (wt <? 0) with false in A1 by (symmetry; apply Z.ltb_ge; lia).
    replace (wt' <? 0) with false in B1 by (symmetry; apply Z.ltb_ge; lia).
    apply (mul_mono _ _ 1); try assumption; try reflexivity; try lia.
    apply reciprocal_mono; lia. }
  pose proof (scaled_nonneg 1200 (travel_term tt')) as Ny'.
  pose proof (scaled_nonneg 1200 (wait_term wt')) as Nz'.
  pose proof (scaled_nonneg 1147 (reciprocal tt)) as Nr.
  pose proof (scaled_nonneg 1147 (reciprocal tt')) as Nr'.
  pose proof (scaled_nonneg 1146 (reciprocal wt)) as Nq.
  pose proof (scaled_nonneg 1146 (reciprocal wt')) as Nq'.
  set (R2 := scaled 1147 (reciprocal tt)) in *.
  set (R1 := scaled 1147 (reciprocal tt')) in *.
  set (Q2 := scaled 1146 (reciprocal wt)) in *.
  set (Q1 := scaled 1146 (reciprocal wt')) in *.
  set (Y2 := scaled 1200 (travel_term tt)) in *.
  set (Y1 := scaled 1200 (travel_term tt')) in *.
  set (Z2 := scaled 1200 (wait_term wt)) in *.
  set (Z1 := scaled 1200 (wait_term wt')) in *.
  assert (P52 : 0 < 2 ^ 52) by (apply Z.pow_pos_nonneg; lia).
  assert (P179 : 0 < 2 ^ 179) by (apply Z.pow_pos_nonneg; lia).
  (* the sums are far from the subnormal range *)
  destruct (rounds_err 1200 _ _ Rs) as [S2a S2b]; [..|lia|].
  { change (1200 - 1021) with 179.
    change (2 ^ 52) with 4503599627370496 in *. lia. }
  destruct (rounds_err 1200 _ _ Rs') as [S1a S1b]; [..|lia|].
  { change (1200 - 1021) with 179.
    change (2 ^ 52) with 4503599627370496 in *. lia. }
  unfold Py.add.
  set (S2 := scaled 1200 (SF64add (travel_term tt) (wait_term wt))) in *.
  set (S1 := scaled 1200 (SF64add (travel_term tt') (wait_term wt'))) in *.
  change (2 ^ 1147) with (2 * 2 ^ 1146) in *.
  assert (PP : 0 < 2 ^ 1146) by (apply Z.pow_pos_nonneg; lia).
  set (P := 2 ^ 1146) in *.
  destruct Hstrict as [Hs|Hs].
  - pose proof (reciprocal_gap (2 ^ 52) (2 * P) tt tt' R2 R1 P52 Nr Nr'
                  ltac:(lia) ltac:(lia) HtT Tt1 Tt2') as Gap.
    change (2 ^ 52) with 4503599627370496 in *.
    clearbody R1 R2 Q1 Q2 Y1 Y2 Z1 Z2 S1 S2 P.
    clear - Gap Tt3 Tt4' Tt6 Tw4' Tw7' Mz S2a S1b PP Nr Nr' Nq' Ny' Nz'.
    lia.
  - pose proof (reciprocal_gap (2 ^ 52) P wt wt' Q2 Q1 P52 Nq Nq'
                  ltac:(lia) ltac:(lia) HwT Tw1 Tw2') as Gap.
    change (2 ^ 52) with 4503599627370496 in *.
    clearbody R1 R2 Q1 Q2 Y1 Y2 Z1 Z2 S1 S2 P.
    clear - Gap Tw3 Tw4' Tw6 Tt4' Tt7' My S2a S1b PP Nr Nr' Nq Nq' Ny' Nz'.
    lia.
Qed.

(** * The selected hospital is not dominated *)

(** X13. Within ten million, a strictly shorter time scores strictly higher.
    For travel times [tt <= tt'] and waiting times [wt <= wt'] between 0 and
    10 000 000, when one of the two differs after the guards against 0, the
    score computed for [tt] and [wt] is strictly greater than the score
    computed for [tt'] and [wt']: the error of the three roundings is smaller
    than the distance between the two exact values. *)
Theorem X13_strictly_shorter_scores_strictly_higher :
  forall tt tt' wt wt' : Z,
    0 <= tt <= tt' -> tt' <= 10000000 -> 0 <= wt <= wt' -> wt' <= 10000000 ->
    avoid_zero tt < avoid_zero tt' \/ avoid_zero wt < avoid_zero wt' ->
    exists s s' : Py.float,
      composite_score (avoid_zero tt) (avoid_zero wt) = Ok s /\
      composite_score (avoid_zero tt') (avoid_zero wt') = Ok s' /\
      Py.lt s' s = true.
Proof.
  intros tt tt' wt wt' Ht HtT Hw HwT Hs.
  exists (score_value (avoid_zero tt) (avoid_zero wt)),
         (score_value (avoid_zero tt') (avoid_zero wt')).
  split; [apply composite_score_returns; apply avoid_zero_nonzero|].
  split; [apply composite_score_returns; apply avoid_zero_nonzero|].
  pose proof (avoid_zero_mono tt tt' Ht). pose proof (avoid_zero_mono wt wt' Hw).
  apply score_value_strict; try assumption.
  - unfold avoid_zero. destruct (Z.eqb_spec tt' 0); lia.
  - unfold avoid_zero. destruct (Z.eqb_spec wt' 0); lia.
Qed.

Lemma X13_witness :
  exists s s' : Py.float,
    composite_score (avoid_zero 10) (avoid_zero 20) = Ok s /\
    composite_score (avoid_zero 11) (avoid_zero 20) = Ok s' /\
    Py.lt s' s = true.
Proof.
  apply (X13_strictly_shorter_scores_strictly_higher 10 11 20 20); try lia.
  left. unfold avoid_zero. cbn. lia.
Defined.

(** X14. The selected hospital is not dominated. When the selection returns
    the hospital of the candidate [p], no candidate [q] with times between 0
    and 10 000 000 is at least as good as [p] on both times and better on
    one: if the travel time and the waiting time of [q] are at most those of
    [p], then after the guards against 0 they are those of [p]. *)
Theorem X14_selected_hospital_is_not_dominated :
  forall (ps : list Probe) (w : World) (h : Hospital),
    fst (select_optimal_hospital ps w) = Ok (Some h) ->
    exists p : Probe,
      In p (candidates ps) /\ hospital p = h /\
      forall q : Probe,
        In q (candidates ps) ->
        0 <= travel_time (traffic q) <= travel_time (traffic p) ->
        travel_time (traffic p) <= 10000000 ->
        0 <= wait_time (availability q) <= wait_time (availability p) ->
        wait_time (availability p) <= 10000000 ->
        avoid_zero (travel_time (traffic q)) = avoid_zero (travel_time (traffic p)) /\
        avoid_zero (wait_time (availability q)) = avoid_zero (wait_time (availability p)).
Proof.
  intros ps w h H.
  destruct (select_returns_a_maximum ps w h H) as (p & Hin & Hh & Hmax).
  exists p. split; [assumption|]. split; [assumption|].
  intros q Hq Ht HtT Hw HwT.
  pose proof (avoid_zero_mono _ _ Ht) as Mt. pose proof (avoid_zero_mono _ _ Hw) as Mw.
  assert (Bt : avoid_zero (travel_time (traffic p)) <= 10000000)
    by (unfold avoid_zero; destruct (Z.eqb_spec (travel_time (traffic p)) 0); lia).
  assert (Bw : avoid_zero (wait_time (availability p)) <= 10000000)
    by (unfold avoid_zero; destruct (Z.eqb_spec (wait_time (availability p)) 0); lia).
  destruct (Z.eq_dec (avoid_zero (travel_time (traffic q)))
                     (avoid_zero (travel_time (traffic p)))) as [Et|Nt];
    [destruct (Z.eq_dec (avoid_zero (wait_time (availability q)))
                        (avoid_zero (wait_time (availability p)))) as [Ew|Nw];
     [split; assumption|]|];
    exfalso;
    (assert (Hlt : SFltb (score_of_probe p) (score_of_probe q) = true)
       by (unfold score_of_probe; apply score_value_strict; lia));
    specialize (Hmax q Hq); unfold Py.lt in Hmax; rewrite Hmax in Hlt; discriminate.
Qed.

Lemma X14_witness :
  exists p : Probe,
    In p (candidates [probe_of Config.hosp_a true 10 10; probe_of Config.hosp_b true 5 40]) /\
    hospital p = Config.hosp_b /\
    forall q : Probe,
      In q (candidates [probe_of Config.hosp_a true 10 10;
                        probe_of Config.hosp_b true 5 40]) ->
      0 <= travel_time (traffic q) <= travel_time (traffic p) ->
      travel_time (traffic p) <= 10000000 ->
      0 <= wait_time (availability q) <= wait_time (availability p) ->
      wait_time (availability p) <= 10000000 ->
      avoid_zero (travel_time (traffic q)) = avoid_zero (travel_time (traffic p)) /\
      avoid_zero (wait_time (availability q)) = avoid_zero (wait_time (availability p)).
Proof.
  apply (X14_selected_hospital_is_not_dominated
           [probe_of Config.hosp_a true 10 10; probe_of Config.hosp_b true 5 40] init).
  rewrite select_spec. reflexivity.
Defined.

(** * The travel time the traffic analysis returns *)

Example f2_0_ok : Prim2SF 2%float = f2_0. Proof. reflexivity. Qed.
Example f5_0_ok : Prim2SF 5%float = f5_0. Proof. reflexivity. Qed.

Lemma SFltb_finite_pos m e m' e' :
  SFltb (S754_finite false m e) (S754_finite false m' e') =
  match e ?= e' with Lt => true | Gt => false | Eq => (m <? m')%positive end.
Proof.
  unfold SFltb, SFcompare, Pos.ltb, Pos.compare.
  destruct (e ?= e'); reflexivity.
Qed.

Lemma int_of_float_nonneg m e :
  exists a, int_of_float (S754_finite false m e) = Converted a /\
            (0 <= e -> a = Zpos m * 2 ^ e) /\
            (e < 0 -> a = Zpos m / 2 ^ (- e)).
Proof.
  unfold int_of_float. destruct e as [|k|k]; eexists; (split; [reflexivity|]);
    split; intros H; try lia; reflexivity.
Qed.

(** A factor between 2 and 5 is a normal float of exponent -51 or -50. *)
Lemma factor_shape u :
  canon_finite false u -> SFleb f2_0 u = true -> SFleb u f5_0 = true ->
  exists mu eu, u = S754_finite false mu eu /\ Zdigits2 (Zpos mu) = 53 /\ -51 <= eu <= -50.
Proof.
  intros Hc H2 H5.
  destruct u as [s|s| |s mu eu]; unfold canon_finite in Hc; try tauto.
  - subst s. discriminate H2.
  - destruct Hc as [-> Hc].
    pose proof (canon_digits mu eu (conj eq_refl Hc)) as (_ & _ & Hn).
    unfold f2_0, f5_0 in *. rewrite SFleb_finite_pos in H2, H5.
    exists mu, eu. split; [reflexivity|].
    destruct (Z.compare_spec (-51) eu); destruct (Z.compare_spec eu (-50));
      try discriminate; (split; [apply Hn|]; lia).
Qed.

(** The travel time of a distance of at most [2^19] km. *)
Lemma travel_time_of_spec distance u :
  canon_finite false distance -> le_pow2 19 distance ->
  canon_finite false u -> SFleb f2_0 u = true -> SFleb u f5_0 = true ->
  exists t, travel_time_of distance u = Converted t /\
            0 <= t <= 8388608 /\
            (t = 0 <-> SFltb (Py.mul distance u) Py.f1_0 = true).
Proof.
  intros Hd Hle Hu H2 H5.
  destruct (factor_shape u Hu H2 H5) as (mu & eu & -> & Hdu & Heu).
  unfold travel_time_of, Py.mul.
  destruct distance as [s|s| |s md ed]; unfold canon_finite in Hd; try tauto.
  - subst s. exists 0. cbn. split; [reflexivity|]. split; [lia|]. split; auto.
  - destruct Hd as [-> Hd].
    pose proof (canon_digits md ed (conj eq_refl Hd)) as (Hed & Hdd & _).
    pose proof (le_pow2_digits 19 md ed Hle) as HD.
    unfold SF64mul, SFmul. cbn [xorb]. rewrite Pos2Z.inj_mul.
    pose proof (Zdigits2_mul_bounds (Zpos md) (Zpos mu) ltac:(lia) ltac:(lia)) as [Hlo Hhi].
    destruct (Zdigits2_bounds (Zpos md)) as (Y1 & Y2 & Y3); [lia|].
    rewrite Hdu in *.
    assert (Hpre : ed + eu <= fexp prec emax (Zdigits2 (Zpos md * Zpos mu) + (ed + eu)))
      by (rewrite fexp64_eq; lia).
    pose proof (round_canon false (Zpos md * Zpos mu) (ed + eu) loc_Exact
                  ltac:(lia) Hpre ltac:(lia)) as Hc.
    pose proof (round_le 23 false (Zpos md * Zpos mu) (ed + eu) loc_Exact
                  ltac:(lia) Hpre ltac:(lia) ltac:(lia)) as Hl.
    destruct (binary_round_aux prec emax false (Z.pos md * Z.pos mu) (ed + eu) loc_Exact)
      as [s|s| |s m e]; unfold canon_finite in Hc; try tauto.
    + subst s. exists 0. cbn. split; [reflexivity|]. split; [lia|]. split; auto.
    + destruct Hc as [-> Hc].
      pose proof (canon_digits m e (conj eq_refl Hc)) as (He & Hdm & Hnm).
      destruct Hl as [HeK HmK].
      destruct (Zdigits2_bounds (Zpos m)) as (M1 & M2 & M3); [lia|].
      destruct (int_of_float_nonneg m e) as (a & -> & Hpos & Hneg).
      exists a. split; [reflexivity|].
      unfold Py.f1_0. rewrite SFltb_finite_pos.
      destruct (Z_le_gt_dec 0 e) as [L|G].
      * rewrite (Hpos L).
        assert (0 < 2 ^ e) by (apply Z.pow_pos_nonneg; lia).
        assert (Zpos m * 2 ^ e <= 2 ^ (23 - e) * 2 ^ e)
          by (apply Z.mul_le_mono_nonneg_r; lia).
        rewrite <- Z.pow_add_r in H0 by lia. replace (23 - e + e) with 23 in H0 by lia.
        change (2 ^ 23) with 8388608 in H0.
        split; [nia|].
        destruct (Z.compare_spec e (-52)); [lia|lia|].
        split; [nia|discriminate].
      * rewrite (Hneg ltac:(lia)).
        assert (P : 0 < 2 ^ (- e)) by (apply Z.pow_pos_nonneg; lia).
        assert (Q : 2 ^ (23 - e) = 8388608 * 2 ^ (- e)).
        { replace (23 - e) with (23 + - e) by lia. rewrite Z.pow_add_r by lia. reflexivity. }
        split.
        { split; [apply Z.div_pos; lia|].
          apply Z.div_le_upper_bound; [lia|]. lia. }
        destruct (Z.compare_spec e (-52)) as [E|L|G2].
        -- (* e = -52: the float is at least 1 *)
           subst e. specialize (Hnm ltac:(lia)). rewrite Hnm in M2.
           change (2 ^ (53 - 1)) with (2 ^ 52) in M2. change (- -52) with 52.
           split.
           ++ intros Hz. apply div_pow2_zero in Hz; lia.
           ++ intros Hlt. apply Pos.ltb_lt in Hlt. exfalso.
              apply Pos2Z.pos_lt_pos in Hlt. 
              change (Z.pos 4503599627370496) with (2 ^ 52) in Hlt. lia.
        -- split; [reflexivity|]. intros _.
           apply Z.div_small. split; [lia|].
           eapply Z.lt_le_trans; [exact M3|]. apply Z.pow_le_mono_r; lia.
        -- split; [|discriminate]. intros Hz. exfalso.
           apply div_pow2_zero in Hz; try lia.
           specialize (Hnm ltac:(lia)). rewrite Hnm in M2.
           assert (2 ^ (- e) <= 2 ^ (53 - 1)) by (apply Z.pow_le_mono_r; lia). lia.
Qed.

(** X15. The travel time is never negative, and the guard against 0 is live.
    For a distance that is a non-negative float of at most [2^19] (km) and a
    factor between 2 and 5, [int(distance * factor)] returns: the travel time
    is an integer between 0 and [2^23 = 8388608], inside the range where a
    shorter time scores strictly higher. It is 0 exactly when the product is below
    1, and that is the case in which the selection replaces it by 1. *)
Theorem X15_travel_time_is_not_negative :
  forall distance factor : Py.float,
    canon_finite false distance -> le_pow2 19 distance ->
    canon_finite false factor ->
    Py.le f2_0 factor = true -> Py.le factor f5_0 = true ->
    exists t : Z,
      travel_time_of distance factor = Converted t /\
      0 <= t <= 8388608 /\
      (t = 0 <-> Py.lt (Py.mul distance factor) Py.f1_0 = true) /\
      avoid_zero t = Z.max 1 t.
Proof.
  intros distance factor Hd Hle Hf H2 H5.
  destruct (travel_time_of_spec distance factor Hd Hle Hf H2 H5) as (t & E & Hb & Hz).
  exists t. split; [assumption|]. split; [assumption|].
  split; [assumption|].
  unfold avoid_zero. destruct (Z.eqb_spec t 0); lia.
Qed.

Lemma X15_witness :
  exists t : Z,
    travel_time_of Py.f0_3 f2_0 = Converted t /\
    0 <= t <= 8388608 /\
    (t = 0 <-> Py.lt (Py.mul Py.f0_3 f2_0) Py.f1_0 = true) /\
    avoid_zero t = Z.max 1 t.
Proof.
  apply (X15_travel_time_is_not_negative Py.f0_3 f2_0).
  - split; reflexivity.
  - split; [lia|]. vm_compute. discriminate.
  - split; reflexivity.
  - reflexivity.
  - reflexivity.
Defined.
